(** * ChatLab: merge engine, streaming parsers and analytics

    A shallow embedding of the algorithmic core of ChatLab
    (electron/main/merger, electron/main/parser/formats and the advanced
    analytics queries) together with the properties its specification
    states about it.

    Conventions of the embedding.
    - JavaScript numbers that hold timestamps, identifiers and counters are
      integers ([Z]) or naturals ([nat]) as the code uses them.
    - A JavaScript string is a [string]; one [ascii] stands for one code
      unit, so [String.length] is the [.length] of the source.
    - [null]/[undefined] are [None].
    - A JavaScript [Map] or [Set] keeps its keys in insertion order and the
      code iterates over them, so both are association lists / lists updated
      in place ([map_set], [set_add]).
    - A thrown exception is the [Throw] branch of [outcome]; calls into the
      file system, the sniffer and the session store are fields of an
      environment record and are logged in a trace. *)

From Stdlib Require Import ZArith List String Ascii Bool Lia Arith.
From Stdlib Require Import Permutation Sorted.
From Stdlib Require Import Decimal DecimalString DecimalZ DecimalPos DecimalFacts.
Import ListNotations.

Set Implicit Arguments.

Open Scope string_scope.
Open Scope Z_scope.

(* ===================================================================== *)
(** * JavaScript values used by the code *)
(* ===================================================================== *)

Module Js.

(** What a [throw] carries: an [Error] instance with its message, or any
    other value. *)
Inductive thrown : Type :=
| JsError (message : string)
| JsOther.

Inductive outcome (A : Type) : Type :=
| Normal (a : A)
| Throw (e : thrown).
Arguments Normal {A} a.
Arguments Throw {A} e.

(** [String(n)] for an integer [n]. *)
Definition numToString (n : Z) : string :=
  NilZero.string_of_int (Z.to_int n).

Definition natToString (n : nat) : string := numToString (Z.of_nat n).

(** [hay.includes(needle)]. *)
Fixpoint includes (needle hay : string) : bool :=
  if String.prefix needle hay then true
  else match hay with
       | EmptyString => false
       | String _ rest => includes needle rest
       end.

(** Occurrence of a code unit in a string. *)
Fixpoint occurs (c : ascii) (s : string) : Prop :=
  match s with
  | EmptyString => False
  | String a rest => a = c \/ occurs c rest
  end.

(** [parts.join(sep)]. *)
Fixpoint join (sep : string) (parts : list string) : string :=
  match parts with
  | [] => ""
  | [p] => p
  | p :: rest => p ++ sep ++ join sep rest
  end.

(** White space and line terminators removed by [String.prototype.trim],
    among the code units that an [ascii] can hold (0 to 255): TAB, LF, VT,
    FF, CR, SPACE and the no-break space, code unit 160. The other ones
    of the language (U+1680, U+2000 to U+200A, U+2028, U+2029, U+202F,
    U+205F, U+3000, U+FEFF) are code units above 255. *)
Definition isWhiteSpace (c : ascii) : bool :=
  let n := nat_of_ascii c in
  ((9 <=? n) && (n <=? 13))%nat || (n =? 32)%nat || (n =? 160)%nat.

Fixpoint trimStart (s : string) : string :=
  match s with
  | EmptyString => EmptyString
  | String c rest => if isWhiteSpace c then trimStart rest else s
  end.

Fixpoint trimEnd (s : string) : string :=
  match s with
  | EmptyString => EmptyString
  | String c rest =>
      match trimEnd rest with
      | EmptyString => if isWhiteSpace c then EmptyString else String c EmptyString
      | r => String c r
      end
  end.

(** [s.trim()] for a string of code units 0 to 255. The functions below
    that call [trim] on text of any alphabet take it as an argument. *)
Definition trim (s : string) : string := trimEnd (trimStart s).

(** ** Insertion-ordered [Map] and [Set] *)

Section OrderedMap.
Variables K V : Type.
Variable keq : K -> K -> bool.

Definition JsMap := list (K * V).

Fixpoint map_get (k : K) (m : JsMap) : option V :=
  match m with
  | [] => None
  | (k', v) :: rest => if keq k k' then Some v else map_get k rest
  end.

Definition map_has (k : K) (m : JsMap) : bool :=
  match map_get k m with Some _ => true | None => false end.

(** [m.set(k, v)]: a present key keeps its position, a new key goes
    last. *)
Fixpoint map_set (k : K) (v : V) (m : JsMap) : JsMap :=
  match m with
  | [] => [(k, v)]
  | (k', v') :: rest =>
      if keq k k' then (k, v) :: rest else (k', v') :: map_set k v rest
  end.

Definition map_keys (m : JsMap) : list K := List.map fst m.
Definition map_values (m : JsMap) : list V := List.map snd m.
Definition map_size (m : JsMap) : nat := List.length m.

(** [s.add(k)] on a [Set]. *)
Fixpoint set_add (k : K) (s : list K) : list K :=
  match s with
  | [] => [k]
  | k' :: rest => if keq k k' then s else k' :: set_add k rest
  end.

Definition set_has (k : K) (s : list K) : bool := existsb (keq k) s.

(** [new Set(xs)], read back in insertion order. *)
Definition set_of_list (xs : list K) : list K :=
  fold_left (fun s k => set_add k s) xs [].
End OrderedMap.

End Js.

Import Js.

(* ===================================================================== *)
(** * The normalized chat model (src/types/chat) *)
(* ===================================================================== *)

Module Chat.

Inductive MessageType : Type :=
| TEXT | IMAGE | VOICE | VIDEO | FILE | EMOJI | SYSTEM.

Inductive ChatType : Type := GROUP | PRIVATE.

(** [ChatPlatform] is a string enum ('qq', ...); the merger also writes the
    marker 'mixed' into the same field. *)
Definition ChatPlatform := string.

Record ParsedMeta : Type := mkMeta {
  metaName : string;
  metaPlatform : ChatPlatform;
  metaType : ChatType
}.

Record ParsedMember : Type := mkMember {
  platformId : string;
  memberName : string
}.

Record ParsedMessage : Type := mkMessage {
  senderPlatformId : string;
  senderName : string;
  timestamp : Z;
  msgType : MessageType;
  content : option string
}.

Record ParseResult : Type := mkParseResult {
  meta : ParsedMeta;
  members : list ParsedMember;
  messages : list ParsedMessage
}.

Record ChatLabMember : Type := mkChatLabMember {
  clPlatformId : string;
  clName : string;
  aliases : option (list string)
}.

Record ChatLabMessage : Type := mkChatLabMessage {
  sender : string;
  name : string;
  clTimestamp : Z;
  clType : MessageType;
  clContent : option string
}.

Record MergeSource : Type := mkSource {
  filename : string;
  srcPlatform : ChatPlatform;
  messageCount : nat
}.

Record ChatLabHeader : Type := mkHeader {
  version : string;
  exportedAt : Z;
  generator : string
}.

Record ChatLabMeta : Type := mkChatLabMeta {
  clMetaName : string;
  clMetaPlatform : ChatPlatform;
  clMetaType : ChatType;
  sources : list MergeSource
}.

Record ChatLabFormat : Type := mkChatLab {
  chatlab : ChatLabHeader;
  clMeta : ChatLabMeta;
  clMembers : list ChatLabMember;
  clMessages : list ChatLabMessage
}.

Record MergeConflict : Type := mkConflict {
  conflictId : string;
  conflictTimestamp : Z;
  conflictSender : string;
  contentLength1 : nat;
  contentLength2 : nat;
  content1 : string;
  content2 : string
}.

Record ConflictCheckResult : Type := mkCheckResult {
  conflicts : list MergeConflict;
  totalMessages : nat
}.

Inductive Resolution : Type := keep1 | keep2 | keepBoth.

Record ConflictResolution : Type := mkResolution {
  resolutionId : string;
  resolution : Resolution
}.

Record MergeParams : Type := mkParams {
  filePaths : list string;
  outputName : string;
  outputDir : option string;
  conflictResolutions : list ConflictResolution;
  andAnalyze : bool
}.

(** [MergeResult]: [{success: true, outputPath, sessionId}] or
    [{success: false, error}]. *)
Inductive MergeResult : Type :=
| MergeSuccess (outputPath : string) (sessionId : option string)
| MergeFailure (error : string).

(** The part of a format descriptor the merger reads. *)
Record FormatFeature : Type := mkFeature {
  featureId : string;
  featureName : string;
  featurePlatform : ChatPlatform;
  priority : Z
}.

End Chat.

Import Chat.

(* ===================================================================== *)
(** * Effects: exceptions and the trace of calls leaving the module *)
(* ===================================================================== *)

Module Effects.

(** Calls to the sniffer, the parser, the file system and the session
    store, in the order the code makes them. *)
Inductive Call : Type :=
| CallDetect (path : string)
| CallParse (path : string)
| CallMkdir (dir : string)
| CallWrite (path : string) (data : ChatLabFormat)
| CallImport (data : ParseResult).

Definition Trace := list Call.

(** A computation that may throw and that appends to the trace. *)
Definition Eff (A : Type) : Type := Trace -> outcome A * Trace.

Definition ret {A} (a : A) : Eff A := fun t => (Normal a, t).

Definition throw {A} (e : thrown) : Eff A := fun t => (Throw e, t).

Definition bind {A B} (c : Eff A) (k : A -> Eff B) : Eff B :=
  fun t =>
    match c t with
    | (Normal a, t') => k a t'
    | (Throw e, t') => (Throw e, t')
    end.

Definition emit (c : Call) : Eff unit := fun t => (Normal tt, (t ++ [c])%list).

Definition lift {A} (o : outcome A) : Eff A := fun t => (o, t).

(** [try { body } catch (err) { handler(err) }]. *)
Definition tryCatch {A} (body : Eff A) (handler : thrown -> Eff A) : Eff A :=
  fun t =>
    match body t with
    | (Normal a, t') => (Normal a, t')
    | (Throw e, t') => handler e t'
    end.

(** [for (const x of xs) ys.push(await f(x))]. *)
Fixpoint forEach {A B} (f : A -> Eff B) (xs : list A) : Eff (list B) :=
  match xs with
  | [] => ret []
  | x :: rest =>
      bind (f x) (fun y => bind (forEach f rest) (fun ys => ret (y :: ys)))
  end.

End Effects.

Import Effects.

Notation "x <- c ;; k" := (bind c (fun x => k))
  (at level 61, c at next level, right associativity).
Notation "c ;;; k" := (bind c (fun _ => k))
  (at level 61, right associativity).

(* ===================================================================== *)
(** * The merge engine (electron/main/merger) *)
(* ===================================================================== *)

Module Merger.

(** What the module imports: [detectFormat] and [parseFileSync] from
    '../parser', [importData] from '../database/core', and the [fs], [path],
    [app] and [Date] services. A call may throw; its answer depends on
    its arguments only: the files do not change while an operation runs. *)
Record Env : Type := mkEnv {
  detectFormat : string -> outcome (option FormatFeature);
  parseFileSync : string -> outcome ParseResult;
  importData : ParseResult -> outcome string;
  basename : string -> string;
  pathJoin : list string -> string;
  documentsPath : outcome string;
  cwd : string;
  existsSync : string -> bool;
  mkdirSync : string -> outcome unit;
  writeFileSync : string -> ChatLabFormat -> outcome unit;
  isoNow : string;
  nowMs : Z
}.

(** A message together with the basename of the file it came from. *)
Record Item : Type := mkItem {
  msg : ParsedMessage;
  source : string
}.

Definition contentLength (m : ParsedMessage) : nat :=
  String.length (match content m with Some c => c | None => "" end).

Definition contentOrEmpty (m : ParsedMessage) : string :=
  match content m with Some c => c | None => "" end.

(** [getMessageKey]. *)
Definition getMessageKey (m : ParsedMessage) : string :=
  numToString (timestamp m) ++ "_" ++ senderPlatformId m ++ "_"
    ++ natToString (contentLength m).

(** The fingerprint of the specification: time stamp, sender identifier
    and content length. *)
Definition Fingerprint : Type := (Z * string * nat)%type.

Definition fingerprint (m : ParsedMessage) : Fingerprint :=
  (timestamp m, senderPlatformId m, contentLength m).

Definition clFingerprint (c : ChatLabMessage) : Fingerprint :=
  (clTimestamp c, sender c,
   String.length (match clContent c with Some t => t | None => "" end)).

Definition fingerprint_eqb (a b : Fingerprint) : bool :=
  let '(t1, s1, n1) := a in
  let '(t2, s2, n2) := b in
  (t1 =? t2) && (s1 =? s2)%string && (n1 =? n2)%nat.

(** The first element of each key, in order of appearance ([seen]: the
    keys met so far). *)
Fixpoint firstOccurrences {A K} (keq : K -> K -> bool) (key : A -> K)
    (seen : list K) (l : list A) : list A :=
  match l with
  | [] => []
  | x :: rest =>
      if set_has keq (key x) seen then firstOccurrences keq key seen rest
      else x :: firstOccurrences keq key (seen ++ [key x])%list rest
  end.

(** [map.get(k).push(x)] after [if (!map.has(k)) map.set(k, [])]. *)
Definition group_push {K A} (keq : K -> K -> bool) (k : K) (x : A)
    (m : JsMap K (list A)) : JsMap K (list A) :=
  map_set keq k
    (match map_get keq k m with Some l => (l ++ [x])%list | None => [x] end) m.

Definition groupBy {K A} (keq : K -> K -> bool) (key : A -> K)
    (xs : list A) : JsMap K (list A) :=
  fold_left (fun m x => group_push keq (key x) x m) xs [].

(** The index pairs [i < j] of the two nested loops, in loop order. *)
Fixpoint pairs {A} (l : list A) : list (A * A) :=
  match l with
  | [] => []
  | x :: rest => (List.map (fun y => (x, y)) rest ++ pairs rest)%list
  end.

Definition orElse (s fallback : string) : string :=
  if (s =? "")%string then fallback else s.

(** Body of the innermost loop: one pair of length groups. *)
Definition conflictOfPair (ts : Z) (sender : string)
    (acc : list MergeConflict)
    (p : (nat * list Item) * (nat * list Item)) : list MergeConflict :=
  let '((len1, items1), (len2, items2)) := p in
  match items1 with
  | [] => acc (* a group is never empty *)
  | item1 :: _ =>
      match find (fun it => negb (source it =? source item1)%string) items2 with
      | None => acc
      | Some item2 =>
          (acc ++ [ {| conflictId :=
                        "conflict_" ++ numToString ts ++ "_" ++ sender ++ "_"
                          ++ natToString (List.length acc);
                      conflictTimestamp := ts;
                      conflictSender := orElse (senderName (msg item1)) sender;
                      contentLength1 := len1;
                      contentLength2 := len2;
                      content1 := contentOrEmpty (msg item1);
                      content2 := contentOrEmpty (msg item2) |} ])%list
      end
  end.

Definition conflictsOfSender (ts : Z) (acc : list MergeConflict)
    (g : string * list Item) : list MergeConflict :=
  let '(sender, senderItems) := g in
  if (List.length senderItems <? 2)%nat then acc
  else
    let sources := set_of_list String.eqb (List.map source senderItems) in
    if (List.length sources <? 2)%nat then acc
    else
      let lengthGroups :=
        groupBy Nat.eqb (fun it => contentLength (msg it)) senderItems in
      if (1 <? map_size lengthGroups)%nat
      then fold_left (conflictOfPair ts sender) (pairs lengthGroups) acc
      else acc.

Definition conflictsOfTimestamp (acc : list MergeConflict)
    (g : Z * list Item) : list MergeConflict :=
  let '(ts, items) := g in
  if (List.length items <? 2)%nat then acc
  else
    let senderGroups :=
      groupBy String.eqb (fun it => senderPlatformId (msg it)) items in
    fold_left (conflictsOfSender ts) senderGroups acc.

Definition detectConflicts (allMessages : list Item) : list MergeConflict :=
  let timeGroups := groupBy Z.eqb (fun it => timestamp (msg it)) allMessages in
  fold_left conflictsOfTimestamp timeGroups [].

Definition uniqueKeys (allMessages : list Item) : list string :=
  set_of_list String.eqb (List.map (fun it => getMessageKey (msg it)) allMessages).

Definition unrecognizedMessage (env : Env) (filePath : string) : string :=
  "无法识别文件格式: " ++ basename env filePath.

Definition LF : string := String (ascii_of_nat 10) EmptyString.

Definition mismatchMessage (uniqueFormats : list string) : string :=
  "不支持合并不同格式的聊天记录。" ++ LF ++ "检测到的格式："
    ++ join "、" uniqueFormats ++ LF
    ++ "请确保所有文件使用相同的导出工具和格式。".

(** The format names of the files that the sniffer recognises, in input
    order. *)
Definition sniffedFormats (env : Env) (filePaths : list string) : list string :=
  flat_map
    (fun p => match detectFormat env p with
              | Normal (Some f) => [featureName f]
              | _ => []
              end)
    filePaths.

(** First loop of [checkConflicts]: sniff every file. *)
Definition detectOne (env : Env) (filePath : string) : Eff string :=
  emit (CallDetect filePath) ;;;
  format <- lift (detectFormat env filePath) ;;
  match format with
  | Some f => ret (featureName f)
  | None => throw (JsError (unrecognizedMessage env filePath))
  end.

(** Second loop of [checkConflicts]: parse every file. *)
Definition parseOne (env : Env) (filePath : string) : Eff (list Item) :=
  emit (CallParse filePath) ;;;
  result <- lift (parseFileSync env filePath) ;;
  ret (List.map (fun m => mkItem m (basename env filePath)) (messages result)).

(** [checkConflicts] (the [console.log] lines are left out). *)
Definition checkConflicts (env : Env) (filePaths : list string)
    : Eff ConflictCheckResult :=
  formats <- forEach (detectOne env) filePaths ;;
  let uniqueFormats := set_of_list String.eqb formats in
  if (1 <? List.length uniqueFormats)%nat
  then throw (JsError (mismatchMessage uniqueFormats))
  else
    perFile <- forEach (parseOne env) filePaths ;;
    let allMessages := List.concat perFile in
    ret {| conflicts := detectConflicts allMessages;
           totalMessages := List.length (uniqueKeys allMessages) |}.


(** ** [mergeFiles] *)

Definition getDefaultOutputDir (env : Env) : string :=
  match documentsPath env with
  | Normal docPath => pathJoin env [docPath; "ChatLab"; "merged"]
  | Throw _ => pathJoin env [cwd env; "merged"]
  end.

Definition ensureOutputDir (env : Env) (dir : string) : Eff unit :=
  if existsSync env dir then ret tt
  else emit (CallMkdir dir) ;;; lift (mkdirSync env dir).

Fixpoint replaceChars (p : ascii -> bool) (by_ : ascii) (s : string) : string :=
  match s with
  | EmptyString => EmptyString
  | String c rest =>
      String (if p c then by_ else c) (replaceChars p by_ rest)
  end.

Fixpoint removeChars (p : ascii -> bool) (s : string) : string :=
  match s with
  | EmptyString => EmptyString
  | String c rest =>
      if p c then removeChars p rest else String c (removeChars p rest)
  end.

(** The characters the file-name sanitiser replaces: slash, backslash,
    question mark, percent, star, colon, bar, double quote and the two
    angle brackets. *)
Definition isUnsafeChar (c : ascii) : bool :=
  existsb (Nat.eqb (nat_of_ascii c)) [47; 92; 63; 37; 42; 58; 124; 34; 60; 62]%nat.

Definition generateOutputFilename (env : Env) (name : string) : string :=
  let date := removeChars (Ascii.eqb "-") (String.substring 0 10 (isoNow env)) in
  let safeName := replaceChars isUnsafeChar "_" name in
  safeName ++ "_merged_" ++ date ++ ".chatlab.json".

(** One step of the member-unification loop. *)
Definition mergeMember (memberMap : JsMap string ChatLabMember)
    (member : ParsedMember) : JsMap string ChatLabMember :=
  match map_get String.eqb (platformId member) memberMap with
  | Some existing =>
      let known :=
        match aliases existing with
        | Some al => existsb (String.eqb (memberName member)) al
        | None => false
        end in
      if negb (clName existing =? memberName member)%string && negb known
      then
        let al := match aliases existing with Some al => al | None => [] end in
        map_set String.eqb (platformId member)
          (mkChatLabMember (clPlatformId existing) (clName existing)
             (Some (al ++ [memberName member])%list))
          memberMap
      else memberMap
  | None =>
      map_set String.eqb (platformId member)
        (mkChatLabMember (platformId member) (memberName member) None)
        memberMap
  end.

Definition mergeMembers (parseResults : list (ParseResult * string))
    : JsMap string ChatLabMember :=
  fold_left (fun mm pr => fold_left mergeMember (members (fst pr)) mm)
    parseResults [].

Definition collectMessages (parseResults : list (ParseResult * string))
    : list Item :=
  List.concat
    (List.map (fun pr => List.map (fun m => mkItem m (snd pr)) (messages (fst pr)))
       parseResults).

Definition toChatLabMessage (m : ParsedMessage) : ChatLabMessage :=
  {| sender := senderPlatformId m;
     name := senderName m;
     clTimestamp := timestamp m;
     clType := msgType m;
     clContent := content m |}.

(** The entry of [messageMap] that the dedup loop creates for the first
    message of a key. *)
Definition entryOf (m : ParsedMessage) : string * list ChatLabMessage :=
  (getMessageKey m, [toChatLabMessage m]).

(** State of the dedup loop: [messageMap] and [processedConflicts]. *)
Definition DedupState : Type :=
  (JsMap string (list ChatLabMessage) * list string)%type.

(** Body of the dedup loop. The conflict branch only records the conflict
    id: both resolution arms are empty in the source. *)
Definition dedupStep (conflictResolutions : list ConflictResolution)
    (st : DedupState) (it : Item) : DedupState :=
  let '(messageMap, processedConflicts) := st in
  let m := msg it in
  let key := getMessageKey m in
  let resolutionMap :=
    fold_left (fun rm r => map_set String.eqb (resolutionId r) (resolution r) rm)
      conflictResolutions [] in
  let conflictId :=
    option_map resolutionId
      (find (fun c => includes (numToString (timestamp m) ++ "_" ++ senderPlatformId m)
                        (resolutionId c))
         conflictResolutions) in
  let processedConflicts' :=
    match conflictId with
    | Some cid =>
        if negb (cid =? "")%string && negb (set_has String.eqb cid processedConflicts)
        then
          let processed := set_add String.eqb cid processedConflicts in
          match map_get String.eqb cid resolutionMap with
          | Some keepBoth => processed
          | Some keep1 | Some keep2 => processed
          | None => processed
          end
        else processedConflicts
    | None => processedConflicts
    end in
  let messageMap1 :=
    if map_has String.eqb key messageMap then messageMap
    else map_set String.eqb key [] messageMap in
  let existing :=
    match map_get String.eqb key messageMap1 with Some l => l | None => [] end in
  let messageMap2 :=
    if (List.length existing =? 0)%nat
    then map_set String.eqb key (existing ++ [toChatLabMessage m])%list messageMap1
    else messageMap1 in
  (messageMap2, processedConflicts').

(** [xs.sort((a, b) => a.timestamp - b.timestamp)]: the sort of the
    language is stable, so the result is the one of a stable insertion
    sort. *)
Fixpoint insertByTimestamp (x : ChatLabMessage) (l : list ChatLabMessage)
    : list ChatLabMessage :=
  match l with
  | [] => [x]
  | y :: rest =>
      if clTimestamp x <=? clTimestamp y then x :: l
      else y :: insertByTimestamp x rest
  end.

Definition sortByTimestamp (l : list ChatLabMessage) : list ChatLabMessage :=
  fold_right insertByTimestamp [] l.

(** The merged message list: dedup loop, flatten, sort. *)
Definition mergedMessages (conflictResolutions : list ConflictResolution)
    (allMessages : list Item) : list ChatLabMessage :=
  let messageMap :=
    fst (fold_left (dedupStep conflictResolutions) allMessages ([], [])) in
  sortByTimestamp (List.concat (map_values messageMap)).

Definition mergedPlatform (parseResults : list (ParseResult * string))
    : ChatPlatform :=
  let platforms :=
    set_of_list String.eqb
      (List.map (fun pr => metaPlatform (meta (fst pr))) parseResults) in
  match parseResults with
  | first :: _ =>
      if (List.length platforms =? 1)%nat then metaPlatform (meta (fst first))
      else "mixed"
  | [] => "mixed"
  end.

Definition mergeSources (parseResults : list (ParseResult * string))
    : list MergeSource :=
  List.map
    (fun pr => {| filename := snd pr;
                  srcPlatform := metaPlatform (meta (fst pr));
                  messageCount := List.length (messages (fst pr)) |})
    parseResults.

(** Reading [parseResults[0].result] of an empty array. *)
Definition undefinedRead : thrown :=
  JsError "Cannot read properties of undefined (reading 'result')".

Definition buildChatLab (env : Env) (params : MergeParams)
    (parseResults : list (ParseResult * string)) : outcome ChatLabFormat :=
  let mergedMsgs :=
    mergedMessages (conflictResolutions params) (collectMessages parseResults) in
  match parseResults with
  | [] => Throw undefinedRead
  | first :: _ =>
      Normal
        {| chatlab := {| version := "1.0.0";
                         exportedAt := nowMs env / 1000;
                         generator := "ChatLab Merge Tool" |};
           clMeta := {| clMetaName := outputName params;
                        clMetaPlatform := mergedPlatform parseResults;
                        clMetaType := metaType (meta (fst first));
                        sources := mergeSources parseResults |};
           clMembers := map_values (mergeMembers parseResults);
           clMessages := mergedMsgs |}
  end.

(** The archive converted back for [importData]. *)
Definition toParseResult (data : ChatLabFormat) : ParseResult :=
  {| meta := {| metaName := clMetaName (clMeta data);
                metaPlatform := clMetaPlatform (clMeta data);
                metaType := clMetaType (clMeta data) |};
     members := List.map (fun m => mkMember (clPlatformId m) (clName m))
                  (clMembers data);
     messages := List.map (fun m => mkMessage (sender m) (name m) (clTimestamp m)
                                      (clType m) (clContent m))
                   (clMessages data) |}.

Definition parseForMerge (env : Env) (filePath : string)
    : Eff (ParseResult * string) :=
  emit (CallParse filePath) ;;;
  result <- lift (parseFileSync env filePath) ;;
  ret (result, basename env filePath).

(** A parse result of [mergeFiles] is what [parseFileSync] returned for
    the path, tagged with the basename. *)
Definition parsedFrom (env : Env) (p : string) (pr : ParseResult * string) : Prop :=
  parseFileSync env p = Normal (fst pr) /\ snd pr = basename env p.

(** The [try] block of [mergeFiles]. *)
Definition mergeFilesBody (env : Env) (params : MergeParams) : Eff MergeResult :=
  parseResults <- forEach (parseForMerge env) (filePaths params) ;;
  chatLabData <- lift (buildChatLab env params parseResults) ;;
  let targetDir :=
    match outputDir params with
    | Some d => if (d =? "")%string then getDefaultOutputDir env else d
    | None => getDefaultOutputDir env
    end in
  ensureOutputDir env targetDir ;;;
  let outputPath :=
    pathJoin env [targetDir; generateOutputFilename env (outputName params)] in
  emit (CallWrite outputPath chatLabData) ;;;
  lift (writeFileSync env outputPath chatLabData) ;;;
  if andAnalyze params
  then
    emit (CallImport (toParseResult chatLabData)) ;;;
    sessionId <- lift (importData env (toParseResult chatLabData)) ;;
    ret (MergeSuccess outputPath (Some sessionId))
  else ret (MergeSuccess outputPath None).

Definition errorMessage (err : thrown) : string :=
  match err with
  | JsError message => message
  | JsOther => "合并失败"
  end.

(** [mergeFiles]: the body inside [try], the [catch] turning whatever was
    thrown into [{success: false, error}]. *)
Definition mergeFiles (env : Env) (params : MergeParams) : Eff MergeResult :=
  tryCatch (mergeFilesBody env params)
    (fun err => ret (MergeFailure (errorMessage err))).

End Merger.

(* ===================================================================== *)
(** * Calendar arithmetic behind [Date] *)
(* ===================================================================== *)

Module DateTime.

(** Civil date (year, month, day) of a day number counted from
    1970-01-01, proleptic Gregorian calendar. *)
Definition civilFromDays (days : Z) : Z * Z * Z :=
  let z := days + 719468 in
  let era := z / 146097 in
  let doe := z - era * 146097 in
  let yoe := (doe - doe / 1460 + doe / 36524 - doe / 146096) / 365 in
  let doy := doe - (365 * yoe + yoe / 4 - yoe / 100) in
  let mp := (5 * doy + 2) / 153 in
  let d := doy - (153 * mp + 2) / 5 + 1 in
  let m := if mp <? 10 then mp + 3 else mp - 9 in
  let y := yoe + era * 400 in
  (if m <=? 2 then y + 1 else y, m, d).

(** A [Date] is its time value: milliseconds since the epoch, UTC. *)
Definition Date := Z.

Definition msPerDay : Z := 86400000.
Definition msPerHour : Z := 3600000.
Definition msPerMinute : Z := 60000.

(** The local time zone is a fixed offset from UTC, in milliseconds
    (positive east of Greenwich); daylight-saving changes are not
    modelled. *)
Definition localMs (tz : Z) (d : Date) : Z := d + tz.

Definition getHours (tz : Z) (d : Date) : Z :=
  (localMs tz d mod msPerDay) / msPerHour.

Definition getMinutes (tz : Z) (d : Date) : Z :=
  (localMs tz d mod msPerHour) / msPerMinute.

Definition getFullYear (tz : Z) (d : Date) : Z :=
  fst (fst (civilFromDays (localMs tz d / msPerDay))).

(** Day number of the local calendar day of [d]. *)
Definition localDay (tz : Z) (d : Date) : Z := localMs tz d / msPerDay.

(** [d.setDate(d.getDate() + n)]: the same local clock time [n] calendar
    days later. *)
Definition addDays (n : Z) (d : Date) : Date := d + n * msPerDay.

Definition padStart (width : nat) (s : string) : string :=
  let fix zeros (k : nat) : string :=
    match k with O => "" | S k' => String "0" (zeros k') end in
  zeros (width - String.length s)%nat ++ s.

Definition formatDay (ymd : Z * Z * Z) : string :=
  let '(y, m, d) := ymd in
  let year :=
    if (0 <=? y) && (y <=? 9999) then padStart 4 (numToString y)
    else (if y <? 0 then "-" else "+") ++ padStart 6 (numToString (Z.abs y)) in
  year ++ "-" ++ padStart 2 (numToString m) ++ "-" ++ padStart 2 (numToString d).

(** [d.toISOString().split('T')[0]]: the UTC calendar date. *)
Definition isoDate (d : Date) : string :=
  formatDay (civilFromDays (d / msPerDay)).

(** The local calendar date, in the same notation. *)
Definition localDate (tz : Z) (d : Date) : string :=
  formatDay (civilFromDays (localDay tz d)).

End DateTime.

(* ===================================================================== *)
(** * Streaming parsers (parser/formats, shuakami-qq-exporter legacy and v4) *)
(* ===================================================================== *)

Module Parser.

Record RawSender : Type := mkSender {
  uid : option string;
  uin : option string;
  rawName : string
}.

Record RawContent : Type := mkContent {
  text : string;
  resources : option (list string);  (* the [type] of each resource *)
  elements : option (list string)    (* the [type] of each element *)
}.

(** [LegacyMessage] and [V4Message] differ in the type of the time stamp
    ([T]: a number of milliseconds, or an ISO string) and of the type code
    ([C]: 'type_1', ... or 1, 2, ...); the flags are [system]/[recalled],
    respectively [isSystemMessage]/[isRecalled]. *)
Record RawMessage (T C : Type) : Type := mkRaw {
  rawTimestamp : T;
  rawSender : RawSender;
  rawType : option C;
  rawSystem : bool;
  rawRecalled : bool;
  rawContent : RawContent
}.

Inductive Stage : Type := StageParsing | StageDone.

(** The arguments of [createProgress]. *)
Record Progress : Type := mkProgress {
  stage : Stage;
  bytesRead : Z;
  totalBytes : Z;
  messagesProcessed : nat;
  progressMessage : string
}.

Inductive ParseEvent : Type :=
| EvProgress (p : Progress)
| EvMeta (m : ParsedMeta)
| EvMembers (ms : list ParsedMember)
| EvMessages (batch : list ParsedMessage)
| EvDone (messageCount memberCount : nat).

(** What a parse reads from the file: its size, the [chatInfo] object found
    in the head (name and type, when the head matches and parses), the
    records that the JSON pipeline delivers under [messages], and the error
    the pipeline ends with, if any. *)
Record SourceFile (M : Type) : Type := mkSourceFile {
  fileSize : Z;
  chatInfo : option (string * string);
  records : list M;
  pipelineError : option thrown
}.

(** [a || b] on optional strings: the first one that is present and not
    empty. *)
Definition truthy (s : option string) : option string :=
  match s with
  | Some v => if (v =? "")%string then None else Some v
  | None => None
  end.

Definition resolveSender (s : RawSender) : option string :=
  match truthy (uin s) with
  | Some v => Some v
  | None => truthy (uid s)
  end.

Definition recalledMarker : string := "[已撤回] ".

(** [name || platformId]. *)
Definition orElseName (name fallback : string) : string :=
  if (name =? "")%string then fallback else name.

(** State of one parse: [memberMap], [batchCollector], [messageBatch] and
    [messagesProcessed]. *)
Record ParseState : Type := mkParseState {
  memberMap : JsMap string ParsedMember;
  batchCollector : list ParsedMessage;
  messageBatch : list ParsedMessage;
  processed : nat
}.

Definition initialState : ParseState := mkParseState [] [] [] 0.

(** The slices [messageBatch.slice(i, i + batchSize)] of the final loop;
    [fuel] bounds the number of iterations (the source loop does not end
    when [batchSize] is 0 and the list is not empty). *)
Fixpoint sliceLoop {A} (fuel i batchSize : nat) (l : list A) : list (list A) :=
  match fuel with
  | O => []
  | S fuel' =>
      if (i <? List.length l)%nat
      then firstn batchSize (skipn i l)
             :: sliceLoop fuel' (i + batchSize) batchSize l
      else []
  end.

Section Streaming.
Variables T C : Type.

(** [parseTimestamp] and [isValidYear] of '../utils', and the final
    [switch] of [convertMessageType] on the type code of the format. *)
Variable parseTimestamp : T -> option Z.
Variable isValidYear : Z -> bool.
Variable typeOfCode : option C -> MessageType.

Definition convertMessageType (code : option C) (c : RawContent) : MessageType :=
  let byElements :=
    match elements c with
    | Some els =>
        if existsb (fun t => (t =? "market_face")%string || (t =? "face")%string) els
        then EMOJI else typeOfCode code
    | None => typeOfCode code
    end in
  match resources c with
  | Some (resourceType :: _) =>
      if (resourceType =? "image")%string then IMAGE
      else if (resourceType =? "video")%string then VIDEO
      else if (resourceType =? "voice")%string || (resourceType =? "audio")%string
      then VOICE
      else if (resourceType =? "file")%string then FILE
      else byElements
  | _ => byElements
  end.

(** [processMessage]: the member map after the call and the message, if
    the record is kept. *)
Definition processMessage (members : JsMap string ParsedMember)
    (m : RawMessage T C)
    : JsMap string ParsedMember * option ParsedMessage :=
  match resolveSender (rawSender m) with
  | None => (members, None)
  | Some platformId =>
      let senderName := orElseName (rawName (rawSender m)) platformId in
      let members' :=
        map_set String.eqb platformId (mkMember platformId senderName) members in
      match parseTimestamp (rawTimestamp m) with
      | None => (members', None)
      | Some timestamp =>
          if negb (isValidYear timestamp) then (members', None)
          else
            let type :=
              if rawSystem m then SYSTEM
              else convertMessageType (rawType m) (rawContent m) in
            let textContent :=
              if rawRecalled m then recalledMarker ++ text (rawContent m)
              else text (rawContent m) in
            (members',
             Some {| senderPlatformId := platformId;
                     senderName := senderName;
                     timestamp := timestamp;
                     msgType := type;
                     content := if (textContent =? "")%string then None
                                else Some textContent |})
      end
  end.

(** The message a record turns into, if it is kept, and the records of
    a file that are kept, in file order. *)
Definition keptMessage (m : RawMessage T C) : option ParsedMessage :=
  snd (processMessage [] m).

Definition keptMessages (rs : list (RawMessage T C)) : list ParsedMessage :=
  flat_map (fun r => match keptMessage r with Some m => [m] | None => [] end) rs.

(** The ['data'] handler of the pipeline. *)
Definition onData (batchSize : nat) (st : ParseState) (m : RawMessage T C)
    : ParseState :=
  let '(members', parsed) := processMessage (memberMap st) m in
  match parsed with
  | None => mkParseState members' (batchCollector st) (messageBatch st) (processed st)
  | Some p =>
      let collector := (batchCollector st ++ [p])%list in
      if (batchSize <=? List.length collector)%nat
      then mkParseState members' [] (messageBatch st ++ collector)%list
             (S (processed st))
      else mkParseState members' collector (messageBatch st) (S (processed st))
  end.

(** The ['end'] handler. *)
Definition onEnd (st : ParseState) : ParseState :=
  match batchCollector st with
  | [] => st
  | _ => mkParseState (memberMap st) (batchCollector st)
           (messageBatch st ++ batchCollector st)%list (processed st)
  end.

Definition parseMeta (f : SourceFile (RawMessage T C)) : ParsedMeta :=
  match chatInfo f with
  | Some (name, type) =>
      mkMeta name "qq" (if (type =? "group")%string then GROUP else PRIVATE)
  | None => mkMeta "未知群聊" "qq" GROUP
  end.

(** The generator: the events it yields, and the error it ends with when
    the pipeline fails. [batchSize] is the option after its default. *)
Definition parse (batchSize : nat) (f : SourceFile (RawMessage T C))
    : list ParseEvent * option thrown :=
  let head :=
    [ EvProgress (mkProgress StageParsing 0 (fileSize f) 0 "开始解析...");
      EvMeta (parseMeta f) ] in
  let streamed := fold_left (onData batchSize) (records f) initialState in
  match pipelineError f with
  | Some e => (head, Some e)
  | None =>
      let st := onEnd streamed in
      let batches :=
        sliceLoop (List.length (messageBatch st)) 0 batchSize (messageBatch st) in
      ((head
          ++ [EvMembers (map_values (memberMap st))]
          ++ List.map EvMessages batches
          ++ [ EvProgress (mkProgress StageDone (fileSize f) (fileSize f)
                             (processed st) "解析完成");
               EvDone (processed st) (map_size (memberMap st)) ])%list,
       None)
  end.

(** The messages of all [messages] events, in order. *)
Definition emittedMessages (evs : list ParseEvent) : list ParsedMessage :=
  List.concat
    (List.map (fun ev => match ev with EvMessages b => b | _ => [] end) evs).

End Streaming.

(** ** The two formats *)

Definition LegacyMessage : Type := RawMessage Z string.
Definition V4Message : Type := RawMessage string Z.

Definition legacyTypeOfCode (qqType : option string) : MessageType :=
  match qqType with
  | Some t =>
      if (t =? "type_1")%string then TEXT
      else if (t =? "type_17")%string then EMOJI
      else if (t =? "type_3")%string then IMAGE
      else if (t =? "type_7")%string then VOICE
      else TEXT
  | None => TEXT
  end.

Definition v4TypeOfCode (messageType : option Z) : MessageType :=
  match messageType with
  | Some 1 => TEXT
  | Some 2 => IMAGE
  | Some 3 => VOICE
  | Some 7 => VIDEO
  | _ => TEXT
  end.

(** [parseLegacy] and [parseV4], over the two helpers of '../utils'. *)
Definition parseLegacy (parseTimestamp : Z -> option Z) (isValidYear : Z -> bool)
    (batchSize : option nat) (f : SourceFile LegacyMessage)
    : list ParseEvent * option thrown :=
  parse parseTimestamp isValidYear legacyTypeOfCode
    (match batchSize with Some n => n | None => 5000%nat end) f.

Definition parseV4 (parseTimestamp : string -> option Z) (isValidYear : Z -> bool)
    (batchSize : option nat) (f : SourceFile V4Message)
    : list ParseEvent * option thrown :=
  parse parseTimestamp isValidYear v4TypeOfCode
    (match batchSize with Some n => n | None => 5000%nat end) f.

(** ** The helpers of '../utils' *)

Module Utils.

(** Modelled from the spec: [parseTimestamp] of parser/utils is not among
    the sources; the specification resolves an integer time stamp as
    milliseconds, divided to seconds. *)
Definition parseTimestamp (ms : Z) : option Z := Some (ms / 1000).

(** Modelled from the spec: [isValidYear] of parser/utils is not among
    the sources; the specification calls a record invalid when the year
    of its resolved time stamp is before 2000. [tz] is the offset of
    local time. *)
Definition isValidYear (tz : Z) (timestamp : Z) : bool :=
  2000 <=? DateTime.getFullYear tz (timestamp * 1000).

End Utils.

End Parser.

(* ===================================================================== *)
(** * Analytics (worker/query/advanced) *)
(* ===================================================================== *)

Module Analysis.

(** ** Repeat chains *)

(** A row of the query of [getRepeatAnalysis]; the store returns the text
    rows of the session ordered by time stamp and id. *)
Record RepeatRow : Type := mkRepeatRow {
  rowSender : Z;
  rowContent : string;
  rowTs : Z;
  rowPlatformId : string;
  rowName : string
}.

Record ChainEntry : Type := mkEntry {
  entrySender : Z;
  entryContent : string;
  entryTs : Z
}.

Record ContentStat : Type := mkContentStat {
  statCount : nat;
  maxChainLength : nat;
  statOriginator : Z;
  lastTs : Z
}.

Record RepeatState : Type := mkRepeatState {
  originatorCount : JsMap Z nat;
  initiatorCount : JsMap Z nat;
  breakerCount : JsMap Z nat;
  memberMessageCount : JsMap Z nat;
  memberInfo : JsMap Z (string * string);
  chainLengthCount : JsMap nat nat;
  contentStats : JsMap string ContentStat;
  currentContent : option string;
  repeatChain : list ChainEntry;
  totalRepeatChains : nat;
  totalChainLength : nat
}.

Definition initialRepeatState : RepeatState :=
  mkRepeatState [] [] [] [] [] [] [] None [] 0 0.

(** [m.set(k, (m.get(k) || 0) + 1)]. *)
Definition increment {K} (keq : K -> K -> bool) (k : K) (m : JsMap K nat)
    : JsMap K nat :=
  map_set keq k (S (match map_get keq k m with Some n => n | None => O end)) m.

(** [processRepeatChain(chain, breakerId)]. *)
Definition processRepeatChain (chain : list ChainEntry) (breakerId : option Z)
    (st : RepeatState) : RepeatState :=
  match chain with
  | first :: second :: _ :: _ =>
      let chainLength := List.length chain in
      let originatorId := entrySender first in
      let initiatorId := entrySender second in
      let content := entryContent first in
      let chainTs := entryTs first in
      let stats :=
        match map_get String.eqb content (contentStats st) with
        | Some existing =>
            mkContentStat (S (statCount existing))
              (if (maxChainLength existing <? chainLength)%nat
               then chainLength else maxChainLength existing)
              (if (maxChainLength existing <? chainLength)%nat
               then originatorId else statOriginator existing)
              (Z.max (lastTs existing) chainTs)
        | None => mkContentStat 1 chainLength originatorId chainTs
        end in
      {| originatorCount := increment Z.eqb originatorId (originatorCount st);
         initiatorCount := increment Z.eqb initiatorId (initiatorCount st);
         breakerCount :=
           match breakerId with
           | Some b => increment Z.eqb b (breakerCount st)
           | None => breakerCount st
           end;
         memberMessageCount := memberMessageCount st;
         memberInfo := memberInfo st;
         chainLengthCount := increment Nat.eqb chainLength (chainLengthCount st);
         contentStats := map_set String.eqb content stats (contentStats st);
         currentContent := currentContent st;
         repeatChain := repeatChain st;
         totalRepeatChains := S (totalRepeatChains st);
         totalChainLength := (totalChainLength st + chainLength)%nat |}
  | _ => st (* chain.length < 3 *)
  end.

Definition withChain (st : RepeatState) (cur : option string)
    (chain : list ChainEntry) : RepeatState :=
  {| originatorCount := originatorCount st;
     initiatorCount := initiatorCount st;
     breakerCount := breakerCount st;
     memberMessageCount := memberMessageCount st;
     memberInfo := memberInfo st;
     chainLengthCount := chainLengthCount st;
     contentStats := contentStats st;
     currentContent := cur;
     repeatChain := chain;
     totalRepeatChains := totalRepeatChains st;
     totalChainLength := totalChainLength st |}.

Definition noteMember (st : RepeatState) (r : RepeatRow) : RepeatState :=
  {| originatorCount := originatorCount st;
     initiatorCount := initiatorCount st;
     breakerCount := breakerCount st;
     memberMessageCount := increment Z.eqb (rowSender r) (memberMessageCount st);
     memberInfo :=
       if map_has Z.eqb (rowSender r) (memberInfo st) then memberInfo st
       else map_set Z.eqb (rowSender r) (rowPlatformId r, rowName r) (memberInfo st);
     chainLengthCount := chainLengthCount st;
     contentStats := contentStats st;
     currentContent := currentContent st;
     repeatChain := repeatChain st;
     totalRepeatChains := totalRepeatChains st;
     totalChainLength := totalChainLength st |}.

Definition sameContent (content : string) (cur : option string) : bool :=
  match cur with Some c => (content =? c)%string | None => false end.

Definition lastSender (chain : list ChainEntry) : option Z :=
  option_map entrySender (last (List.map Some chain) None).

(** Body of the scan loop of [getRepeatAnalysis]; [trim] is
    [String.prototype.trim]. *)
Definition repeatStep (trim : string -> string) (st0 : RepeatState)
    (r : RepeatRow) : RepeatState :=
  let st := noteMember st0 r in
  let content := trim (rowContent r) in
  let entry := mkEntry (rowSender r) content (rowTs r) in
  if sameContent content (currentContent st)
  then
    match lastSender (repeatChain st) with
    | Some s =>
        if s =? rowSender r then st
        else withChain st (currentContent st) (repeatChain st ++ [entry])%list
    | None => withChain st (currentContent st) (repeatChain st ++ [entry])%list
    end
  else
    let st' := processRepeatChain (repeatChain st) (Some (rowSender r)) st in
    withChain st' (Some content) [entry].

Definition scanRepeats (trim : string -> string) (rows : list RepeatRow)
    : RepeatState :=
  fold_left (repeatStep trim) rows initialRepeatState.

(** Stable sort of the language, descending on a natural key. *)
Fixpoint insertDesc {A} (key : A -> nat) (x : A) (l : list A) : list A :=
  match l with
  | [] => [x]
  | y :: rest =>
      if (key y <=? key x)%nat then x :: l else y :: insertDesc key x rest
  end.

Definition sortDesc {A} (key : A -> nat) (l : list A) : list A :=
  fold_right (insertDesc key) [] l.

Fixpoint insertAsc {A} (key : A -> nat) (x : A) (l : list A) : list A :=
  match l with
  | [] => [x]
  | y :: rest =>
      if (key x <=? key y)%nat then x :: l else y :: insertAsc key x rest
  end.

Definition sortAsc {A} (key : A -> nat) (l : list A) : list A :=
  fold_right (insertAsc key) [] l.

(** An entry of a rank list ([percentage], a rounded floating-point
    quotient, is left out). *)
Record RankItem : Type := mkRankItem {
  rankMember : Z;
  rankPlatformId : string;
  rankName : string;
  rankCount : nat
}.

Definition buildRankList (info : JsMap Z (string * string))
    (countMap : JsMap Z nat) : list RankItem :=
  sortDesc rankCount
    (flat_map
       (fun kv =>
          match map_get Z.eqb (fst kv) info with
          | Some (pid, nm) => [mkRankItem (fst kv) pid nm (snd kv)]
          | None => []
          end)
       countMap).

Record HotContent : Type := mkHot {
  hotContent : string;
  hotCount : nat;
  hotMaxChainLength : nat;
  hotOriginatorName : string;
  hotLastTs : Z
}.

(** The result of [getRepeatAnalysis] (the rate lists and the average
    chain length are rounded floating-point quotients and are left out). *)
Record RepeatAnalysis : Type := mkRepeatAnalysis {
  originators : list RankItem;
  initiators : list RankItem;
  breakers : list RankItem;
  chainLengthDistribution : list (nat * nat);
  hotContents : list HotContent;
  resultTotalRepeatChains : nat
}.

Definition emptyRepeatAnalysis : RepeatAnalysis :=
  mkRepeatAnalysis [] [] [] [] [] 0.

Definition finishRepeats (st : RepeatState) : RepeatAnalysis :=
  {| originators := buildRankList (memberInfo st) (originatorCount st);
     initiators := buildRankList (memberInfo st) (initiatorCount st);
     breakers := buildRankList (memberInfo st) (breakerCount st);
     chainLengthDistribution := sortAsc fst (chainLengthCount st);
     hotContents :=
       firstn 10
         (sortDesc hotMaxChainLength
            (List.map
               (fun kv =>
                  mkHot (fst kv) (statCount (snd kv)) (maxChainLength (snd kv))
                    (match map_get Z.eqb (statOriginator (snd kv)) (memberInfo st) with
                     | Some (_, nm) => if (nm =? "")%string then "未知" else nm
                     | None => "未知"
                     end)
                    (lastTs (snd kv)))
               (contentStats st)));
     resultTotalRepeatChains := totalRepeatChains st |}.

(** [getRepeatAnalysis]: [rows] is [None] when the session cannot be
    opened, otherwise the rows of the query; [trim] is
    [String.prototype.trim]. *)
Definition getRepeatAnalysis (trim : string -> string)
    (rows : option (list RepeatRow)) : RepeatAnalysis :=
  match rows with
  | None => emptyRepeatAnalysis
  | Some messages =>
      let st := scanRepeats trim messages in
      finishRepeats (processRepeatChain (repeatChain st) None st)
  end.

(** ** Night owls: the shifted day *)

(** [getAdjustedDate(ts)]; [tz] is the offset of the local time zone of
    the machine, in milliseconds. *)
Definition getAdjustedDate (tz : Z) (ts : Z) : string :=
  let date := ts * 1000 in
  let hour := DateTime.getHours tz date in
  let date' := if hour <? 5 then DateTime.addDays (-1) date else date in
  DateTime.isoDate date'.

(** ** Monologues *)

Record MonoRow : Type := mkMonoRow {
  monoSender : Z;
  monoTs : Z;
  monoPlatformId : string;
  monoName : string
}.

Record MemberStats : Type := mkStats {
  totalStreaks : nat;
  maxCombo : nat;
  lowStreak : nat;
  midStreak : nat;
  highStreak : nat
}.

Record Streak : Type := mkStreak {
  streakSender : Z;
  streakCount : nat;
  startTs : Z;
  streakLastTs : Z
}.

Record MaxCombo : Type := mkMaxCombo {
  comboMember : Z;
  comboLength : nat;
  comboStartTs : Z
}.

Record MonoState : Type := mkMonoState {
  monoInfo : JsMap Z (string * string);
  memberStats : JsMap Z MemberStats;
  globalMaxCombo : option MaxCombo;
  currentStreak : Streak
}.

Definition MAX_INTERVAL : Z := 300.

Definition initialMonoState : MonoState :=
  mkMonoState [] [] None (mkStreak (-1) 0 0 0).

(** [finishStreak()]. *)
Definition finishStreak (st : MonoState) : MonoState :=
  let cur := currentStreak st in
  if (3 <=? streakCount cur)%nat
  then
    let memberId := streakSender cur in
    let stats :=
      match map_get Z.eqb memberId (memberStats st) with
      | Some s => s
      | None => mkStats 0 0 0 0 0
      end in
    let stats' :=
      mkStats (S (totalStreaks stats))
        (Nat.max (maxCombo stats) (streakCount cur))
        (if (10 <=? streakCount cur)%nat then lowStreak stats
         else if (5 <=? streakCount cur)%nat then lowStreak stats
         else S (lowStreak stats))
        (if (10 <=? streakCount cur)%nat then midStreak stats
         else if (5 <=? streakCount cur)%nat then S (midStreak stats)
         else midStreak stats)
        (if (10 <=? streakCount cur)%nat then S (highStreak stats)
         else highStreak stats) in
    let best :=
      match globalMaxCombo st with
      | Some g =>
          if (comboLength g <? streakCount cur)%nat
          then Some (mkMaxCombo memberId (streakCount cur) (startTs cur))
          else Some g
      | None => Some (mkMaxCombo memberId (streakCount cur) (startTs cur))
      end in
    mkMonoState (monoInfo st) (map_set Z.eqb memberId stats' (memberStats st))
      best cur
  else st.

(** Body of the scan loop of [getMonologueAnalysis]. *)
Definition monoStep (st : MonoState) (r : MonoRow) : MonoState :=
  let info :=
    if map_has Z.eqb (monoSender r) (monoInfo st) then monoInfo st
    else map_set Z.eqb (monoSender r) (monoPlatformId r, monoName r) (monoInfo st) in
  let st1 := mkMonoState info (memberStats st) (globalMaxCombo st) (currentStreak st) in
  let cur := currentStreak st1 in
  let isSameSender := monoSender r =? streakSender cur in
  let isWithinInterval := monoTs r - streakLastTs cur <=? MAX_INTERVAL in
  if isSameSender && isWithinInterval
  then mkMonoState info (memberStats st1) (globalMaxCombo st1)
         (mkStreak (streakSender cur) (S (streakCount cur)) (startTs cur) (monoTs r))
  else
    let st2 := finishStreak st1 in
    mkMonoState (monoInfo st2) (memberStats st2) (globalMaxCombo st2)
      (mkStreak (monoSender r) 1 (monoTs r) (monoTs r)).

Definition scanMonologues (rows : list MonoRow) : MonoState :=
  fold_left monoStep rows initialMonoState.

Record MonoRank : Type := mkMonoRank {
  monoMember : Z;
  monoRankPlatformId : string;
  monoRankName : string;
  monoStats : MemberStats
}.

Record MonoRecord : Type := mkMonoRecord {
  recordMember : Z;
  recordPlatformId : string;
  recordName : string;
  recordLength : nat;
  recordStartTs : Z
}.

Record MonologueAnalysis : Type := mkMonologue {
  rank : list MonoRank;
  maxComboRecord : option MonoRecord
}.

Definition infoOf (info : JsMap Z (string * string)) (memberId : Z)
    : string * string :=
  match map_get Z.eqb memberId info with
  | Some i => i
  | None => ("", "") (* every counted member has sent a row *)
  end.

(** [getMonologueAnalysis]: [rows] is [None] when the session cannot be
    opened. *)
Definition getMonologueAnalysis (rows : option (list MonoRow)) : MonologueAnalysis :=
  match rows with
  | None | Some [] => mkMonologue [] None
  | Some messages =>
      let st := finishStreak (scanMonologues messages) in
      {| rank :=
           sortDesc (fun e => totalStreaks (monoStats e))
             (List.map
                (fun kv =>
                   mkMonoRank (fst kv) (fst (infoOf (monoInfo st) (fst kv)))
                     (snd (infoOf (monoInfo st) (fst kv))) (snd kv))
                (memberStats st));
         maxComboRecord :=
           option_map
             (fun g =>
                mkMonoRecord (comboMember g)
                  (fst (infoOf (monoInfo st) (comboMember g)))
                  (snd (infoOf (monoInfo st) (comboMember g)))
                  (comboLength g) (comboStartTs g))
             (globalMaxCombo st) |}
  end.

End Analysis.

(* ===================================================================== *)
(** * Sample inputs *)
(* ===================================================================== *)

Module Samples.
Import Merger Parser Analysis.

Definition alpha : FormatFeature := mkFeature "alpha" "Alpha" "qq" 10.
Definition beta : FormatFeature := mkFeature "beta" "Beta" "qq" 20.

Definition text (who nm : string) (ts : Z) (c : string) : ParsedMessage :=
  mkMessage who nm ts TEXT (Some c).

(** Two exports of one conversation. The first one holds two different
    messages of the same sender, second and length. *)
Definition exportA : ParseResult :=
  {| meta := mkMeta "group" "qq" GROUP;
     members := [mkMember "1001" "alice"; mkMember "1002" "bob"];
     messages := [ text "1001" "alice" 1700000100 "ab";
                   text "1002" "bob" 1700000050 "yo";
                   text "1001" "alice" 1700000100 "cd" ] |}.

Definition exportB : ParseResult :=
  {| meta := mkMeta "group" "qq" GROUP;
     members := [mkMember "1001" "ally"; mkMember "1003" "carol"];
     messages := [ text "1001" "ally" 1700000100 "ab";
                   text "1003" "carol" 1700000070 "hey" ] |}.

(** A machine on which "a.json" and "b.json" are Alpha exports, "c.json"
    is a Beta export, "gone.json" cannot be opened and nothing else is
    recognised. *)
Definition sampleEnv : Env :=
  {| detectFormat := fun p =>
       if (p =? "a.json")%string || (p =? "b.json")%string then Normal (Some alpha)
       else if (p =? "c.json")%string then Normal (Some beta)
       else if (p =? "gone.json")%string
       then Throw (JsError "ENOENT: no such file or directory, open 'gone.json'")
       else Normal None;
     parseFileSync := fun p =>
       if (p =? "a.json")%string then Normal exportA
       else if (p =? "b.json")%string then Normal exportB
       else Throw (JsError "parse error");
     importData := fun _ => Normal "session_1";
     basename := fun p => p;
     pathJoin := join "/";
     documentsPath := Normal "/home/user/Documents";
     cwd := "/tmp";
     existsSync := fun _ => true;
     mkdirSync := fun _ => Normal tt;
     writeFileSync := fun _ _ => Normal tt;
     isoNow := "2025-01-02T03:04:05.000Z";
     nowMs := 1735787045000 |}.

Definition sampleParams : MergeParams :=
  {| filePaths := ["a.json"; "b.json"];
     outputName := "group";
     outputDir := Some "/out";
     conflictResolutions := [mkResolution "conflict_1700000100_1001_0" keepBoth];
     andAnalyze := true |}.

Definition samplePath : string := "/out/group_merged_20250102.chatlab.json".

(** The archive that [mergeFiles] writes for [sampleParams]. *)
Definition sampleArchive : ChatLabFormat :=
  {| chatlab := mkHeader "1.0.0" 1735787045 "ChatLab Merge Tool";
     clMeta := mkChatLabMeta "group" "qq" GROUP
                 [mkSource "a.json" "qq" 3; mkSource "b.json" "qq" 2];
     clMembers := [ mkChatLabMember "1001" "alice" (Some ["ally"]);
                    mkChatLabMember "1002" "bob" None;
                    mkChatLabMember "1003" "carol" None ];
     clMessages := [ mkChatLabMessage "1002" "bob" 1700000050 TEXT (Some "yo");
                     mkChatLabMessage "1003" "carol" 1700000070 TEXT (Some "hey");
                     mkChatLabMessage "1001" "alice" 1700000100 TEXT (Some "ab") ] |}.

(** The calls [mergeFiles] makes for [sampleParams]. *)
Definition sampleTrace : Trace :=
  [ CallParse "a.json"; CallParse "b.json";
    CallWrite samplePath sampleArchive;
    CallImport (toParseResult sampleArchive) ].

(** A legacy export: a valid record, a record of 1999 from a sender seen
    nowhere else, a record without sender, and an older valid record. *)
Definition legacyRecord (uin : option string) (nm : string) (ms : Z) (txt : string)
    : LegacyMessage :=
  mkRaw ms (mkSender None uin nm) (Some "type_1") false false
    (mkContent txt None None).

Definition record2023 : LegacyMessage :=
  legacyRecord (Some "1001") "alice" 1700000000000 "late".
Definition record1999 : LegacyMessage :=
  legacyRecord (Some "1002") "bob" 930000000000 "old".
Definition recordNoSender : LegacyMessage :=
  legacyRecord None "ghost" 1700000001000 "who".
Definition record2020 : LegacyMessage :=
  legacyRecord (Some "1001") "alice" 1600000000000 "early".

Definition legacyFile : SourceFile LegacyMessage :=
  {| fileSize := 4096;
     chatInfo := Some ("group", "group");
     records := [record2023; record1999; recordNoSender; record2020];
     pipelineError := None |}.

Definition repeatRow (who : Z) (c : string) (ts : Z) : RepeatRow :=
  mkRepeatRow who c ts "p" "n".

(** The no-break space, code unit 160. *)
Definition noBreakSpace : string := String (ascii_of_nat 160) EmptyString.

Definition monoRow (who ts : Z) : MonoRow := mkMonoRow who ts "p" "n".

End Samples.

(* ===================================================================== *)
(** * File preview (electron/main/merger, [parseFileInfo]) *)
(* ===================================================================== *)

Module Preview.
Import Merger.

Record FileParseInfo : Type := mkFileParseInfo {
  infoName : string;
  infoFormat : string;
  infoPlatform : ChatPlatform;
  infoMessageCount : nat;
  infoMemberCount : nat
}.

Definition unrecognized : string := "无法识别文件格式".

(** [parseFileInfo]. *)
Definition parseFileInfo (env : Env) (filePath : string) : Eff FileParseInfo :=
  emit (CallDetect filePath) ;;;
  format <- lift (detectFormat env filePath) ;;
  match format with
  | None => throw (JsError unrecognized)
  | Some f =>
      emit (CallParse filePath) ;;;
      result <- lift (parseFileSync env filePath) ;;
      ret {| infoName := metaName (meta result);
             infoFormat := featureName f;
             infoPlatform := metaPlatform (meta result);
             infoMessageCount := List.length (messages result);
             infoMemberCount := List.length (members result) |}
  end.

End Preview.

(* ===================================================================== *)
(** * The format sniffer (electron/main/parser/sniffer) *)
(* ===================================================================== *)

Module Sniffer.

(** A regular expression is used through [test] only. *)
Definition RegExp : Type := string -> bool.

Record Signatures : Type := mkSignatures {
  sigHead : option (list RegExp);
  sigRequiredFields : option (list string);
  sigFieldPatterns : option (list (string * RegExp))
}.

(** A [FormatFeature] as the format modules declare it: the descriptor
    (id, name, platform, priority), the extensions and the signatures. *)
Record SniffFeature : Type := mkSniffFeature {
  descriptor : FormatFeature;
  extensions : list string;
  signatures : Signatures
}.

Definition dquote : string := String (ascii_of_nat 34) EmptyString.

(** [s.replace(pattern, by_)] for a string pattern: the first occurrence
    only. *)
Fixpoint replaceFirst (pattern by_ s : string) : string :=
  if String.prefix pattern s
  then by_ ++ String.substring (String.length pattern)
                (String.length s - String.length pattern) s
  else match s with
       | EmptyString => EmptyString
       | String c rest => String c (replaceFirst pattern by_ rest)
       end.

(** The pattern text built for one required field. *)
Definition fieldPatternSource (field : string) : string :=
  dquote ++ replaceFirst "." (dquote ++ "\s*:\s*.*" ++ dquote) field
    ++ dquote ++ "\s*:".

Section WithParsers.
(** The parser object of a format module, and [new RegExp(source)]. *)
Variable Parser : Type.
Variable newRegExp : string -> RegExp.

Record FormatModule : Type := mkFormatModule {
  feature : SniffFeature;
  parser : Parser
}.

Definition modulePriority (m : FormatModule) : Z :=
  priority (descriptor (feature m)).

Definition matchHeadSignatures (headContent : string) (patterns : list RegExp)
    : bool :=
  existsb (fun pattern => pattern headContent) patterns.

Definition matchRequiredFields (headContent : string) (fields : list string)
    : bool :=
  forallb
    (fun field =>
       newRegExp (fieldPatternSource field) headContent
       || includes (dquote ++ field ++ dquote) headContent)
    fields.

(** [matchFeature]. *)
Definition matchFeature (f : SniffFeature) (ext headContent : string) : bool :=
  if negb (existsb (String.eqb ext) (extensions f)) then false
  else
    let headOk :=
      match sigHead (signatures f) with
      | Some (p :: ps) => matchHeadSignatures headContent (p :: ps)
      | _ => true
      end in
    if negb headOk then false
    else
      let fieldsOk :=
        match sigRequiredFields (signatures f) with
        | Some (x :: xs) => matchRequiredFields headContent (x :: xs)
        | _ => true
        end in
      if negb fieldsOk then false
      else
        match sigFieldPatterns (signatures f) with
        | Some entries => forallb (fun e => snd e headContent) entries
        | None => true
        end.

(** [formats.sort((a, b) => a.feature.priority - b.feature.priority)]:
    the sort of the language is stable. *)
Fixpoint insertByPriority (m : FormatModule) (l : list FormatModule)
    : list FormatModule :=
  match l with
  | [] => [m]
  | y :: rest =>
      if modulePriority m <=? modulePriority y then m :: l
      else y :: insertByPriority m rest
  end.

Definition sortByPriority (l : list FormatModule) : list FormatModule :=
  fold_right insertByPriority [] l.

(** [register]: the new list of formats. *)
Definition register (formats : list FormatModule) (m : FormatModule)
    : list FormatModule :=
  sortByPriority (formats ++ [m])%list.

Definition registerAll (formats : list FormatModule) (modules : list FormatModule)
    : list FormatModule :=
  fold_left register modules formats.

(** The loops of [sniff] and [getParser], once extension and head are
    known. *)
Definition firstMatch (formats : list FormatModule) (ext headContent : string)
    : option FormatModule :=
  find (fun m => matchFeature (feature m) ext headContent) formats.

(** What [sniff] and [getParser] read: [getExtension] (the lower-cased
    [path.extname]) and [readFileHead], which throws when the file cannot
    be opened. *)
Variable getExtension : string -> string.
Variable readFileHead : string -> outcome string.

Definition sniff (formats : list FormatModule) (filePath : string)
    : outcome (option SniffFeature) :=
  let ext := getExtension filePath in
  match readFileHead filePath with
  | Throw e => Throw e
  | Normal headContent =>
      Normal (option_map feature (firstMatch formats ext headContent))
  end.

Definition getParser (formats : list FormatModule) (filePath : string)
    : outcome (option Parser) :=
  let ext := getExtension filePath in
  match readFileHead filePath with
  | Throw e => Throw e
  | Normal headContent =>
      Normal (option_map parser (firstMatch formats ext headContent))
  end.

Definition getParserById (formats : list FormatModule) (formatId : string)
    : option Parser :=
  option_map parser
    (find (fun m => (featureId (descriptor (feature m)) =? formatId)%string)
       formats).

Definition getSupportedFormats (formats : list FormatModule)
    : list SniffFeature :=
  List.map feature formats.

End WithParsers.

End Sniffer.

(* ===================================================================== *)
(** * The whole-file QQ JSON parser (parser/formats, [qqJsonParser]) *)
(* ===================================================================== *)

Module QQJson.
Import Parser.

(** The export is read with [JSON.parse] and used without any check of
    its shape beyond [chatInfo] and [messages]. A property that is present
    is taken to have the type that [QQJsonExport] and [QQJsonMessage]
    declare for it; what a document may lack is represented: an object
    that the code dereferences can be absent ([undefined]) or [null], and
    reading a property of it throws a [TypeError]. *)
Inductive Absent : Type :=
| IsUndefined
| IsNull.

Inductive Field (A : Type) : Type :=
| Present (a : A)
| Lacking (how : Absent).
Arguments Present {A} a.
Arguments Lacking {A} how.

(** The [TypeError] of reading the property [prop] of [undefined] or
    [null], with the message of the engine of Electron. *)
Definition cannotRead (how : Absent) (prop : string) : thrown :=
  JsError ("Cannot read properties of "
           ++ match how with IsUndefined => "undefined" | IsNull => "null" end
           ++ " (reading '" ++ prop ++ "')").

(** [sender] of a record: [uin] and [name]. *)
Record QQSender : Type := mkQQSender {
  qqUin : string;
  qqName : string
}.

(** [QQJsonMessage]: time stamp in milliseconds, the sender, the type
    code, the content and the two flags. *)
Record QQJsonMessage : Type := mkQQJsonMessage {
  qqTimestamp : Z;
  qqSender : Field QQSender;
  qqType : string;
  qqContent : Field RawContent;
  qqRecalled : bool;
  qqSystem : bool
}.

(** [QQJsonExport] as [parse] reads it: [chatInfo] (name and type) when
    it is present and not falsy, [messages] when it is an array. An
    element of the array is a record or [null] ([None]); an element that
    is a number, a string or a boolean has no property and behaves as a
    record without sender. *)
Record QQJsonExport : Type := mkQQJsonExport {
  qqChatInfo : option (string * string);
  qqMessages : option (list (option QQJsonMessage))
}.

(** What [JSON.parse(content)] does: it throws (the text is the thrown
    value as the template literal renders it), or it returns [null], a
    value without properties of its own (a number, a string, a boolean,
    an array), or an object. *)
Inductive JsonInput : Type :=
| BadJson (rendered : string)
| JsonNull
| JsonOther
| Json (data : QQJsonExport).

(** [convertMessageType] of this parser: the same chain as the streaming
    legacy parser, over a type code that is always present. *)
Definition convertMessageType (qqType : string) (c : RawContent) : MessageType :=
  Parser.convertMessageType legacyTypeOfCode (Some qqType) c.

(** [new Date(ms).getFullYear() < 2000]: a time value beyond 8.64e15
    milliseconds gives an invalid date, whose year is [NaN], and the
    comparison is false. [tz] is the offset of local time, in
    milliseconds. *)
Definition beforeYear2000 (tz : Z) (ms : Z) : bool :=
  if Z.abs ms <=? 8640000000000000
  then DateTime.getFullYear tz ms <? 2000
  else false.

(** The message pushed for a record that is kept. *)
Definition messageOf (m : QQJsonMessage) (sender : QQSender) (c : RawContent)
    : ParsedMessage :=
  let platformId := qqUin sender in
  let timestamp := qqTimestamp m / 1000 in
  let type := if qqSystem m then SYSTEM else convertMessageType (qqType m) c in
  let textContent :=
    if qqRecalled m then recalledMarker ++ text c else text c in
  {| senderPlatformId := platformId;
     senderName := orElseName (qqName sender) platformId;
     timestamp := timestamp;
     msgType := type;
     content := if (textContent =? "")%string then None else Some textContent |}.

(** The loop body of [parse]: the member map and the message list after
    one element of [messages], or the [TypeError] it throws.
    [msg.sender.uin] is read first; the content is read only for a record
    that is not skipped, by [convertMessageType] ([content.resources])
    unless the record is a system message, and by [msg.content.text]. *)
Definition step (tz : Z)
    (st : JsMap string ParsedMember * list ParsedMessage)
    (element : option QQJsonMessage)
    : outcome (JsMap string ParsedMember * list ParsedMessage) :=
  let '(memberMap, messages) := st in
  match element with
  | None => Throw (cannotRead IsNull "sender")
  | Some m =>
      match qqSender m with
      | Lacking how => Throw (cannotRead how "uin")
      | Present sender =>
          let platformId := qqUin sender in
          let memberMap' :=
            map_set String.eqb platformId
              (mkMember platformId (orElseName (qqName sender) platformId))
              memberMap in
          if beforeYear2000 tz (qqTimestamp m) then Normal (memberMap', messages)
          else
            match qqContent m with
            | Lacking how =>
                Throw (cannotRead how (if qqSystem m then "text" else "resources"))
            | Present c =>
                Normal (memberMap', (messages ++ [messageOf m sender c])%list)
            end
      end
  end.

(** [for (const msg of data.messages)]: the loop ends at the first
    element whose body throws. *)
Fixpoint loop (tz : Z) (elements : list (option QQJsonMessage))
    (st : JsMap string ParsedMember * list ParsedMessage)
    : outcome (JsMap string ParsedMember * list ParsedMessage) :=
  match elements with
  | [] => Normal st
  | element :: rest =>
      match step tz st element with
      | Normal st' => loop tz rest st'
      | Throw e => Throw e
      end
  end.

Definition invalidFormat : string := "无效的 QQ JSON 格式：缺少 chatInfo 或 messages".

(** [qqJsonParser.parse]. *)
Definition parse (tz : Z) (input : JsonInput) : outcome ParseResult :=
  match input with
  | BadJson rendered => Throw (JsError ("JSON 解析失败: " ++ rendered))
  | JsonNull => Throw (cannotRead IsNull "chatInfo")
  | JsonOther => Throw (JsError invalidFormat)
  | Json data =>
      match qqChatInfo data, qqMessages data with
      | Some (name, type), Some msgs =>
          match loop tz msgs ([], []) with
          | Normal (memberMap, messages) =>
              Normal {| meta := mkMeta name "qq"
                                  (if (type =? "group")%string then GROUP
                                   else PRIVATE);
                        members := map_values memberMap;
                        messages := messages |}
          | Throw e => Throw e
          end
      | _, _ => Throw (JsError invalidFormat)
      end
  end.

End QQJson.

(* ===================================================================== *)
(** * The QQ text export (parser/formats, [qqTxtParser]): message types *)
(* ===================================================================== *)

Module QQTxt.

(** Strings hold the UTF-8 bytes of the text. The line terminators that
    [.] of a regular expression does not match: LF, CR, U+2028 and U+2029
    (bytes E2 80 A8 and E2 80 A9). *)
Fixpoint hasLineTerminator (s : string) : bool :=
  match s with
  | EmptyString => false
  | String c rest =>
      let n := nat_of_ascii c in
      if (n =? 10)%nat || (n =? 13)%nat then true
      else if String.prefix (String (ascii_of_nat 226) (String (ascii_of_nat 128)
                               (String (ascii_of_nat 168) EmptyString))) s
      then true
      else if String.prefix (String (ascii_of_nat 226) (String (ascii_of_nat 128)
                               (String (ascii_of_nat 169) EmptyString))) s
      then true
      else hasLineTerminator rest
  end.

Definition endsWith (suffix s : string) : bool :=
  (String.length suffix <=? String.length s)%nat
  && (String.substring (String.length s - String.length suffix)
        (String.length suffix) s =? suffix)%string.

(** [/^<open>.+<close>$/.test(s)]. *)
Definition bracketed (open close s : string) : bool :=
  String.prefix open s && endsWith close s
  && (String.length open + String.length close <? String.length s)%nat
  && negb (hasLineTerminator
             (String.substring (String.length open)
                (String.length s - String.length open - String.length close) s)).

(** [String.prototype.trim] on the UTF-8 bytes of a text. The white
    space and the line terminators of the language are TAB, LF, VT, FF,
    CR and SPACE (one byte each), U+00A0 (bytes C2 A0), U+1680 (E1 9A 80),
    U+2000 to U+200A (E2 80 80 to E2 80 8A), U+2028, U+2029 and U+202F
    (E2 80 A8, E2 80 A9, E2 80 AF), U+205F (E2 81 9F), U+3000 (E3 80 80)
    and U+FEFF (EF BB BF). *)
Definition space1 (a : ascii) : bool :=
  let a := nat_of_ascii a in
  (((9 <=? a) && (a <=? 13)) || (a =? 32))%nat.

Definition space2 (a b : ascii) : bool :=
  let a := nat_of_ascii a in
  let b := nat_of_ascii b in
  ((a =? 194) && (b =? 160))%nat.

Definition space3 (a b c : ascii) : bool :=
  let a := nat_of_ascii a in
  let b := nat_of_ascii b in
  let c := nat_of_ascii c in
  (((a =? 225) && (b =? 154) && (c =? 128))
   || ((a =? 226) && (b =? 128)
       && (((128 <=? c) && (c <=? 138)) || (c =? 168) || (c =? 169) || (c =? 175)))
   || ((a =? 226) && (b =? 129) && (c =? 159))
   || ((a =? 227) && (b =? 128) && (c =? 128))
   || ((a =? 239) && (b =? 187) && (c =? 191)))%nat.

(** The bytes without the white space they start with; [backwards] when
    the bytes are those of the text from its end. *)
Fixpoint dropSpaces (backwards : bool) (l : list ascii) : list ascii :=
  match l with
  | [] => l
  | a :: rest1 =>
      if space1 a then dropSpaces backwards rest1
      else
        match rest1 with
        | [] => l
        | b :: rest2 =>
            if (if backwards then space2 b a else space2 a b)
            then dropSpaces backwards rest2
            else
              match rest2 with
              | [] => l
              | c :: rest3 =>
                  if (if backwards then space3 c b a else space3 a b c)
                  then dropSpaces backwards rest3
                  else l
              end
        end
  end.

Definition trimUtf8 (s : string) : string :=
  string_of_list_ascii
    (List.rev
       (dropSpaces true (List.rev (dropSpaces false (list_ascii_of_string s))))).

(** [detectMessageType]; [trim] is [String.prototype.trim]. *)
Definition detectMessageType (trim : string -> string) (content : string)
    : MessageType :=
  let trimmed := trim content in
  if (trimmed =? "[图片]")%string || String.prefix "[图片]" trimmed then IMAGE
  else if bracketed "[" "]" trimmed || bracketed "[[" "]]" trimmed then EMOJI
  else if (trimmed =? "[语音]")%string || String.prefix "[语音]" trimmed then VOICE
  else if (trimmed =? "[视频]")%string || String.prefix "[视频]" trimmed then VIDEO
  else if (trimmed =? "[文件]")%string || String.prefix "[文件]" trimmed then FILE
  else if includes "加入了群聊" trimmed
          || includes "退出了群聊" trimmed
          || includes "撤回了一条消息" trimmed
          || includes "被管理员" trimmed
          || includes "成为管理员" trimmed
  then SYSTEM
  else TEXT.

End QQTxt.

(* ===================================================================== *)
(** * Analytics (worker/query/advanced): catchphrases and night owls *)
(* ===================================================================== *)

Module Rankings.
Import Analysis.

(** ** Catchphrases *)

(** A row of the query of [getCatchphraseAnalysis]: one member and one
    trimmed content with its number of messages; the store orders the rows
    by member, then by count, descending. *)
Record PhraseRow : Type := mkPhraseRow {
  phraseMember : Z;
  phrasePlatformId : string;
  phraseName : string;
  phraseContent : string;
  phraseCount : nat
}.

Record PhraseEntry : Type := mkPhraseEntry {
  entryMember : Z;
  entryPlatformId : string;
  entryName : string;
  catchphrases : list (string * nat)
}.

(** Body of the loop over the rows. *)
Definition phraseStep (memberMap : JsMap Z PhraseEntry) (row : PhraseRow)
    : JsMap Z PhraseEntry :=
  let memberMap1 :=
    if map_has Z.eqb (phraseMember row) memberMap then memberMap
    else map_set Z.eqb (phraseMember row)
           (mkPhraseEntry (phraseMember row) (phrasePlatformId row)
              (phraseName row) [])
           memberMap in
  match map_get Z.eqb (phraseMember row) memberMap1 with
  | Some member =>
      if (List.length (catchphrases member) <? 5)%nat
      then map_set Z.eqb (phraseMember row)
             (mkPhraseEntry (entryMember member) (entryPlatformId member)
                (entryName member)
                (catchphrases member ++ [(phraseContent row, phraseCount row)])%list)
             memberMap1
      else memberMap1
  | None => memberMap1 (* the key has just been set *)
  end.

Definition phraseTotal (e : PhraseEntry) : nat :=
  fold_left (fun sum c => (sum + snd c)%nat) (catchphrases e) O.

(** [getCatchphraseAnalysis]: [rows] is [None] when the session cannot be
    opened; the result is the [members] list. *)
Definition getCatchphraseAnalysis (rows : option (list PhraseRow))
    : list PhraseEntry :=
  match rows with
  | None => []
  | Some rs => sortDesc phraseTotal (map_values (fold_left phraseStep rs []))
  end.

(** ** Night owls *)

(** [getNightOwlTitleByCount]. *)
Definition getNightOwlTitleByCount (count : nat) : string :=
  if (count =? 0)%nat then "养生达人"
  else if (count <=? 20)%nat then "偶尔失眠"
  else if (count <=? 50)%nat then "夜猫子"
  else if (count <=? 100)%nat then "秃头预备役"
  else if (count <=? 200)%nat then "修仙练习生"
  else if (count <=? 500)%nat then "守夜冠军"
  else "不睡觉の神".

(** A row of the query of [getNightOwlAnalysis], ordered by time stamp. *)
Record OwlRow : Type := mkOwlRow {
  owlSender : Z;
  owlTs : Z;
  owlPlatformId : string;
  owlName : string
}.

Record NightStats : Type := mkNightStats {
  total : nat;
  h23 : nat;
  h0 : nat;
  h1 : nat;
  h2 : nat;
  h3to4 : nat;
  owlTotalMessages : nat
}.

Record DayMessage : Type := mkDayMessage {
  daySender : Z;
  dayTs : Z;
  dayHour : Z;
  dayMinute : Z
}.

Record OwlState : Type := mkOwlState {
  owlInfo : JsMap Z (string * string);
  nightStats : JsMap Z NightStats;
  dailyMessages : JsMap string (list DayMessage);
  memberNightDays : JsMap Z (list string)
}.

Definition initialOwlState : OwlState := mkOwlState [] [] [] [].

(** The [if]/[else if] chain on the hour. *)
Definition countHour (hour : Z) (s : NightStats) : NightStats :=
  let s := mkNightStats (total s) (h23 s) (h0 s) (h1 s) (h2 s) (h3to4 s)
             (S (owlTotalMessages s)) in
  if hour =? 23
  then mkNightStats (S (total s)) (S (h23 s)) (h0 s) (h1 s) (h2 s) (h3to4 s)
         (owlTotalMessages s)
  else if hour =? 0
  then mkNightStats (S (total s)) (h23 s) (S (h0 s)) (h1 s) (h2 s) (h3to4 s)
         (owlTotalMessages s)
  else if hour =? 1
  then mkNightStats (S (total s)) (h23 s) (h0 s) (S (h1 s)) (h2 s) (h3to4 s)
         (owlTotalMessages s)
  else if hour =? 2
  then mkNightStats (S (total s)) (h23 s) (h0 s) (h1 s) (S (h2 s)) (h3to4 s)
         (owlTotalMessages s)
  else if (3 <=? hour) && (hour <? 5)
  then mkNightStats (S (total s)) (h23 s) (h0 s) (h1 s) (h2 s) (S (h3to4 s))
         (owlTotalMessages s)
  else s.

(** Body of the scan loop of [getNightOwlAnalysis]; [tz] is the offset of
    local time, in milliseconds. *)
Definition owlStep (tz : Z) (st : OwlState) (r : OwlRow) : OwlState :=
  let info :=
    if map_has Z.eqb (owlSender r) (owlInfo st) then owlInfo st
    else map_set Z.eqb (owlSender r) (owlPlatformId r, owlName r) (owlInfo st) in
  let date := owlTs r * 1000 in
  let hour := DateTime.getHours tz date in
  let minute := DateTime.getMinutes tz date in
  let adjustedDate := getAdjustedDate tz (owlTs r) in
  let stats :=
    match map_get Z.eqb (owlSender r) (nightStats st) with
    | Some s => s
    | None => mkNightStats 0 0 0 0 0 0 0
    end in
  let nightStats' := map_set Z.eqb (owlSender r) (countHour hour stats) (nightStats st) in
  let nightDays :=
    if (23 <=? hour) || (hour <? 5)
    then
      map_set Z.eqb (owlSender r)
        (set_add String.eqb adjustedDate
           (match map_get Z.eqb (owlSender r) (memberNightDays st) with
            | Some days => days
            | None => []
            end))
        (memberNightDays st)
    else memberNightDays st in
  let daily :=
    Merger.group_push String.eqb adjustedDate
      (mkDayMessage (owlSender r) (owlTs r) hour minute) (dailyMessages st) in
  mkOwlState info nightStats' daily nightDays.

Definition scanOwls (tz : Z) (rows : list OwlRow) : OwlState :=
  fold_left (owlStep tz) rows initialOwlState.

(** An entry of [nightOwlRank] ([percentage], a rounded floating-point
    quotient, is left out). *)
Record OwlRank : Type := mkOwlRank {
  owlMember : Z;
  owlRankPlatformId : string;
  owlRankName : string;
  totalNightMessages : nat;
  title : string;
  hourlyBreakdown : nat * nat * nat * nat * nat
}.

Definition nightOwlRank (st : OwlState) : list OwlRank :=
  sortDesc totalNightMessages
    (flat_map
       (fun kv =>
          let stats := snd kv in
          if (total stats =? 0)%nat then []
          else
            [ {| owlMember := fst kv;
                 owlRankPlatformId := fst (infoOf (owlInfo st) (fst kv));
                 owlRankName := snd (infoOf (owlInfo st) (fst kv));
                 totalNightMessages := total stats;
                 title := getNightOwlTitleByCount (total stats);
                 hourlyBreakdown :=
                   (h23 stats, h0 stats, h1 stats, h2 stats, h3to4 stats) |} ])
       (nightStats st)).

(** The part of the result of [getNightOwlAnalysis] that is computed in
    integers: the night-owl ranking and the number of shifted days (the
    speaker rankings carry formatted floating-point averages, the
    consecutive-day records read the clock). [rows] is [None] when the
    session cannot be opened. *)
Definition getNightOwlAnalysis (tz : Z) (rows : option (list OwlRow))
    : list OwlRank * nat :=
  match rows with
  | None | Some [] => ([], O)
  | Some messages =>
      let st := scanOwls tz messages in
      (nightOwlRank st, map_size (dailyMessages st))
  end.

End Rankings.

(* ===================================================================== *)
(** * More sample inputs *)
(* ===================================================================== *)

Module MoreSamples.
Import Merger Samples.

(** A third export of the conversation of [exportA]: alice's message of
    second 1700000100 reads "abc" here. *)
Definition exportD : ParseResult :=
  {| meta := mkMeta "group" "qq" GROUP;
     members := [mkMember "1001" "alice"; mkMember "1003" "carol"];
     messages := [ text "1001" "alice" 1700000100 "abc";
                   text "1003" "carol" 1700000070 "hey" ] |}.

(** The part of a path after its last slash. *)
Fixpoint lastComponent (s : string) : string :=
  match s with
  | EmptyString => EmptyString
  | String c rest =>
      if includes "/" rest then lastComponent rest
      else if Ascii.eqb c "/" then rest else s
  end.

(** A machine that holds the given Alpha exports and nothing else. *)
Definition envOf (files : JsMap string ParseResult) : Env :=
  {| detectFormat := fun p =>
       if map_has String.eqb p files then Normal (Some alpha) else Normal None;
     parseFileSync := fun p =>
       match map_get String.eqb p files with
       | Some r => Normal r
       | None => Throw (JsError "ENOENT: no such file or directory")
       end;
     importData := fun _ => Normal "session_1";
     basename := lastComponent;
     pathJoin := join "/";
     documentsPath := Normal "/home/user/Documents";
     cwd := "/tmp";
     existsSync := fun _ => true;
     mkdirSync := fun _ => Normal tt;
     writeFileSync := fun _ _ => Normal tt;
     isoNow := "2025-01-02T03:04:05.000Z";
     nowMs := 1735787045000 |}.

Definition conflictEnv : Env := envOf [("a.json", exportA); ("d.json", exportD)].

Definition sampleConflict : MergeConflict :=
  mkConflict "conflict_1700000100_1001_0" 1700000100 "alice" 2 3 "ab" "abc".

Definition conflictReport : ConflictCheckResult :=
  mkCheckResult [sampleConflict] 4.

(** The same two exports under one file name in two directories. *)
Definition sameNameEnv : Env :=
  envOf [("x/a.json", exportA); ("y/a.json", exportD)].

(** A legacy export in which alice changes her name. *)
Definition renamedFile : Parser.SourceFile Parser.LegacyMessage :=
  {| Parser.fileSize := 2048;
     Parser.chatInfo := Some ("group", "group");
     Parser.records :=
       [ legacyRecord (Some "1001") "alice" 1700000000000 "hi";
         legacyRecord (Some "1001") "alicia" 1700000100000 "hi again" ];
     Parser.pipelineError := None |}.

(** Two format modules in the manner of the registry: both read '.json'
    files, the head of a V4 export matches both, and the V4 module has the
    smaller priority number. The parser of a module is its name here. *)
Definition moduleV4 : Sniffer.FormatModule string :=
  {| Sniffer.feature :=
       {| Sniffer.descriptor :=
            mkFeature "shuakami-qq-exporter-v4" "shuakami/qq-chat-exporter V4" "qq" 10;
          Sniffer.extensions := [".json"];
          Sniffer.signatures :=
            {| Sniffer.sigHead := Some [includes "QQChatExporter V4"];
               Sniffer.sigRequiredFields := Some ["metadata"; "chatInfo"; "messages"];
               Sniffer.sigFieldPatterns := None |} |};
     Sniffer.parser := "parseV4" |}.

Definition moduleLegacy : Sniffer.FormatModule string :=
  {| Sniffer.feature :=
       {| Sniffer.descriptor :=
            mkFeature "shuakami-qq-exporter-legacy"
              "shuakami/qq-chat-exporter (Legacy)" "qq" 20;
          Sniffer.extensions := [".json"];
          Sniffer.signatures :=
            {| Sniffer.sigHead :=
                 Some [includes "QQChatExporter";
                       includes (Sniffer.dquote ++ "chatInfo" ++ Sniffer.dquote)];
               Sniffer.sigRequiredFields := Some ["chatInfo"; "messages"];
               Sniffer.sigFieldPatterns := None |} |};
     Sniffer.parser := "parseLegacy" |}.

(** The legacy module is registered first. *)
Definition sampleModules : list (Sniffer.FormatModule string) :=
  [moduleLegacy; moduleV4].

(** Two more modules with the priority of the V4 module: one for JSON
    files with a field that a V4 export does not have, and a second
    reader of V4 exports under another identifier. *)
Definition moduleOther : Sniffer.FormatModule string :=
  {| Sniffer.feature :=
       {| Sniffer.descriptor :=
            mkFeature "other-json-export" "Another JSON export" "qq" 10;
          Sniffer.extensions := [".json"];
          Sniffer.signatures :=
            {| Sniffer.sigHead := None;
               Sniffer.sigRequiredFields := Some ["conversations"];
               Sniffer.sigFieldPatterns := None |} |};
     Sniffer.parser := "parseOther" |}.

Definition moduleV4Fork : Sniffer.FormatModule string :=
  {| Sniffer.feature :=
       {| Sniffer.descriptor :=
            mkFeature "qq-exporter-v4-fork" "qq-chat-exporter V4 (fork)" "qq" 10;
          Sniffer.extensions := [".json"];
          Sniffer.signatures :=
            {| Sniffer.sigHead := Some [includes "QQChatExporter V4"];
               Sniffer.sigRequiredFields := Some ["metadata"; "chatInfo"; "messages"];
               Sniffer.sigFieldPatterns := None |} |};
     Sniffer.parser := "parseV4Fork" |}.

(** A registration sequence with a tie: three modules of priority 10, of
    which the second and the third match the head of a V4 export. *)
Definition tiedModules : list (Sniffer.FormatModule string) :=
  [moduleLegacy; moduleOther; moduleV4; moduleV4Fork].

(** The head of a V4 export. *)
Definition v4Head : string :=
  "{" ++ Sniffer.dquote ++ "metadata" ++ Sniffer.dquote ++ ": QQChatExporter V4, "
    ++ Sniffer.dquote ++ "chatInfo" ++ Sniffer.dquote ++ ": 1, "
    ++ Sniffer.dquote ++ "messages" ++ Sniffer.dquote ++ ": 2}".

(** An engine on which the patterns built for required fields match
    nothing, so that the plain search for the quoted field decides. *)
Definition sampleRegExp : string -> Sniffer.RegExp := fun _ _ => false.

(** The part of a path from its last dot on. *)
Fixpoint sampleExtension (s : string) : string :=
  match s with
  | EmptyString => EmptyString
  | String c rest =>
      if includes "." rest then sampleExtension rest
      else if Ascii.eqb c "." then s else EmptyString
  end.

(** A disk with a V4 export, a text file and nothing else. *)
Definition sampleHead (filePath : string) : outcome string :=
  if (filePath =? "a.json")%string then Normal v4Head
  else if (filePath =? "notes.txt")%string then Normal "hello"
  else Throw (JsError "ENOENT: no such file or directory").

(** UTF-8 bytes of the ideographic space U+3000 and of the no-break
    space U+00A0. *)
Definition ideographicSpaceUtf8 : string :=
  String (ascii_of_nat 227) (String (ascii_of_nat 128)
    (String (ascii_of_nat 128) EmptyString)).

Definition noBreakSpaceUtf8 : string :=
  String (ascii_of_nat 194) (String (ascii_of_nat 160) EmptyString).

(** A merge whose second file does not parse on [sampleEnv]. *)
Definition unreadableParams : MergeParams :=
  {| filePaths := ["a.json"; "zzz.json"];
     outputName := "group";
     outputDir := None;
     conflictResolutions := [];
     andAnalyze := true |}.

End MoreSamples.

Unset Implicit Arguments.


(* ===================================================================== *)
(** * Facts about strings and decimal numerals *)
(* ===================================================================== *)

Module StringFacts.

Lemma occurs_append c s1 s2 :
  occurs c (s1 ++ s2) <-> occurs c s1 \/ occurs c s2.
Proof.
  induction s1 as [|a s1 IH]; simpl.
  - tauto.
  - rewrite IH. tauto.
Qed.

Lemma append_nil_r (s : string) : s ++ "" = s.
Proof. induction s; simpl; congruence. Qed.

Lemma append_assoc (a b c : string) : (a ++ b) ++ c = a ++ b ++ c.
Proof. induction a; simpl; congruence. Qed.

(** Splitting at the first occurrence of a separator. *)
Lemma split_first c a1 a2 r1 r2 :
  ~ occurs c a1 -> ~ occurs c a2 ->
  a1 ++ String c r1 = a2 ++ String c r2 ->
  a1 = a2 /\ r1 = r2.
Proof.
  revert a2. induction a1 as [|x a1 IH]; intros [|y a2] H1 H2 E; simpl in *.
  - injection E as E. auto.
  - injection E as E1 E2. subst y. tauto.
  - injection E as E1 E2. subst x. tauto.
  - injection E as E1 E2. subst y.
    destruct (IH a2) as [-> ->]; auto.
Qed.

(** Splitting at the last occurrence of a separator. *)
Lemma split_last c s1 s2 e1 e2 :
  ~ occurs c e1 -> ~ occurs c e2 ->
  s1 ++ String c e1 = s2 ++ String c e2 ->
  s1 = s2 /\ e1 = e2.
Proof.
  revert s2. induction s1 as [|x s1 IH]; intros [|y s2] H1 H2 E; simpl in *.
  - injection E as E. auto.
  - injection E as E1 E2. exfalso. apply H1. rewrite E2.
    apply occurs_append. right. simpl. auto.
  - injection E as E1 E2. exfalso. apply H2. rewrite <- E2.
    apply occurs_append. right. simpl. auto.
  - injection E as E1 E2. subst y.
    destruct (IH s2) as [-> ->]; auto.
Qed.

Lemma uint_digits_no_underscore d :
  ~ occurs "_" (NilEmpty.string_of_uint d).
Proof.
  induction d; simpl; intros H; try tauto;
    destruct H as [H|H]; try discriminate; tauto.
Qed.

Lemma numToString_no_underscore n : ~ occurs "_" (numToString n).
Proof.
  unfold numToString, NilZero.string_of_int, NilZero.string_of_uint.
  destruct (Z.to_int n) as [d|d]; destruct d; simpl;
    intros H; repeat (destruct H as [H|H]; try discriminate);
    try tauto;
    try (now apply (uint_digits_no_underscore _ H)).
Qed.

Lemma numToString_inj a b : numToString a = numToString b -> a = b.
Proof.
  unfold numToString. intros E.
  apply DecimalZ.to_int_inj.
  assert (V : forall z, Z.to_int z <> Pos Nil /\ Z.to_int z <> Neg Nil).
  { intros [|p|p]; simpl; split; try discriminate;
      intros [= H]; now apply (DecimalPos.Unsigned.to_uint_nonnil p). }
  apply (f_equal NilZero.int_of_string) in E.
  rewrite !NilZero.isi in E by apply V.
  congruence.
Qed.

Lemma natToString_inj a b : natToString a = natToString b -> a = b.
Proof.
  unfold natToString. intros E. apply numToString_inj in E. lia.
Qed.

(** [includes] finds every real occurrence. *)
Lemma prefix_append (n rest : string) : String.prefix n (n ++ rest) = true.
Proof.
  induction n as [|a n IH]; simpl.
  - now destruct rest.
  - destruct (ascii_dec a a); [assumption | congruence].
Qed.

Lemma includes_of_prefix (needle hay : string) :
  String.prefix needle hay = true -> includes needle hay = true.
Proof. intros H. destruct hay; cbn [includes]; now rewrite H. Qed.

Lemma includes_append (needle before after : string) :
  includes needle (before ++ needle ++ after) = true.
Proof.
  induction before as [|a before IH].
  - cbn [append]. apply includes_of_prefix, prefix_append.
  - change (includes needle (String a (before ++ needle ++ after)) = true).
    cbn [includes].
    destruct (String.prefix needle (String a (before ++ needle ++ after)));
      [reflexivity | assumption].
Qed.

Lemma includes_join (sep x : string) (parts : list string) :
  In x parts -> exists before after, join sep parts = before ++ x ++ after.
Proof.
  induction parts as [|p parts IH]; intros H; [contradiction|].
  destruct H as [->|H].
  - destruct parts as [|q parts].
    + exists "", "". simpl. now rewrite append_nil_r.
    + exists "", (sep ++ join sep (q :: parts)). reflexivity.
  - destruct (IH H) as (b & a & E).
    destruct parts as [|q parts]; [contradiction|].
    exists (p ++ sep ++ b), a.
    change (join sep (p :: q :: parts)) with (p ++ sep ++ join sep (q :: parts)).
    rewrite E. now rewrite !append_assoc.
Qed.

End StringFacts.



(* ===================================================================== *)
(** * Facts about insertion-ordered maps and sets *)
(* ===================================================================== *)

Module MapFacts.

Section WithKeys.
Context {K V : Type} (keq : K -> K -> bool).
Hypothesis keq_spec : forall a b, keq a b = true <-> a = b.

Lemma keq_refl k : keq k k = true.
Proof. now apply keq_spec. Qed.

Lemma keq_neq a b : a <> b -> keq a b = false.
Proof.
  intros H. destruct (keq a b) eqn:E; [|reflexivity].
  apply keq_spec in E. contradiction.
Qed.

Lemma set_has_In k s : set_has keq k s = true <-> In k s.
Proof.
  unfold set_has. rewrite existsb_exists. split.
  - intros (x & Hx & E). apply keq_spec in E. now subst.
  - intros H. exists k. split; [assumption | apply keq_refl].
Qed.

Lemma set_has_notin k s : ~ In k s -> set_has keq k s = false.
Proof.
  intros H. destruct (set_has keq k s) eqn:E; [|reflexivity].
  apply set_has_In in E. contradiction.
Qed.

Lemma set_add_present k s : In k s -> set_add keq k s = s.
Proof.
  induction s as [|a s IH]; intros H; [contradiction|]. simpl.
  destruct (keq k a) eqn:E; [reflexivity|].
  destruct H as [->|H]; [now rewrite keq_refl in E|].
  now rewrite IH.
Qed.

Lemma set_add_absent k s : ~ In k s -> set_add keq k s = (s ++ [k])%list.
Proof.
  induction s as [|a s IH]; intros H; [reflexivity|]. simpl.
  rewrite keq_neq by (intros ->; apply H; now left).
  rewrite IH; [reflexivity|]. intros H'. apply H. now right.
Qed.

Lemma In_or_not k (s : list K) : In k s \/ ~ In k s.
Proof.
  destruct (set_has keq k s) eqn:E.
  - left. now apply set_has_In.
  - right. intros H. apply set_has_In in H. congruence.
Qed.

Lemma set_add_In k s x : In x (set_add keq k s) <-> x = k \/ In x s.
Proof.
  destruct (In_or_not k s) as [H|H].
  - rewrite set_add_present by assumption.
    split; [tauto|]. intros [->|?]; assumption.
  - rewrite set_add_absent by assumption. rewrite in_app_iff. simpl.
    split; intros [?|?]; auto. destruct H0; auto. contradiction.
Qed.

Lemma set_add_NoDup k s : NoDup s -> NoDup (set_add keq k s).
Proof.
  intros N. destruct (In_or_not k s) as [H|H].
  - now rewrite set_add_present.
  - rewrite set_add_absent by assumption.
    apply NoDup_app; [assumption | repeat constructor; auto |].
    intros x Hx [<-|[]]. contradiction.
Qed.

Lemma fold_add_In xs :
  forall s x,
    In x (fold_left (fun s k => set_add keq k s) xs s) <-> In x s \/ In x xs.
Proof.
  induction xs as [|a xs IH]; intros s x; simpl.
  - tauto.
  - rewrite IH, set_add_In. split; intros H; intuition auto.
Qed.

Lemma fold_add_NoDup xs :
  forall s, NoDup s -> NoDup (fold_left (fun s k => set_add keq k s) xs s).
Proof.
  induction xs as [|a xs IH]; intros s N; simpl; [assumption|].
  apply IH, set_add_NoDup, N.
Qed.

Lemma fold_add_subset xs :
  forall s, (forall x, In x xs -> In x s) ->
            fold_left (fun s k => set_add keq k s) xs s = s.
Proof.
  induction xs as [|a xs IH]; intros s H; simpl; [reflexivity|].
  rewrite set_add_present by (apply H; now left).
  apply IH. intros x Hx. apply H. now right.
Qed.

Lemma fold_add_app xs ys s :
  fold_left (fun s k => set_add keq k s) (xs ++ ys) s
  = fold_left (fun s k => set_add keq k s) ys
      (fold_left (fun s k => set_add keq k s) xs s).
Proof. apply fold_left_app. Qed.

(** Adding a list a second time changes nothing. *)
Lemma set_of_list_twice xs :
  set_of_list keq (xs ++ xs) = set_of_list keq xs.
Proof.
  unfold set_of_list. rewrite fold_add_app.
  apply fold_add_subset. intros x Hx. apply fold_add_In. now right.
Qed.

Lemma set_of_list_In xs x : In x (set_of_list keq xs) <-> In x xs.
Proof.
  unfold set_of_list. rewrite fold_add_In. simpl. tauto.
Qed.

Lemma set_of_list_NoDup xs : NoDup (set_of_list keq xs).
Proof. apply fold_add_NoDup. constructor. Qed.

(** The size of the set built from a list is the length of the list
    exactly when the list has no repetition. *)
Lemma fold_add_length xs :
  forall s, NoDup s ->
    (List.length (fold_left (fun s k => set_add keq k s) xs s)
       <= List.length s + List.length xs)%nat
    /\ (List.length (fold_left (fun s k => set_add keq k s) xs s)
         = (List.length s + List.length xs)%nat <-> NoDup (s ++ xs)).
Proof.
  induction xs as [|a xs IH]; intros s N; simpl.
  - rewrite List.app_nil_r. split; [lia|]. split; auto.
  - destruct (In_or_not a s) as [H|H].
    + rewrite set_add_present by assumption.
      destruct (IH s N) as [L _]. split; [lia|]. split; [lia|].
      intros D. apply NoDup_remove_2 in D. exfalso. apply D.
      apply in_or_app. now left.
    + rewrite set_add_absent by assumption.
      assert (N' : NoDup (s ++ [a])).
      { apply NoDup_app; [assumption | repeat constructor; auto |].
        intros x Hx [<-|[]]. contradiction. }
      destruct (IH _ N') as [L E]. rewrite List.length_app in L, E. simpl in L, E.
      rewrite <- List.app_assoc in E. simpl in E.
      split; [lia|]. rewrite <- E. lia.
Qed.

Lemma set_of_list_length xs :
  (List.length (set_of_list keq xs) <= List.length xs)%nat
  /\ (List.length (set_of_list keq xs) = List.length xs <-> NoDup xs).
Proof.
  destruct (fold_add_length xs [] (NoDup_nil _)) as [L E]. simpl in L, E.
  split; assumption.
Qed.

(** ** Maps *)

Lemma map_get_notin k (m : JsMap K V) :
  ~ In k (map_keys m) -> map_get keq k m = None.
Proof.
  induction m as [|[k' v] m IH]; intros H; [reflexivity|]. simpl.
  rewrite keq_neq by (intros ->; apply H; now left).
  apply IH. intros H'. apply H. now right.
Qed.

Lemma map_get_In k (m : JsMap K V) :
  In k (map_keys m) -> exists v, map_get keq k m = Some v /\ In (k, v) m.
Proof.
  induction m as [|[k' v] m IH]; intros H; [contradiction|]. simpl.
  destruct (keq k k') eqn:E.
  - apply keq_spec in E. subst. exists v. split; [reflexivity | now left].
  - destruct H as [H|H]; [simpl in H; subst; now rewrite keq_refl in E|].
    destruct (IH H) as (w & G & I). exists w. split; [assumption | now right].
Qed.

Lemma map_set_absent k v (m : JsMap K V) :
  ~ In k (map_keys m) -> map_set keq k v m = (m ++ [(k, v)])%list.
Proof.
  induction m as [|[k' v'] m IH]; intros H; [reflexivity|]. simpl.
  rewrite keq_neq by (intros ->; apply H; now left).
  rewrite IH; [reflexivity|]. intros H'. apply H. now right.
Qed.

Lemma map_set_last k v v0 (m : JsMap K V) :
  ~ In k (map_keys m) ->
  map_set keq k v (m ++ [(k, v0)])%list = (m ++ [(k, v)])%list.
Proof.
  induction m as [|[k' v'] m IH]; intros H; simpl.
  - now rewrite keq_refl.
  - rewrite keq_neq by (intros ->; apply H; now left).
    rewrite IH; [reflexivity|]. intros H'. apply H. now right.
Qed.

Lemma map_get_last k v (m : JsMap K V) :
  ~ In k (map_keys m) -> map_get keq k (m ++ [(k, v)])%list = Some v.
Proof.
  induction m as [|[k' v'] m IH]; intros H; simpl.
  - now rewrite keq_refl.
  - rewrite keq_neq by (intros ->; apply H; now left).
    apply IH. intros H'. apply H. now right.
Qed.

Lemma map_set_keys_In k v (m : JsMap K V) x :
  In x (map_keys (map_set keq k v m)) <-> x = k \/ In x (map_keys m).
Proof.
  induction m as [|[k' v'] m IH]; simpl.
  - intuition auto.
  - destruct (keq k k') eqn:E; simpl.
    + apply keq_spec in E. subst. intuition auto.
    + unfold map_keys in IH. rewrite IH. intuition auto.
Qed.

Lemma map_set_keys_NoDup k v (m : JsMap K V) :
  NoDup (map_keys m) -> NoDup (map_keys (map_set keq k v m)).
Proof.
  induction m as [|[k' v'] m IH]; intros N; simpl.
  - repeat constructor. auto.
  - inversion N as [|? ? Hn N']; subst.
    destruct (keq k k') eqn:E; simpl.
    + apply keq_spec in E. subst. now constructor.
    + constructor; [|now apply IH].
      intros H. apply map_set_keys_In in H. destruct H as [H|H].
      * subst. now rewrite keq_refl in E.
      * contradiction.
Qed.

Lemma map_set_length k v (m : JsMap K V) :
  List.length (map_set keq k v m)
  = if map_has keq k m then List.length m else S (List.length m).
Proof.
  unfold map_has. induction m as [|[k' v'] m IH]; simpl; [reflexivity|].
  destruct (keq k k') eqn:E; simpl; [reflexivity|].
  rewrite IH. now destruct (map_get keq k m).
Qed.

Lemma map_has_In k (m : JsMap K V) :
  map_has keq k m = true <-> In k (map_keys m).
Proof.
  unfold map_has. destruct (In_or_not k (map_keys m)) as [H|H].
  - destruct (map_get_In _ _ H) as (v & -> & _). tauto.
  - rewrite map_get_notin by assumption. split; [discriminate | contradiction].
Qed.

End WithKeys.

End MapFacts.



(* ===================================================================== *)
(** * Facts about the merge engine *)
(* ===================================================================== *)

Module MergerFacts.
Import Merger StringFacts MapFacts.

Lemma string_eqb_spec a b : String.eqb a b = true <-> a = b.
Proof. apply String.eqb_eq. Qed.

(** ** The key is the fingerprint *)

Lemma getMessageKey_fingerprint m1 m2 :
  getMessageKey m1 = getMessageKey m2 <-> fingerprint m1 = fingerprint m2.
Proof.
  unfold getMessageKey, fingerprint. split.
  - intros E.
    apply split_first in E; try apply numToString_no_underscore.
    destruct E as [Et E].
    apply split_last in E; try apply numToString_no_underscore.
    destruct E as [Es En].
    apply numToString_inj in Et. apply natToString_inj in En. congruence.
  - intros [= -> -> ->]. reflexivity.
Qed.

Lemma fingerprint_toChatLab m : clFingerprint (toChatLabMessage m) = fingerprint m.
Proof. reflexivity. Qed.

Lemma fingerprint_eqb_spec a b : fingerprint_eqb a b = true <-> a = b.
Proof.
  destruct a as [[t1 s1] n1], b as [[t2 s2] n2]. simpl.
  rewrite !andb_true_iff, Z.eqb_eq, String.eqb_eq, Nat.eqb_eq.
  split; [intros [[-> ->] ->]; reflexivity | intros [= -> -> ->]; auto].
Qed.

(** ** First occurrences *)

Section FirstOccurrences.
Context {A K : Type} (keq : K -> K -> bool).
Hypothesis keq_spec : forall a b, keq a b = true <-> a = b.
Variable key : A -> K.

Lemma firstOccurrences_In (l : list A) :
  forall seen x,
    In x (firstOccurrences keq key seen l)
    <-> ~ In (key x) seen
        /\ find (fun y => keq (key y) (key x)) l = Some x.
Proof.
  induction l as [|a l IH]; intros seen x; simpl.
  - split; [contradiction | intros [_ [=]]].
  - destruct (In_or_not keq keq_spec (key a) seen) as [Ha|Ha].
    + rewrite (proj2 (set_has_In keq keq_spec _ _) Ha). rewrite IH.
      destruct (keq (key a) (key x)) eqn:E; [|tauto].
      apply keq_spec in E. rewrite <- E. tauto.
    + rewrite (set_has_notin keq keq_spec _ _ Ha). simpl. rewrite IH.
      rewrite in_app_iff. simpl.
      destruct (keq (key a) (key x)) eqn:E.
      * apply keq_spec in E. split.
        -- intros [->|[H _]]; [split; [assumption|reflexivity]|].
           exfalso. apply H. right. left. assumption.
        -- intros [_ [= ->]]. now left.
      * assert (key a <> key x).
        { intros H. apply keq_spec in H. congruence. }
        split.
        -- intros [->|[H1 H2]]; [congruence|]. split; [|assumption].
           intros H'. apply H1. now left.
        -- intros [H1 H2]. right. split; [|assumption].
           intros [H'|[H'|[]]]; contradiction.
Qed.

Lemma firstOccurrences_NoDup (l : list A) :
  forall seen, NoDup (List.map key (firstOccurrences keq key seen l)).
Proof.
  induction l as [|a l IH]; intros seen; simpl; [constructor|].
  destruct (set_has keq (key a) seen) eqn:E; [apply IH|].
  simpl. constructor; [|apply IH].
  intros H. apply in_map_iff in H. destruct H as (y & Ey & Hy).
  apply firstOccurrences_In in Hy. destruct Hy as [Hy _].
  apply Hy. rewrite Ey. apply in_or_app. right. now left.
Qed.

Lemma find_same_key (l : list A) x :
  In x l -> exists y, find (fun y => keq (key y) (key x)) l = Some y
                      /\ key y = key x.
Proof.
  induction l as [|a l IH]; intros H; [contradiction|]. simpl.
  destruct (keq (key a) (key x)) eqn:E.
  - exists a. split; [reflexivity | now apply keq_spec].
  - destruct H as [->|H]; [now rewrite (keq_refl keq keq_spec) in E|].
    now apply IH.
Qed.

Lemma firstOccurrences_cover (l : list A) x :
  In x l -> exists y, In y (firstOccurrences keq key [] l) /\ key y = key x.
Proof.
  intros H. destruct (find_same_key l x H) as (y & F & E).
  exists y. split; [|assumption].
  apply firstOccurrences_In. split; [intros []|]. now rewrite E.
Qed.
End FirstOccurrences.

(** Two keys that identify the same elements select the same first
    occurrences. *)
Lemma firstOccurrences_change_key {A K1 K2}
    (keq1 : K1 -> K1 -> bool) (keq2 : K2 -> K2 -> bool)
    (key1 : A -> K1) (key2 : A -> K2) :
  (forall a b, keq1 a b = true <-> a = b) ->
  (forall a b, keq2 a b = true <-> a = b) ->
  (forall x y, key1 x = key1 y <-> key2 x = key2 y) ->
  forall l acc,
    firstOccurrences keq1 key1 (List.map key1 acc) l
    = firstOccurrences keq2 key2 (List.map key2 acc) l.
Proof.
  intros S1 S2 Hk. induction l as [|a l IH]; intros acc; simpl; [reflexivity|].
  assert (E : set_has keq1 (key1 a) (List.map key1 acc)
              = set_has keq2 (key2 a) (List.map key2 acc)).
  { apply eq_true_iff_eq. rewrite (set_has_In keq1 S1), (set_has_In keq2 S2).
    rewrite !in_map_iff. split; intros (y & E & Hy); exists y;
      (split; [apply Hk; assumption | assumption]). }
  rewrite E. destruct (set_has keq2 (key2 a) (List.map key2 acc)).
  - apply IH.
  - f_equal. specialize (IH (acc ++ [a])%list).
    rewrite !List.map_app in IH. simpl in IH. exact IH.
Qed.

(** ** The dedup loop *)

Lemma keys_of_entries acc :
  map_keys (List.map entryOf acc) = List.map getMessageKey acc.
Proof. unfold map_keys. rewrite List.map_map. reflexivity. Qed.

Lemma values_of_entries acc :
  List.concat (map_values (List.map entryOf acc)) = List.map toChatLabMessage acc.
Proof.
  unfold map_values. induction acc as [|a acc IH]; simpl; [reflexivity|].
  now rewrite IH.
Qed.

Lemma dedupStep_entries rs acc pc it :
  fst (dedupStep rs (List.map entryOf acc, pc) it)
  = if set_has String.eqb (getMessageKey (msg it)) (List.map getMessageKey acc)
    then List.map entryOf acc
    else List.map entryOf (acc ++ [msg it])%list.
Proof.
  unfold dedupStep. cbn [fst].
  set (key := getMessageKey (msg it)).
  destruct (In_or_not String.eqb string_eqb_spec key (List.map getMessageKey acc))
    as [H|H].
  - rewrite (proj2 (set_has_In String.eqb string_eqb_spec _ _) H).
    rewrite <- keys_of_entries in H.
    rewrite (proj2 (map_has_In String.eqb string_eqb_spec _ _) H).
    destruct (map_get_In String.eqb string_eqb_spec _ _ H) as (v & G & I).
    rewrite G. apply in_map_iff in I. destruct I as (m' & [= _ <-] & _).
    reflexivity.
  - rewrite (set_has_notin String.eqb string_eqb_spec _ _ H).
    rewrite <- keys_of_entries in H.
    assert (Hh : map_has String.eqb key (List.map entryOf acc) = false).
    { destruct (map_has String.eqb key (List.map entryOf acc)) eqn:E; [|reflexivity].
      apply (map_has_In String.eqb string_eqb_spec) in E. contradiction. }
    rewrite Hh.
    rewrite (map_set_absent String.eqb string_eqb_spec _ _ _ H).
    rewrite (map_get_last String.eqb string_eqb_spec _ _ _ H).
    cbn [List.length Nat.eqb].
    rewrite (map_set_last String.eqb string_eqb_spec _ _ _ _ H).
    rewrite List.map_app. reflexivity.
Qed.

Lemma dedup_fold rs (rest : list Item) :
  forall acc pc,
    fst (fold_left (dedupStep rs) rest (List.map entryOf acc, pc))
    = List.map entryOf
        (acc ++ firstOccurrences String.eqb getMessageKey
                  (List.map getMessageKey acc) (List.map msg rest))%list.
Proof.
  induction rest as [|it rest IH]; intros acc pc;
    cbn [fold_left List.map firstOccurrences].
  - now rewrite List.app_nil_r.
  - pose proof (dedupStep_entries rs acc pc it) as S.
    destruct (dedupStep rs (List.map entryOf acc, pc) it) as [mm pc'].
    cbn [fst] in S. subst mm.
    destruct (set_has String.eqb (getMessageKey (msg it)) (List.map getMessageKey acc)).
    + apply IH.
    + rewrite IH. f_equal. rewrite List.map_app, <- List.app_assoc. reflexivity.
Qed.

(** ** Sorting by time stamp *)

Lemma insertByTimestamp_perm x l : Permutation (x :: l) (insertByTimestamp x l).
Proof.
  induction l as [|y l IH]; simpl; [apply Permutation_refl|].
  destruct (clTimestamp x <=? clTimestamp y); [apply Permutation_refl|].
  eapply perm_trans; [apply perm_swap|]. now apply perm_skip.
Qed.

Lemma sortByTimestamp_perm l : Permutation l (sortByTimestamp l).
Proof.
  induction l as [|x l IH]; simpl; [constructor|].
  eapply perm_trans; [apply perm_skip, IH | apply insertByTimestamp_perm].
Qed.

Lemma insertByTimestamp_sorted x l :
  Sorted Z.le (List.map clTimestamp l) ->
  Sorted Z.le (List.map clTimestamp (insertByTimestamp x l)).
Proof.
  induction l as [|y l IH]; intros S; simpl.
  - repeat constructor.
  - destruct (clTimestamp x <=? clTimestamp y) eqn:E; simpl.
    + constructor; [assumption|]. constructor. now apply Z.leb_le.
    + apply Z.leb_gt in E. inversion S as [|? ? S' Hd]; subst.
      constructor; [now apply IH|].
      destruct l as [|z l]; simpl.
      * constructor. lia.
      * destruct (clTimestamp x <=? clTimestamp z); simpl; constructor; try lia.
        inversion Hd; subst. assumption.
Qed.

Lemma sortByTimestamp_sorted l :
  Sorted Z.le (List.map clTimestamp (sortByTimestamp l)).
Proof.
  induction l as [|x l IH]; simpl; [constructor|].
  now apply insertByTimestamp_sorted.
Qed.

(** ** The merged list *)

Lemma mergedMessages_spec rs (all : list Item) :
  mergedMessages rs all
  = sortByTimestamp
      (List.map toChatLabMessage
         (firstOccurrences fingerprint_eqb fingerprint [] (List.map msg all))).
Proof.
  unfold mergedMessages.
  pose proof (dedup_fold rs all [] []) as H.
  cbn [List.map List.app] in H. rewrite H.
  rewrite values_of_entries.
  pose proof (firstOccurrences_change_key String.eqb fingerprint_eqb
                getMessageKey fingerprint string_eqb_spec fingerprint_eqb_spec
                getMessageKey_fingerprint (List.map msg all) []) as E.
  cbn [List.map] in E. rewrite E. reflexivity.
Qed.

End MergerFacts.



(* ===================================================================== *)
(** * Facts about the calls the merge engine makes *)
(* ===================================================================== *)

Module TraceFacts.
Import Merger.

Lemma forEach_detect_ok env paths :
  forall feats t,
    Forall2 (fun p f => detectFormat env p = Normal (Some f)) paths feats ->
    forEach (detectOne env) paths t
    = (Normal (List.map featureName feats), (t ++ List.map CallDetect paths)%list).
Proof.
  induction paths as [|p paths IH]; intros feats t H; inversion H; subst; simpl.
  - unfold ret. now rewrite List.app_nil_r.
  - unfold bind at 1. unfold detectOne at 1. unfold bind at 1, emit.
    unfold bind at 1, lift.
    match goal with E : detectFormat env p = Normal _ |- _ => rewrite E end.
    unfold ret at 1. unfold bind at 1.
    erewrite IH by eassumption. unfold ret.
    now rewrite <- List.app_assoc.
Qed.

(** The sniffing loop stops at the first file that is not recognised or
    cannot be read. *)
Lemma forEach_detect_fail env paths :
  forall t,
    (exists p, In p paths /\ forall f, detectFormat env p <> Normal (Some f)) ->
    exists q e t',
      In q paths
      /\ ((detectFormat env q = Normal None
           /\ e = JsError (unrecognizedMessage env q))
          \/ detectFormat env q = Throw e)
      /\ forEach (detectOne env) paths t = (Throw e, t')
      /\ forall c, In c t' -> In c t \/ exists p', c = CallDetect p'.
Proof.
  induction paths as [|p paths IH]; intros t (p0 & Hin & Hd); [contradiction|].
  simpl. unfold bind at 1. unfold detectOne at 1. unfold bind at 1, emit.
  unfold bind at 1, lift.
  destruct (detectFormat env p) as [[f|]|e] eqn:E.
  - destruct Hin as [->|Hin]; [now elim (Hd f)|].
    destruct (IH (t ++ [CallDetect p])%list (ex_intro _ p0 (conj Hin Hd)))
      as (q & e & t' & Hq & Dq & R & Tr).
    exists q, e, t'. repeat split; auto.
    + unfold ret at 1. unfold bind at 1. now rewrite R.
    + intros c Hc. destruct (Tr c Hc) as [H|H]; [|now right].
      apply in_app_or in H. destruct H as [H|[<-|[]]]; [now left|].
      right. now exists p.
  - exists p, (JsError (unrecognizedMessage env p)), (t ++ [CallDetect p])%list.
    repeat split; auto.
    intros c Hc. apply in_app_or in Hc. destruct Hc as [H|[<-|[]]]; [now left|].
    right. now exists p.
  - exists p, e, (t ++ [CallDetect p])%list. repeat split; auto.
    intros c Hc. apply in_app_or in Hc. destruct Hc as [H|[<-|[]]]; [now left|].
    right. now exists p.
Qed.

Lemma forEach_parseOne_ok env paths :
  forall results t,
    Forall2 (fun p r => parseFileSync env p = Normal r) paths results ->
    forEach (parseOne env) paths t
    = (Normal (List.map
                 (fun pr => List.map (fun m => mkItem m (basename env (fst pr)))
                              (messages (snd pr)))
                 (List.combine paths results)),
       (t ++ List.map CallParse paths)%list).
Proof.
  induction paths as [|p paths IH]; intros results t H; inversion H; subst; simpl.
  - unfold ret. now rewrite List.app_nil_r.
  - unfold bind at 1. unfold parseOne at 1. unfold bind at 1, emit.
    unfold bind at 1, lift.
    match goal with E : parseFileSync env p = Normal _ |- _ => rewrite E end.
    unfold ret at 1. unfold bind at 1.
    erewrite IH by eassumption. unfold ret.
    now rewrite <- List.app_assoc.
Qed.

Lemma forEach_parseOne_fail env paths :
  forall t, (exists p, In p paths /\ exists e, parseFileSync env p = Throw e) ->
    exists q e t',
      In q paths /\ parseFileSync env q = Throw e
      /\ forEach (parseOne env) paths t = (Throw e, t').
Proof.
  induction paths as [|p paths IH]; intros t (p0 & Hin & e0 & Hd); [contradiction|].
  simpl. unfold bind at 1. unfold parseOne at 1. unfold bind at 1, emit.
  unfold bind at 1, lift.
  destruct (parseFileSync env p) as [r|e] eqn:E.
  - destruct Hin as [->|Hin]; [congruence|].
    destruct (IH (t ++ [CallParse p])%list
                (ex_intro _ p0 (conj Hin (ex_intro _ e0 Hd))))
      as (q & e & t' & Hq & Dq & R).
    exists q, e, t'. repeat split; auto.
    unfold ret at 1. unfold bind at 1. now rewrite R.
  - exists p, e, (t ++ [CallParse p])%list. repeat split; auto.
Qed.

(** The parse loop of [mergeFiles]. *)
Lemma forEach_parseForMerge env paths :
  forall t,
    match forEach (parseForMerge env) paths t with
    | (Normal prs, t') =>
        Forall2 (parsedFrom env) paths prs
        /\ t' = (t ++ List.map CallParse paths)%list
    | (Throw e, t') =>
        (exists p, In p paths /\ parseFileSync env p = Throw e)
        /\ forall c, In c t' -> In c t \/ exists p', c = CallParse p'
    end.
Proof.
  induction paths as [|p paths IH]; intros t; simpl.
  - unfold ret. split; [constructor | now rewrite List.app_nil_r].
  - unfold bind at 1. unfold parseForMerge at 1. unfold bind at 1, emit.
    unfold bind at 1, lift.
    destruct (parseFileSync env p) as [r|e] eqn:E.
    + unfold ret at 1. unfold bind at 1.
      specialize (IH (t ++ [CallParse p])%list).
      destruct (forEach (parseForMerge env) paths (t ++ [CallParse p])%list)
        as [[prs|e] t'].
      * destruct IH as [F ->]. unfold ret. split.
        -- constructor; [split; [assumption | reflexivity] | assumption].
        -- now rewrite <- List.app_assoc.
      * destruct IH as [(q & Hq & Eq) Tr]. split.
        -- exists q. split; [now right | assumption].
        -- intros c Hc. destruct (Tr c Hc) as [H|H]; [|now right].
           apply in_app_or in H. destruct H as [H|[<-|[]]]; [now left|].
           right. now exists p.
    + split.
      * exists p. split; [now left | assumption].
      * intros c Hc. apply in_app_or in Hc.
        destruct Hc as [H|[<-|[]]]; [now left|]. right. now exists p.
Qed.

(** [mergeFiles] always completes with a result. *)
Lemma mergeFiles_result env params t :
  exists res t',
    mergeFiles env params t = (Normal res, t')
    /\ forall e t1, mergeFilesBody env params t = (Throw e, t1) ->
                    res = MergeFailure (errorMessage e) /\ t' = t1.
Proof.
  unfold mergeFiles, tryCatch.
  destruct (mergeFilesBody env params t) as [[r|e] t1].
  - exists r, t1. split; [reflexivity | intros ? ? [=]].
  - exists (MergeFailure (errorMessage e)), t1. split; [reflexivity|].
    intros ? ? [= <- <-]. auto.
Qed.

(** Whatever [mergeFiles] writes is the archive built from the parse
    results of its input files. *)
Lemma mergeFiles_writes env params res t' path data :
  mergeFiles env params [] = (res, t') ->
  In (CallWrite path data) t' ->
  exists prs,
    Forall2 (parsedFrom env) (filePaths params) prs
    /\ buildChatLab env params prs = Normal data.
Proof.
  unfold mergeFiles, tryCatch, mergeFilesBody.
  unfold bind at 1.
  pose proof (forEach_parseForMerge env (filePaths params) []) as P.
  destruct (forEach (parseForMerge env) (filePaths params) []) as [[prs|e] t1].
  - destruct P as [F ->]. cbn [List.app].
    unfold bind at 1, lift.
    destruct (buildChatLab env params prs) as [cl|e] eqn:B.
    + intros R Hin. exists prs. split; [assumption|].
      assert (D : data = cl); [|now subst].
      revert R.
      unfold bind, ensureOutputDir, emit, lift, ret, bind.
      repeat match goal with
             | |- context [if ?c then _ else _] => destruct c
             | |- context [match ?o with Normal _ => _ | Throw _ => _ end] =>
                 destruct o
             end;
        intros [= <- <-];
        repeat (apply in_app_or in Hin; destruct Hin as [Hin|Hin]);
        try (apply in_map_iff in Hin; destruct Hin as (? & [=] & _));
        simpl in Hin; intuition (try discriminate; try congruence).
    + intros [= <- <-] Hin.
      apply in_map_iff in Hin. destruct Hin as (? & [=] & _).
  - intros [= <- <-] Hin. destruct P as [_ Tr].
    destruct (Tr _ Hin) as [[]|(? & [=])].
Qed.

(** Whatever [mergeFiles] hands to the session store is that archive,
    converted back. *)
Lemma mergeFiles_imports env params res t' imported :
  mergeFiles env params [] = (res, t') ->
  In (CallImport imported) t' ->
  exists prs data,
    Forall2 (parsedFrom env) (filePaths params) prs
    /\ buildChatLab env params prs = Normal data
    /\ imported = toParseResult data.
Proof.
  unfold mergeFiles, tryCatch, mergeFilesBody.
  unfold bind at 1.
  pose proof (forEach_parseForMerge env (filePaths params) []) as P.
  destruct (forEach (parseForMerge env) (filePaths params) []) as [[prs|e] t1].
  - destruct P as [F ->]. cbn [List.app].
    unfold bind at 1, lift.
    destruct (buildChatLab env params prs) as [cl|e] eqn:B.
    + intros R Hin. exists prs, cl. split; [assumption|]. split; [exact B|].
      revert R.
      unfold bind, ensureOutputDir, emit, lift, ret, bind.
      repeat match goal with
             | |- context [if ?c then _ else _] => destruct c
             | |- context [match ?o with Normal _ => _ | Throw _ => _ end] =>
                 destruct o
             end;
        intros [= <- <-];
        repeat (apply in_app_or in Hin; destruct Hin as [Hin|Hin]);
        try (apply in_map_iff in Hin; destruct Hin as (? & [=] & _));
        simpl in Hin; intuition (try discriminate; try congruence).
    + intros [= <- <-] Hin.
      apply in_map_iff in Hin. destruct Hin as (? & [=] & _).
  - intros [= <- <-] Hin. destruct P as [_ Tr].
    destruct (Tr _ Hin) as [[]|(? & [=])].
Qed.

End TraceFacts.



(* ===================================================================== *)
(** * Facts about the streaming parsers *)
(* ===================================================================== *)

Module ParserFacts.
Import Parser MapFacts.

Lemma sliceLoop_concat {A} (batchSize : nat) (l : list A) :
  (0 < batchSize)%nat ->
  forall fuel i,
    (List.length l - i <= fuel)%nat ->
    List.concat (sliceLoop fuel i batchSize l) = skipn i l.
Proof.
  intros Hb. induction fuel as [|fuel IH]; intros i Hf; simpl.
  - symmetry. apply skipn_all2. lia.
  - destruct (i <? List.length l)%nat eqn:E.
    + apply Nat.ltb_lt in E. simpl. rewrite IH by lia.
      rewrite Nat.add_comm, <- skipn_skipn. apply firstn_skipn.
    + apply Nat.ltb_ge in E. symmetry. now apply skipn_all2.
Qed.

Lemma emittedMessages_app evs1 evs2 :
  emittedMessages (evs1 ++ evs2)
  = (emittedMessages evs1 ++ emittedMessages evs2)%list.
Proof.
  unfold emittedMessages. now rewrite List.map_app, List.concat_app.
Qed.

Lemma emittedMessages_batches batches :
  emittedMessages (List.map EvMessages batches) = List.concat batches.
Proof.
  unfold emittedMessages. rewrite List.map_map. now rewrite List.map_id.
Qed.

Section Streaming.
Context {T C : Type}.
Variable parseTimestamp : T -> option Z.
Variable isValidYear : Z -> bool.
Variable typeOfCode : option C -> MessageType.

Local Abbreviation processMessage := (processMessage parseTimestamp isValidYear typeOfCode).
Local Abbreviation keptMessage := (keptMessage parseTimestamp isValidYear typeOfCode).
Local Abbreviation keptMessages := (keptMessages parseTimestamp isValidYear typeOfCode).
Local Abbreviation onData := (onData parseTimestamp isValidYear typeOfCode).
Local Abbreviation parse := (parse parseTimestamp isValidYear typeOfCode).

(** The message of a record does not depend on the member map. *)
Lemma processMessage_message members (r : RawMessage T C) :
  snd (processMessage members r) = keptMessage r.
Proof.
  unfold Parser.keptMessage, Parser.processMessage.
  destruct (resolveSender (rawSender r)); [|reflexivity].
  destruct (parseTimestamp (rawTimestamp r)); [|reflexivity].
  destruct (negb (isValidYear z)); reflexivity.
Qed.

(** The member map is updated as soon as the sender is resolved. *)
Lemma processMessage_members members (r : RawMessage T C) :
  fst (processMessage members r)
  = match resolveSender (rawSender r) with
    | Some pid =>
        map_set String.eqb pid
          (mkMember pid (orElseName (rawName (rawSender r)) pid)) members
    | None => members
    end.
Proof.
  unfold Parser.processMessage.
  destruct (resolveSender (rawSender r)); [|reflexivity].
  destruct (parseTimestamp (rawTimestamp r)); [|reflexivity].
  destruct (negb (isValidYear z)); reflexivity.
Qed.

Lemma keptMessage_sender (r : RawMessage T C) m :
  keptMessage r = Some m ->
  resolveSender (rawSender r) = Some (senderPlatformId m).
Proof.
  unfold Parser.keptMessage, Parser.processMessage.
  destruct (resolveSender (rawSender r)); [|discriminate].
  destruct (parseTimestamp (rawTimestamp r)); [|discriminate].
  destruct (negb (isValidYear z)); [discriminate|].
  simpl. intros [= <-]. reflexivity.
Qed.

Lemma keptMessage_unresolved (r : RawMessage T C) :
  resolveSender (rawSender r) = None -> keptMessage r = None.
Proof.
  unfold Parser.keptMessage, Parser.processMessage. now intros ->.
Qed.

Lemma keptMessage_invalid (r : RawMessage T C) t :
  parseTimestamp (rawTimestamp r) = Some t -> isValidYear t = false ->
  keptMessage r = None.
Proof.
  unfold Parser.keptMessage, Parser.processMessage. intros -> ->.
  now destruct (resolveSender (rawSender r)).
Qed.

Lemma keptMessages_app rs1 rs2 :
  keptMessages (rs1 ++ rs2) = (keptMessages rs1 ++ keptMessages rs2)%list.
Proof. unfold Parser.keptMessages. apply flat_map_app. Qed.

Lemma keptMessages_In rs m :
  In m (keptMessages rs) <-> exists r, In r rs /\ keptMessage r = Some m.
Proof.
  unfold Parser.keptMessages. rewrite in_flat_map. split.
  - intros (r & Hr & Hm). exists r. split; [assumption|].
    destruct (keptMessage r); [|contradiction].
    destruct Hm as [->|[]]. reflexivity.
  - intros (r & Hr & E). exists r. split; [assumption|]. rewrite E. now left.
Qed.

(** The state after the pipeline has delivered [rs]. *)
Lemma onData_fold batchSize (rs : list (RawMessage T C)) :
  forall st,
    let st' := fold_left (onData batchSize) rs st in
    (messageBatch st' ++ batchCollector st')%list
    = (messageBatch st ++ batchCollector st ++ keptMessages rs)%list
    /\ processed st' = (processed st + List.length (keptMessages rs))%nat
    /\ memberMap st'
       = fold_left (fun mm r => fst (processMessage mm r)) rs (memberMap st).
Proof.
  induction rs as [|r rs IH]; intros st; cbn [fold_left].
  - cbn. rewrite List.app_nil_r. auto.
  - specialize (IH (onData batchSize st r)). cbn zeta in IH |- *.
    destruct IH as (IH1 & IH2 & IH3). rewrite IH1, IH2, IH3.
    change (keptMessages (r :: rs))
      with ((match keptMessage r with Some m => [m] | None => [] end)
              ++ keptMessages rs)%list.
    unfold Parser.onData.
    pose proof (processMessage_message (memberMap st) r) as Em.
    destruct (processMessage (memberMap st) r) as [members' parsed].
    cbn [snd fst] in Em |- *. rewrite <- Em.
    destruct parsed as [p|]; cbn [List.app List.length].
    + destruct (batchSize <=? List.length (batchCollector st ++ [p]))%nat;
        cbn [messageBatch batchCollector processed memberMap List.app];
        rewrite <- ?List.app_assoc; cbn [List.app];
        repeat split; try reflexivity; lia.
    + cbn [messageBatch batchCollector processed memberMap].
      repeat split; try reflexivity; lia.
Qed.

Lemma onEnd_batch st :
  messageBatch (onEnd st) = (messageBatch st ++ batchCollector st)%list
  /\ processed (onEnd st) = processed st
  /\ memberMap (onEnd st) = memberMap st.
Proof.
  unfold onEnd. destruct (batchCollector st) eqn:E; cbn.
  - now rewrite List.app_nil_r.
  - auto.
Qed.

(** What a parse yields when the pipeline ends without error. *)
Lemma parse_events batchSize (f : SourceFile (RawMessage T C)) :
  (0 < batchSize)%nat ->
  pipelineError f = None ->
  exists batches,
    let st := onEnd (fold_left (onData batchSize) (records f) initialState) in
    parse batchSize f
    = (([ EvProgress (mkProgress StageParsing 0 (fileSize f) 0 "开始解析...");
          EvMeta (parseMeta f) ]
          ++ [EvMembers (map_values (memberMap st))]
          ++ List.map EvMessages batches
          ++ [ EvProgress (mkProgress StageDone (fileSize f) (fileSize f)
                             (processed st) "解析完成");
               EvDone (processed st) (map_size (memberMap st)) ])%list,
       None)
    /\ List.concat batches = keptMessages (records f)
    /\ processed st = List.length (keptMessages (records f))
    /\ memberMap st
       = fold_left (fun mm r => fst (processMessage mm r)) (records f) [].
Proof.
  intros Hb He.
  set (st := onEnd (fold_left (onData batchSize) (records f) initialState)).
  exists (sliceLoop (List.length (messageBatch st)) 0 batchSize (messageBatch st)).
  cbn zeta. fold st.
  destruct (onData_fold batchSize (records f) initialState) as (F1 & F2 & F3).
  destruct (onEnd_batch (fold_left (onData batchSize) (records f) initialState))
    as (E1 & E2 & E3).
  fold st in E1, E2, E3.
  repeat split.
  - unfold Parser.parse. rewrite He. fold st. reflexivity.
  - rewrite sliceLoop_concat by (assumption || lia).
    cbn [skipn]. rewrite E1, F1. reflexivity.
  - rewrite E2, F2. reflexivity.
  - rewrite E3, F3. reflexivity.
Qed.

Lemma emitted_of_parse batchSize (f : SourceFile (RawMessage T C)) :
  (0 < batchSize)%nat ->
  pipelineError f = None ->
  emittedMessages (fst (parse batchSize f)) = keptMessages (records f).
Proof.
  intros Hb He. destruct (parse_events batchSize f Hb He) as (bs & P & Cc & _).
  cbn zeta in P. rewrite P. cbn [fst].
  rewrite !emittedMessages_app, emittedMessages_batches, Cc.
  cbn. now rewrite List.app_nil_r.
Qed.

(** ** The member map *)

Lemma members_fold_keys (rs : list (RawMessage T C)) :
  forall mm pid,
    In pid (map_keys (fold_left (fun mm r => fst (processMessage mm r)) rs mm))
    <-> In pid (map_keys mm)
        \/ exists r, In r rs /\ resolveSender (rawSender r) = Some pid.
Proof.
  induction rs as [|r rs IH]; intros mm pid; cbn [fold_left].
  - split; [auto | intros [H|(r & [] & _)]; assumption].
  - rewrite IH, processMessage_members.
    destruct (resolveSender (rawSender r)) as [q|] eqn:E.
    + rewrite (map_set_keys_In String.eqb String.eqb_eq). split.
      * intros [[->|H]|(r' & Hr & Er)]; auto.
        -- right. exists r. split; [now left | assumption].
        -- right. exists r'. split; [now right | assumption].
      * intros [H|(r' & [<-|Hr] & Er)]; auto.
        -- left. left. congruence.
        -- right. exists r'. auto.
    + split.
      * intros [H|(r' & Hr & Er)]; auto.
        right. exists r'. split; [now right | assumption].
      * intros [H|(r' & [<-|Hr] & Er)]; auto; [congruence|].
        right. exists r'. auto.
Qed.

Lemma members_fold_wf (rs : list (RawMessage T C)) :
  forall mm,
    NoDup (map_keys mm) ->
    List.map platformId (map_values mm) = map_keys mm ->
    let mm' := fold_left (fun mm r => fst (processMessage mm r)) rs mm in
    NoDup (map_keys mm')
    /\ List.map platformId (map_values mm') = map_keys mm'.
Proof.
  induction rs as [|r rs IH]; intros mm N W; cbn [fold_left]; [auto|].
  apply IH; rewrite processMessage_members;
    destruct (resolveSender (rawSender r)) as [q|]; try assumption.
  - now apply (map_set_keys_NoDup String.eqb String.eqb_eq).
  - clear IH N. revert W. unfold map_values, map_keys.
    induction mm as [|[k v] mm IHm]; intros W; simpl in *.
    + reflexivity.
    + injection W as W1 W2. destruct (String.eqb q k) eqn:E; simpl.
      * apply String.eqb_eq in E. subst. now rewrite W2.
      * rewrite W1. f_equal. now apply IHm.
Qed.
End Streaming.

End ParserFacts.



(* ===================================================================== *)
(** * Properties of the merge engine *)
(* ===================================================================== *)

Module MergerSpec.
Import Merger StringFacts MapFacts MergerFacts TraceFacts Samples.

Lemma buildChatLab_messages env params prs data :
  buildChatLab env params prs = Normal data ->
  clMessages data
  = mergedMessages (conflictResolutions params) (collectMessages prs).
Proof.
  unfold buildChatLab. destruct prs; [discriminate|].
  intros [= <-]. reflexivity.
Qed.

(** The merged list holds one message per fingerprint, the first one in
    source order, whatever the resolutions are. *)
Lemma mergedMessages_first_per_fingerprint rs (items : list Item) :
  let all := List.map msg items in
  let merged := mergedMessages rs items in
  NoDup (List.map clFingerprint merged)
  /\ (forall m, In m all ->
        exists c, In c merged /\ clFingerprint c = fingerprint m)
  /\ (forall c, In c merged ->
        exists m,
          find (fun x => fingerprint_eqb (fingerprint x) (clFingerprint c)) all
          = Some m
          /\ c = toChatLabMessage m).
Proof.
  cbn zeta. rewrite mergedMessages_spec.
  set (firsts := firstOccurrences fingerprint_eqb fingerprint []
                   (List.map msg items)).
  pose proof (sortByTimestamp_perm (List.map toChatLabMessage firsts)) as P.
  repeat split.
  - apply (Permutation_NoDup (Permutation_map clFingerprint P)).
    rewrite List.map_map.
    apply (firstOccurrences_NoDup fingerprint_eqb fingerprint_eqb_spec).
  - intros m Hm.
    destruct (firstOccurrences_cover fingerprint_eqb fingerprint_eqb_spec
                fingerprint _ m Hm) as (y & Hy & Ey).
    exists (toChatLabMessage y). split; [|assumption].
    apply (Permutation_in _ P). now apply in_map.
  - intros c Hc. apply (Permutation_in _ (Permutation_sym P)) in Hc.
    apply in_map_iff in Hc. destruct Hc as (m & <- & Hm).
    exists m. split; [|reflexivity].
    apply (firstOccurrences_In fingerprint_eqb fingerprint_eqb_spec) in Hm.
    apply Hm.
Qed.

(** C1. For every call to [mergeFiles], whatever resolutions are supplied,
    the merged message list that is written holds exactly one message per
    fingerprint (time stamp, sender identifier, content length): no two of
    its messages share a fingerprint, every fingerprint of a source message
    is present, and each message is the first source message of its
    fingerprint, sources taken in input order and messages in file order. *)
Theorem mergeFiles_keeps_first_per_fingerprint :
  forall env params res t' path data,
    mergeFiles env params [] = (res, t') ->
    In (CallWrite path data) t' ->
    exists prs,
      Forall2 (parsedFrom env) (filePaths params) prs
      /\ let all := List.map msg (collectMessages prs) in
         NoDup (List.map clFingerprint (clMessages data))
         /\ (forall m, In m all ->
               exists c, In c (clMessages data)
                         /\ clFingerprint c = fingerprint m)
         /\ (forall c, In c (clMessages data) ->
               exists m,
                 find (fun x => fingerprint_eqb (fingerprint x) (clFingerprint c))
                   all = Some m
                 /\ c = toChatLabMessage m).
Proof.
  intros env params res t' path data R W.
  destruct (mergeFiles_writes env params res t' path data R W) as (prs & F & B).
  exists prs. split; [assumption|].
  rewrite (buildChatLab_messages env params prs data B).
  apply mergedMessages_first_per_fingerprint.
Qed.

Lemma mergeFiles_keeps_first_per_fingerprint_witness :
  mergeFiles sampleEnv sampleParams []
  = (Normal (MergeSuccess samplePath (Some "session_1")), sampleTrace)
  /\ In (CallWrite samplePath sampleArchive) sampleTrace
  /\ exists prs,
       Forall2 (parsedFrom sampleEnv) (filePaths sampleParams) prs
       /\ let all := List.map msg (collectMessages prs) in
          NoDup (List.map clFingerprint (clMessages sampleArchive))
          /\ (forall m, In m all ->
                exists c, In c (clMessages sampleArchive)
                          /\ clFingerprint c = fingerprint m)
          /\ (forall c, In c (clMessages sampleArchive) ->
                exists m,
                  find (fun x => fingerprint_eqb (fingerprint x) (clFingerprint c))
                    all = Some m
                  /\ c = toChatLabMessage m).
Proof.
  split; [vm_compute; reflexivity|].
  split; [right; right; left; reflexivity|].
  apply (mergeFiles_keeps_first_per_fingerprint sampleEnv sampleParams
           (Normal (MergeSuccess samplePath (Some "session_1"))) sampleTrace
           samplePath sampleArchive).
  - vm_compute; reflexivity.
  - right; right; left; reflexivity.
Defined.


(** ** [checkConflicts], case by case *)

Lemma detect_all_or_not env paths :
  (exists feats,
      Forall2 (fun p f => detectFormat env p = Normal (Some f)) paths feats)
  \/ (exists p, In p paths /\ forall f, detectFormat env p <> Normal (Some f)).
Proof.
  induction paths as [|p paths IH].
  - left. exists []. constructor.
  - destruct (detectFormat env p) as [[f|]|e] eqn:E.
    + destruct IH as [(feats & F)|(q & Hq & Dq)].
      * left. exists (f :: feats). now constructor.
      * right. exists q. split; [now right | assumption].
    + right. exists p. split; [now left | congruence].
    + right. exists p. split; [now left | congruence].
Qed.

Lemma parse_all_or_not env paths :
  (exists results,
      Forall2 (fun p r => parseFileSync env p = Normal r) paths results)
  \/ (exists p, In p paths /\ exists e, parseFileSync env p = Throw e).
Proof.
  induction paths as [|p paths IH].
  - left. exists []. constructor.
  - destruct (parseFileSync env p) as [r|e] eqn:E.
    + destruct IH as [(rs & F)|(q & Hq & Dq)].
      * left. exists (r :: rs). now constructor.
      * right. exists q. split; [now right | assumption].
    + right. exists p. split; [now left | now exists e].
Qed.

Lemma sniffedFormats_all env paths feats :
  Forall2 (fun p f => detectFormat env p = Normal (Some f)) paths feats ->
  sniffedFormats env paths = List.map featureName feats.
Proof.
  unfold sniffedFormats. induction 1 as [|p f paths feats E F IH]; simpl.
  - reflexivity.
  - now rewrite E, IH.
Qed.

Lemma checkConflicts_sniff_failure env paths t :
  (exists p, In p paths /\ forall f, detectFormat env p <> Normal (Some f)) ->
  exists q e t',
    In q paths
    /\ ((detectFormat env q = Normal None
         /\ e = JsError (unrecognizedMessage env q))
        \/ detectFormat env q = Throw e)
    /\ checkConflicts env paths t = (Throw e, t')
    /\ forall c, In c t' -> In c t \/ exists p', c = CallDetect p'.
Proof.
  intros H.
  destruct (forEach_detect_fail env paths t H) as (q & e & t' & Hq & Dq & R & Tr).
  exists q, e, t'. repeat split; try assumption.
  unfold checkConflicts, bind. now rewrite R.
Qed.

Lemma checkConflicts_mismatch env paths feats t :
  Forall2 (fun p f => detectFormat env p = Normal (Some f)) paths feats ->
  (1 < List.length (set_of_list String.eqb (List.map featureName feats)))%nat ->
  checkConflicts env paths t
  = (Throw (JsError (mismatchMessage
                       (set_of_list String.eqb (List.map featureName feats)))),
     (t ++ List.map CallDetect paths)%list).
Proof.
  intros F L. unfold checkConflicts, bind.
  rewrite (forEach_detect_ok env paths feats t F).
  apply Nat.ltb_lt in L. rewrite L. reflexivity.
Qed.

Lemma checkConflicts_parse_error env paths feats t :
  Forall2 (fun p f => detectFormat env p = Normal (Some f)) paths feats ->
  (List.length (set_of_list String.eqb (List.map featureName feats)) <= 1)%nat ->
  (exists p, In p paths /\ exists e, parseFileSync env p = Throw e) ->
  exists q e t',
    In q paths /\ parseFileSync env q = Throw e
    /\ checkConflicts env paths t = (Throw e, t').
Proof.
  intros F L H. unfold checkConflicts, bind.
  rewrite (forEach_detect_ok env paths feats t F).
  apply Nat.ltb_ge in L. rewrite L.
  destruct (forEach_parseOne_fail env paths (t ++ List.map CallDetect paths)%list H)
    as (q & e & t' & Hq & Eq & R).
  exists q, e, t'. repeat split; try assumption. now rewrite R.
Qed.

Lemma checkConflicts_ok env paths feats results t :
  Forall2 (fun p f => detectFormat env p = Normal (Some f)) paths feats ->
  (List.length (set_of_list String.eqb (List.map featureName feats)) <= 1)%nat ->
  Forall2 (fun p r => parseFileSync env p = Normal r) paths results ->
  let all :=
    List.concat
      (List.map
         (fun pr => List.map (fun m => mkItem m (basename env (fst pr)))
                      (messages (snd pr)))
         (List.combine paths results)) in
  checkConflicts env paths t
  = (Normal {| conflicts := detectConflicts all;
               totalMessages := List.length (uniqueKeys all) |},
     ((t ++ List.map CallDetect paths) ++ List.map CallParse paths)%list).
Proof.
  intros F L P. cbn zeta. unfold checkConflicts, bind.
  rewrite (forEach_detect_ok env paths feats t F).
  apply Nat.ltb_ge in L. rewrite L.
  rewrite (forEach_parseOne_ok env paths results _ P). reflexivity.
Qed.

Lemma Forall2_recognised env paths feats :
  Forall2 (fun p f => detectFormat env p = Normal (Some f)) paths feats ->
  Forall (fun p => exists f, detectFormat env p = Normal (Some f)) paths.
Proof.
  induction 1 as [|p f paths feats E F IH]; constructor;
    [now exists f | assumption].
Qed.

Lemma Forall2_parsed env paths results :
  Forall2 (fun p r => parseFileSync env p = Normal r) paths results ->
  Forall (fun p => exists r, parseFileSync env p = Normal r) paths.
Proof.
  induction 1 as [|p r paths rs E F IH]; constructor; [now exists r | assumption].
Qed.

(** The ways in which [checkConflicts] ends, and when. *)
Lemma checkConflicts_cases env paths t :
  (exists q e, In q paths
               /\ ((detectFormat env q = Normal None
                    /\ e = JsError (unrecognizedMessage env q))
                   \/ detectFormat env q = Throw e)
               /\ fst (checkConflicts env paths t) = Throw e)
  \/ (Forall (fun p => exists f, detectFormat env p = Normal (Some f)) paths
      /\ (1 < List.length (set_of_list String.eqb (sniffedFormats env paths)))%nat
      /\ fst (checkConflicts env paths t)
         = Throw (JsError (mismatchMessage
                             (set_of_list String.eqb (sniffedFormats env paths)))))
  \/ (Forall (fun p => exists f, detectFormat env p = Normal (Some f)) paths
      /\ (List.length (set_of_list String.eqb (sniffedFormats env paths)) <= 1)%nat
      /\ exists q e, In q paths /\ parseFileSync env q = Throw e
                     /\ fst (checkConflicts env paths t) = Throw e)
  \/ (Forall (fun p => exists f, detectFormat env p = Normal (Some f)) paths
      /\ (List.length (set_of_list String.eqb (sniffedFormats env paths)) <= 1)%nat
      /\ Forall (fun p => exists r, parseFileSync env p = Normal r) paths
      /\ exists r, fst (checkConflicts env paths t) = Normal r).
Proof.
  destruct (detect_all_or_not env paths) as [(feats & F)|U].
  - right. pose proof (Forall2_recognised env paths feats F) as R.
    rewrite (sniffedFormats_all env paths feats F).
    destruct (Nat.lt_ge_cases 1
                (List.length (set_of_list String.eqb (List.map featureName feats))))
      as [L|L].
    + left. repeat split; try assumption.
      now rewrite (checkConflicts_mismatch env paths feats t F L).
    + right. destruct (parse_all_or_not env paths) as [(results & P)|E].
      * right. repeat split; try assumption.
        -- now apply (Forall2_parsed env paths results).
        -- eexists. now rewrite (checkConflicts_ok env paths feats results t F L P).
      * left. repeat split; try assumption.
        destruct (checkConflicts_parse_error env paths feats t F L E)
          as (q & e & t' & Hq & Eq & Rs).
        exists q, e. repeat split; try assumption. now rewrite Rs.
  - left. destruct (checkConflicts_sniff_failure env paths t U)
      as (q & e & t' & Hq & Dq & R & _).
    exists q, e. repeat split; try assumption. now rewrite R.
Qed.

Lemma Forall_contradicts {A} (P : A -> Prop) (l : list A) x :
  Forall P l -> In x l -> ~ P x -> False.
Proof. intros F I N. rewrite Forall_forall in F. exact (N (F x I)). Qed.

(** C3 (amended). [mergeFiles] catches every failure at its own boundary:
    it always returns a success/failure result, and the failure result
    carries the message of whatever its body threw. [checkConflicts] has no
    such boundary: it returns a result exactly when every file is
    recognised, the recognised formats agree and every file parses; in
    every other case the exception (a file that cannot be sniffed or is
    not recognised, a format mismatch, or the error of the parser) reaches
    the caller. *)
Theorem mergeFiles_catches_checkConflicts_propagates :
  (forall env params t,
      exists res t',
        mergeFiles env params t = (Normal res, t')
        /\ forall e t1, mergeFilesBody env params t = (Throw e, t1) ->
                        res = MergeFailure (errorMessage e))
  /\ (forall env paths t,
        (exists r, fst (checkConflicts env paths t) = Normal r)
        <-> (Forall (fun p => exists f, detectFormat env p = Normal (Some f)) paths
             /\ (List.length (set_of_list String.eqb (sniffedFormats env paths))
                   <= 1)%nat
             /\ Forall (fun p => exists r, parseFileSync env p = Normal r) paths))
  /\ (forall env paths t e,
        fst (checkConflicts env paths t) = Throw e ->
        (exists p, In p paths /\ detectFormat env p = Normal None
                   /\ e = JsError (unrecognizedMessage env p))
        \/ (exists p, In p paths /\ detectFormat env p = Throw e)
        \/ e = JsError (mismatchMessage
                          (set_of_list String.eqb (sniffedFormats env paths)))
        \/ (exists p, In p paths /\ parseFileSync env p = Throw e)).
Proof.
  split; [|split].
  - intros env params t.
    destruct (mergeFiles_result env params t) as (res & t' & R & B).
    exists res, t'. split; [assumption|]. intros e t1 H. now apply (B e t1).
  - intros env paths t.
    destruct (checkConflicts_cases env paths t)
      as [(q & e & Hq & Dq & R)|[(Rc & L & R)|[(Rc & L & q & e & Hq & Eq & R)
                                               |(Rc & L & P & r & R)]]].
    + split.
      * intros (r & Hr). congruence.
      * intros (Rc & _). exfalso.
        apply (Forall_contradicts _ paths q Rc Hq).
        intros (f & Hf). destruct Dq as [[Dq _]|Dq]; congruence.
    + split.
      * intros (r & Hr). congruence.
      * intros (_ & L' & _). lia.
    + split.
      * intros (r & Hr). congruence.
      * intros (_ & _ & P). exfalso.
        apply (Forall_contradicts _ paths q P Hq). intros (r & Hr). congruence.
    + split; [auto | intros _; now exists r].
  - intros env paths t e He.
    destruct (checkConflicts_cases env paths t)
      as [(q & e' & Hq & Dq & R)|[(Rc & L & R)|[(Rc & L & q & e' & Hq & Eq & R)
                                                |(Rc & L & P & r & R)]]].
    + assert (e' = e) by congruence. subst e'.
      destruct Dq as [[Dq ->]|Dq].
      * left. now exists q.
      * right. left. now exists q.
    + right. right. left. congruence.
    + right. right. right. exists q. split; [assumption|]. congruence.
    + congruence.
Qed.

Lemma mergeFiles_catches_checkConflicts_propagates_witness :
  fst (checkConflicts sampleEnv ["x.bin"] [])
  = Throw (JsError "无法识别文件格式: x.bin")
  /\ ((exists p, In p ["x.bin"] /\ detectFormat sampleEnv p = Normal None
                 /\ JsError "无法识别文件格式: x.bin"
                    = JsError (unrecognizedMessage sampleEnv p))
      \/ (exists p, In p ["x.bin"]
                    /\ detectFormat sampleEnv p
                       = Throw (JsError "无法识别文件格式: x.bin"))
      \/ JsError "无法识别文件格式: x.bin"
         = JsError (mismatchMessage
                      (set_of_list String.eqb (sniffedFormats sampleEnv ["x.bin"])))
      \/ (exists p, In p ["x.bin"]
                    /\ parseFileSync sampleEnv p
                       = Throw (JsError "无法识别文件格式: x.bin"))).
Proof.
  split; [reflexivity|].
  apply (proj2 (proj2 mergeFiles_catches_checkConflicts_propagates)
           sampleEnv ["x.bin"] []).
  reflexivity.
Defined.

(** C3, as stated, fails: on a file that the sniffer does not recognise
    [checkConflicts] throws instead of returning a result. *)
Lemma checkConflicts_throws_on_unrecognised_file :
  checkConflicts sampleEnv ["x.bin"] []
  = (Throw (JsError "无法识别文件格式: x.bin"), [CallDetect "x.bin"])
  /\ ~ (forall env paths t,
          exists r t', checkConflicts env paths t = (Normal r, t')).
Proof.
  split; [reflexivity|].
  intros H. destruct (H sampleEnv ["x.bin"] []) as (r & t' & E).
  vm_compute in E. discriminate E.
Qed.

(** ** Format mismatch *)

Lemma two_distinct_length {A} (l : list A) x y :
  In x l -> In y l -> x <> y -> (1 < List.length l)%nat.
Proof.
  destruct l as [|a [|b l]]; simpl; intros Hx Hy N.
  - contradiction.
  - destruct Hx as [<-|[]], Hy as [<-|[]]. congruence.
  - lia.
Qed.

(** C4. If every input file of [checkConflicts] sniffs to a format and two
    of these formats differ, the operation fails with an error whose message
    names every format found, and the only calls made are the sniffs: no
    file is parsed. *)
Theorem checkConflicts_format_mismatch :
  forall env paths feats t,
    Forall2 (fun p f => detectFormat env p = Normal (Some f)) paths feats ->
    (exists f1 f2, In f1 feats /\ In f2 feats
                   /\ featureName f1 <> featureName f2) ->
    exists message,
      checkConflicts env paths t
      = (Throw (JsError message), (t ++ List.map CallDetect paths)%list)
      /\ (forall f, In f feats -> includes (featureName f) message = true)
      /\ (forall p, ~ In (CallParse p) (List.map CallDetect paths)).
Proof.
  intros env paths feats t F (f1 & f2 & H1 & H2 & N).
  set (names := set_of_list String.eqb (List.map featureName feats)).
  assert (L : (1 < List.length names)%nat).
  { apply (two_distinct_length names (featureName f1) (featureName f2)).
    - apply (set_of_list_In String.eqb String.eqb_eq). now apply in_map.
    - apply (set_of_list_In String.eqb String.eqb_eq). now apply in_map.
    - assumption. }
  exists (mismatchMessage names). split; [|split].
  - now apply checkConflicts_mismatch.
  - intros f Hf.
    assert (Hn : In (featureName f) names).
    { apply (set_of_list_In String.eqb String.eqb_eq). now apply in_map. }
    destruct (includes_join "、" (featureName f) names Hn) as (b & a & E).
    unfold mismatchMessage. rewrite E.
    rewrite <- !append_assoc.
    rewrite (append_assoc _ (featureName f) a).
    rewrite !append_assoc.
    match goal with
    | |- includes ?n (?x ++ ?y ++ ?z ++ ?b ++ ?n ++ ?rest) = true =>
        rewrite <- (append_assoc z b), <- (append_assoc y (z ++ b)),
          <- (append_assoc x (y ++ z ++ b))
    end.
    apply includes_append.
  - intros p H. apply in_map_iff in H. destruct H as (q & [=] & _).
Qed.

Lemma checkConflicts_format_mismatch_witness :
  Forall2 (fun p f => detectFormat sampleEnv p = Normal (Some f))
    ["a.json"; "c.json"] [alpha; beta]
  /\ (exists f1 f2, In f1 [alpha; beta] /\ In f2 [alpha; beta]
                    /\ featureName f1 <> featureName f2)
  /\ exists message,
       checkConflicts sampleEnv ["a.json"; "c.json"] []
       = (Throw (JsError message),
          ([] ++ List.map CallDetect ["a.json"; "c.json"])%list)
       /\ (forall f, In f [alpha; beta] -> includes (featureName f) message = true)
       /\ (forall p, ~ In (CallParse p) (List.map CallDetect ["a.json"; "c.json"])).
Proof.
  assert (F : Forall2 (fun p f => detectFormat sampleEnv p = Normal (Some f))
                ["a.json"; "c.json"] [alpha; beta]).
  { repeat constructor. }
  assert (D : exists f1 f2, In f1 [alpha; beta] /\ In f2 [alpha; beta]
                            /\ featureName f1 <> featureName f2).
  { exists alpha, beta. repeat split; simpl; auto. discriminate. }
  split; [exact F|]. split; [exact D|].
  apply (checkConflicts_format_mismatch sampleEnv ["a.json"; "c.json"]
           [alpha; beta] [] F D).
Defined.

(** ** Merging a file with itself *)

Lemma fold_add_firstOccurrences {A K} (keq : K -> K -> bool) (key : A -> K) :
  (forall a b, keq a b = true <-> a = b) ->
  forall l seen,
    fold_left (fun s k => set_add keq k s) (List.map key l) seen
    = (seen ++ List.map key (firstOccurrences keq key seen l))%list.
Proof.
  intros Hk. induction l as [|a l IH]; intros seen; cbn [List.map fold_left firstOccurrences].
  - now rewrite List.app_nil_r.
  - destruct (In_or_not keq Hk (key a) seen) as [H|H].
    + rewrite (set_add_present keq Hk _ _ H).
      rewrite (proj2 (set_has_In keq Hk _ _) H). apply IH.
    + rewrite (set_add_absent keq Hk _ _ H).
      rewrite (set_has_notin keq Hk _ _ H). rewrite IH.
      cbn [List.map]. now rewrite <- List.app_assoc.
Qed.

Lemma distinct_keys_count (msgs : list ParsedMessage) :
  List.length (set_of_list String.eqb (List.map getMessageKey msgs))
  = List.length (firstOccurrences fingerprint_eqb fingerprint [] msgs).
Proof.
  unfold set_of_list.
  rewrite (fold_add_firstOccurrences String.eqb getMessageKey String.eqb_eq msgs []).
  cbn [List.app]. rewrite List.length_map.
  pose proof (firstOccurrences_change_key String.eqb fingerprint_eqb
                getMessageKey fingerprint string_eqb_spec fingerprint_eqb_spec
                getMessageKey_fingerprint msgs []) as E.
  cbn [List.map] in E. now rewrite E.
Qed.

Lemma NoDup_map_change {A B C} (f : A -> B) (g : A -> C) (l : list A) :
  (forall x y, f x = f y <-> g x = g y) ->
  NoDup (List.map f l) -> NoDup (List.map g l).
Proof.
  intros H. induction l as [|a l IH]; simpl; intros N; [constructor|].
  inversion N as [|? ? Hn N']; subst. constructor; [|now apply IH].
  intros Hin. apply Hn. apply in_map_iff in Hin. destruct Hin as (y & E & Hy).
  apply in_map_iff. exists y. split; [now apply H | assumption].
Qed.

Lemma keys_of_items (b : string) (msgs : list ParsedMessage) :
  List.map (fun it => getMessageKey (msg it)) (List.map (fun m => mkItem m b) msgs)
  = List.map getMessageKey msgs.
Proof. rewrite List.map_map. reflexivity. Qed.

Lemma msgs_of_items (b : string) (msgs : list ParsedMessage) :
  List.map msg (List.map (fun m => mkItem m b) msgs) = msgs.
Proof. rewrite List.map_map. apply List.map_id. Qed.

(** C5 (amended). For every recognised file [f] that parses, the
    conflict check over [[f; f]] succeeds and its total is the number of
    distinct fingerprints among the messages of [f]; the merged list of
    [[f; f]] has the same length. The total is the number of messages
    parsed from [f] exactly when no two messages of [f] share a
    fingerprint. *)
Theorem self_merge_counts_distinct_fingerprints :
  forall env f fmt res rs t,
    detectFormat env f = Normal (Some fmt) ->
    parseFileSync env f = Normal res ->
    exists r t',
      checkConflicts env [f; f] t = (Normal r, t')
      /\ totalMessages r
         = List.length (firstOccurrences fingerprint_eqb fingerprint []
                          (messages res))
      /\ (totalMessages r = List.length (messages res)
          <-> NoDup (List.map fingerprint (messages res)))
      /\ List.length
           (mergedMessages rs
              (collectMessages [(res, basename env f); (res, basename env f)]))
         = totalMessages r.
Proof.
  intros env f fmt res rs t D P.
  assert (F : Forall2 (fun p ft => detectFormat env p = Normal (Some ft))
                [f; f] [fmt; fmt])
    by (repeat constructor; assumption).
  assert (Pr : Forall2 (fun p r => parseFileSync env p = Normal r) [f; f] [res; res])
    by (repeat constructor; assumption).
  assert (L : (List.length (set_of_list String.eqb
                              (List.map featureName [fmt; fmt])) <= 1)%nat).
  { cbn. rewrite String.eqb_refl. cbn. lia. }
  pose proof (checkConflicts_ok env [f; f] [fmt; fmt] [res; res] t F L Pr) as R.
  cbn zeta in R. cbn [List.combine List.map List.concat fst snd] in R.
  rewrite List.app_nil_r in R.
  eexists. eexists. split; [exact R|]. cbn [totalMessages].
  set (items := List.map (fun m => mkItem m (basename env f)) (messages res)).
  assert (U : List.length (uniqueKeys (items ++ items))
              = List.length (set_of_list String.eqb
                               (List.map getMessageKey (messages res)))).
  { unfold uniqueKeys. rewrite List.map_app. unfold items.
    rewrite keys_of_items.
    now rewrite (set_of_list_twice String.eqb String.eqb_eq). }
  rewrite U. split; [apply distinct_keys_count|]. split.
  - rewrite <- (List.length_map getMessageKey (messages res)).
    rewrite (proj2 (set_of_list_length String.eqb String.eqb_eq
                      (List.map getMessageKey (messages res)))).
    split; apply NoDup_map_change; intros x y;
      [apply getMessageKey_fingerprint | symmetry; apply getMessageKey_fingerprint].
  - rewrite mergedMessages_spec.
    rewrite <- (Permutation_length (sortByTimestamp_perm _)).
    rewrite List.length_map.
    unfold collectMessages. cbn [List.map List.concat fst snd].
    rewrite List.app_nil_r. fold items.
    rewrite <- distinct_keys_count.
    rewrite List.map_app. unfold items. rewrite msgs_of_items.
    rewrite List.map_app.
    now rewrite (set_of_list_twice String.eqb String.eqb_eq).
Qed.

Lemma self_merge_counts_distinct_fingerprints_witness :
  detectFormat sampleEnv "b.json" = Normal (Some alpha)
  /\ parseFileSync sampleEnv "b.json" = Normal exportB
  /\ exists r t',
       checkConflicts sampleEnv ["b.json"; "b.json"] [] = (Normal r, t')
       /\ totalMessages r
          = List.length (firstOccurrences fingerprint_eqb fingerprint []
                           (messages exportB))
       /\ (totalMessages r = List.length (messages exportB)
           <-> NoDup (List.map fingerprint (messages exportB)))
       /\ List.length
            (mergedMessages []
               (collectMessages [(exportB, basename sampleEnv "b.json");
                                 (exportB, basename sampleEnv "b.json")]))
          = totalMessages r.
Proof.
  split; [reflexivity|]. split; [reflexivity|].
  apply (self_merge_counts_distinct_fingerprints sampleEnv "b.json" alpha
           exportB [] []); reflexivity.
Defined.

(** C5, as stated, fails: "a.json" holds three messages, two of them with
    the same fingerprint, and the conflict check over the file and itself
    counts two. *)
Lemma self_merge_total_below_parse_count :
  (detectFormat sampleEnv "a.json" = Normal (Some alpha)
   /\ parseFileSync sampleEnv "a.json" = Normal exportA
   /\ List.length (messages exportA) = 3%nat
   /\ checkConflicts sampleEnv ["a.json"; "a.json"] []
      = (Normal {| conflicts := []; totalMessages := 2 |},
         [CallDetect "a.json"; CallDetect "a.json";
          CallParse "a.json"; CallParse "a.json"]))
  /\ ~ (forall env f fmt res r t t',
          detectFormat env f = Normal (Some fmt) ->
          parseFileSync env f = Normal res ->
          checkConflicts env [f; f] t = (Normal r, t') ->
          totalMessages r = List.length (messages res)).
Proof.
  split; [repeat split|].
  intros H.
  specialize (H sampleEnv "a.json" alpha exportA
                {| conflicts := []; totalMessages := 2 |} []
                [CallDetect "a.json"; CallDetect "a.json";
                 CallParse "a.json"; CallParse "a.json"]
                eq_refl eq_refl eq_refl).
  discriminate H.
Qed.

End MergerSpec.



(* ===================================================================== *)
(** * Properties of the streaming parsers and of message order *)
(* ===================================================================== *)

Module ParserSpec.
Import Merger Parser MapFacts MergerFacts TraceFacts ParserFacts Samples.

Lemma toParseResult_timestamps data :
  List.map timestamp (messages (toParseResult data))
  = List.map clTimestamp (clMessages data).
Proof. unfold toParseResult. cbn [messages]. now rewrite List.map_map. Qed.

(** C2 (amended). The merged message list that [mergeFiles] writes, and
    the one it hands to the session store, is non-decreasing by time stamp.
    A streaming parser does not sort: when the pipeline ends without error,
    the concatenation of the message batches it yields is the kept records
    of the file in file order. *)
Theorem merged_sorted_parser_in_file_order :
  (forall env params res t',
      mergeFiles env params [] = (res, t') ->
      (forall path data,
          In (CallWrite path data) t' ->
          Sorted Z.le (List.map clTimestamp (clMessages data)))
      /\ (forall imported,
            In (CallImport imported) t' ->
            Sorted Z.le (List.map timestamp (messages imported))))
  /\ (forall (T C : Type) (parseTimestamp : T -> option Z)
             (isValidYear : Z -> bool) (typeOfCode : option C -> MessageType)
             (batchSize : nat) (f : SourceFile (RawMessage T C)),
        (0 < batchSize)%nat ->
        pipelineError f = None ->
        emittedMessages (fst (parse parseTimestamp isValidYear typeOfCode batchSize f))
        = keptMessages parseTimestamp isValidYear typeOfCode (records f))
  /\ (forall (T C : Type) (parseTimestamp : T -> option Z)
             (isValidYear : Z -> bool) (typeOfCode : option C -> MessageType)
             (batchSize : nat) (f : SourceFile (RawMessage T C)),
        (0 < batchSize)%nat ->
        pipelineError f = None ->
        (Sorted Z.le
           (List.map timestamp
              (emittedMessages
                 (fst (parse parseTimestamp isValidYear typeOfCode batchSize f))))
         <-> Sorted Z.le
               (List.map timestamp
                  (keptMessages parseTimestamp isValidYear typeOfCode (records f))))).
Proof.
  split; [|split].
  - intros env params res t' R. split.
    + intros path data W.
      destruct (mergeFiles_writes env params res t' path data R W) as (prs & _ & B).
      rewrite (MergerSpec.buildChatLab_messages env params prs data B).
      apply sortByTimestamp_sorted.
    + intros imported I.
      destruct (mergeFiles_imports env params res t' imported R I)
        as (prs & data & _ & B & ->).
      rewrite toParseResult_timestamps.
      rewrite (MergerSpec.buildChatLab_messages env params prs data B).
      apply sortByTimestamp_sorted.
  - intros. now apply emitted_of_parse.
  - intros. rewrite emitted_of_parse by assumption. reflexivity.
Qed.

Lemma merged_sorted_parser_in_file_order_witness :
  (mergeFiles sampleEnv sampleParams []
   = (Normal (MergeSuccess samplePath (Some "session_1")), sampleTrace)
   /\ In (CallWrite samplePath sampleArchive) sampleTrace
   /\ Sorted Z.le (List.map clTimestamp (clMessages sampleArchive)))
  /\ ((0 < 1)%nat
      /\ pipelineError legacyFile = None
      /\ emittedMessages
           (fst (parse Utils.parseTimestamp (Utils.isValidYear 0)
                   legacyTypeOfCode 1 legacyFile))
         = keptMessages Utils.parseTimestamp (Utils.isValidYear 0)
             legacyTypeOfCode (records legacyFile)).
Proof.
  split.
  - split; [vm_compute; reflexivity|].
    split; [right; right; left; reflexivity|].
    apply (proj1 (proj1 merged_sorted_parser_in_file_order sampleEnv sampleParams
                    (Normal (MergeSuccess samplePath (Some "session_1")))
                    sampleTrace ltac:(vm_compute; reflexivity))
             samplePath sampleArchive).
    right; right; left; reflexivity.
  - split; [lia|]. split; [reflexivity|].
    apply (proj1 (proj2 merged_sorted_parser_in_file_order)); [lia | reflexivity].
Defined.

(** C2, as stated, fails for the parsers: the legacy parser yields the
    record of 2023 before the record of 2020, as they stand in the file. *)
Lemma parser_batches_not_sorted :
  List.map timestamp
    (emittedMessages
       (fst (parseLegacy Utils.parseTimestamp (Utils.isValidYear 0) None legacyFile)))
  = [1700000000; 1600000000]
  /\ ~ Sorted Z.le
       (List.map timestamp
          (emittedMessages
             (fst (parseLegacy Utils.parseTimestamp (Utils.isValidYear 0) None
                     legacyFile)))).
Proof.
  assert (E : List.map timestamp
                (emittedMessages
                   (fst (parseLegacy Utils.parseTimestamp (Utils.isValidYear 0)
                           None legacyFile)))
              = [1700000000; 1600000000]) by (vm_compute; reflexivity).
  split; [exact E|]. rewrite E. intros S.
  inversion S as [|? ? _ Hd]; subst. inversion Hd; subst. lia.
Qed.

(** ** Dropped records *)

Lemma last_two {A} (l : list A) (a b d : A) : last (l ++ [a; b]) d = b.
Proof.
  induction l as [|x l IH]; [reflexivity|].
  cbn [List.app]. destruct (l ++ [a; b])%list eqn:E; [|exact IH].
  destruct l; discriminate.
Qed.

Lemma isValidYear_before_2000 tz t :
  DateTime.getFullYear tz (t * 1000) < 2000 -> Utils.isValidYear tz t = false.
Proof. unfold Utils.isValidYear. intros H. now apply Z.leb_gt. Qed.

(** C6. A record whose sender identifier cannot be resolved, or whose
    resolved time stamp lies in a year before 2000, yields no message and
    no error: when the pipeline ends without error the parse completes with
    its [done] event, and the messages it yields are those of the records
    before and after the dropped one, all of them processed. This holds for
    both formats and for every [isValidYear] that rejects the years before
    2000. *)
Theorem invalid_record_dropped_silently :
  forall (tz : Z) (T C : Type) (parseTimestamp : T -> option Z)
         (isValidYear : Z -> bool) (typeOfCode : option C -> MessageType)
         (batchSize : nat) (f : SourceFile (RawMessage T C))
         (before after : list (RawMessage T C)) (bad : RawMessage T C),
    (forall t, DateTime.getFullYear tz (t * 1000) < 2000 ->
               isValidYear t = false) ->
    (0 < batchSize)%nat ->
    pipelineError f = None ->
    records f = (before ++ bad :: after)%list ->
    (resolveSender (rawSender bad) = None
     \/ exists t, parseTimestamp (rawTimestamp bad) = Some t
                  /\ DateTime.getFullYear tz (t * 1000) < 2000) ->
    let kept := keptMessages parseTimestamp isValidYear typeOfCode in
    let result := parse parseTimestamp isValidYear typeOfCode batchSize f in
    (forall members,
        snd (processMessage parseTimestamp isValidYear typeOfCode members bad)
        = None)
    /\ snd result = None
    /\ emittedMessages (fst result) = (kept before ++ kept after)%list
    /\ exists memberCount,
         last (fst result) (EvMeta (parseMeta f))
         = EvDone (List.length (kept before) + List.length (kept after)) memberCount.
Proof.
  intros tz T C parseTimestamp isValidYear typeOfCode batchSize f before after bad
         Hy Hb He Hr Hbad kept result.
  assert (D : keptMessage parseTimestamp isValidYear typeOfCode bad = None).
  { destruct Hbad as [U|(t & Pt & Y)].
    - now apply keptMessage_unresolved.
    - apply (keptMessage_invalid _ _ _ _ t Pt). now apply Hy. }
  assert (K : keptMessages parseTimestamp isValidYear typeOfCode (records f)
              = (kept before ++ kept after)%list).
  { rewrite Hr. unfold kept. rewrite keptMessages_app.
    change (bad :: after) with ([bad] ++ after)%list.
    rewrite keptMessages_app. unfold keptMessages at 2. cbn [flat_map].
    rewrite D. reflexivity. }
  destruct (parse_events parseTimestamp isValidYear typeOfCode
              batchSize f Hb He) as (bs & P & Cc & Pc & _).
  cbn zeta in P, Pc. split; [|split; [|split]].
  - intros members. now rewrite processMessage_message.
  - unfold result. now rewrite P.
  - unfold result. rewrite emitted_of_parse by assumption. exact K.
  - eexists. unfold result. rewrite P. cbn [fst].
    rewrite !List.app_assoc. rewrite last_two.
    rewrite Pc, K, List.length_app. reflexivity.
Qed.

Lemma invalid_record_dropped_silently_witness :
  (forall t, DateTime.getFullYear 0 (t * 1000) < 2000 ->
             Utils.isValidYear 0 t = false)
  /\ (0 < 1)%nat
  /\ pipelineError legacyFile = None
  /\ records legacyFile
     = ([record2023] ++ record1999 :: [recordNoSender; record2020])%list
  /\ (resolveSender (rawSender record1999) = None
      \/ exists t, Utils.parseTimestamp (rawTimestamp record1999) = Some t
                   /\ DateTime.getFullYear 0 (t * 1000) < 2000)
  /\ let kept := keptMessages Utils.parseTimestamp (Utils.isValidYear 0)
                   legacyTypeOfCode in
     let result := parse Utils.parseTimestamp (Utils.isValidYear 0)
                     legacyTypeOfCode 1 legacyFile in
     (forall members,
         snd (processMessage Utils.parseTimestamp (Utils.isValidYear 0)
                legacyTypeOfCode members record1999) = None)
     /\ snd result = None
     /\ emittedMessages (fst result)
        = (kept [record2023] ++ kept [recordNoSender; record2020])%list
     /\ exists memberCount,
          last (fst result) (EvMeta (parseMeta legacyFile))
          = EvDone (List.length (kept [record2023])
                    + List.length (kept [recordNoSender; record2020])) memberCount.
Proof.
  assert (Y : resolveSender (rawSender record1999) = None
              \/ exists t, Utils.parseTimestamp (rawTimestamp record1999) = Some t
                           /\ DateTime.getFullYear 0 (t * 1000) < 2000).
  { right. exists 930000000. split; [reflexivity | vm_compute; reflexivity]. }
  split; [exact (isValidYear_before_2000 0)|].
  split; [lia|]. split; [reflexivity|]. split; [reflexivity|]. split; [exact Y|].
  apply (invalid_record_dropped_silently 0 Z string Utils.parseTimestamp
           (Utils.isValidYear 0) legacyTypeOfCode
           1 legacyFile [record2023] [recordNoSender; record2020] record1999);
    [exact (isValidYear_before_2000 0) | lia | reflexivity | reflexivity | exact Y].
Defined.

(** ** Members of dropped records *)

(** C10. A record with a resolvable sender registers the sender in the
    member map before its time stamp is checked. Hence, when a file holds
    a record with a resolvable sender and a time stamp in a year before
    2000, and no other record of that sender is kept, the sender is in the
    [members] event and counted in [memberCount] of the [done] event,
    although no yielded message carries it. This holds for both formats and
    for every [isValidYear] that rejects the years before 2000. *)
Theorem dropped_record_still_registers_sender :
  forall (tz : Z) (T C : Type) (parseTimestamp : T -> option Z)
         (isValidYear : Z -> bool) (typeOfCode : option C -> MessageType)
         (batchSize : nat) (f : SourceFile (RawMessage T C))
         (before after : list (RawMessage T C)) (r : RawMessage T C)
         (pid : string),
    (forall t, DateTime.getFullYear tz (t * 1000) < 2000 ->
               isValidYear t = false) ->
    (0 < batchSize)%nat ->
    pipelineError f = None ->
    records f = (before ++ r :: after)%list ->
    resolveSender (rawSender r) = Some pid ->
    (exists t, parseTimestamp (rawTimestamp r) = Some t
               /\ DateTime.getFullYear tz (t * 1000) < 2000) ->
    (forall r', In r' (before ++ after)%list ->
                resolveSender (rawSender r') = Some pid ->
                keptMessage parseTimestamp isValidYear typeOfCode r' = None) ->
    let events :=
      fst (parse parseTimestamp isValidYear typeOfCode batchSize f) in
    (forall members,
        processMessage parseTimestamp isValidYear typeOfCode members r
        = (map_set String.eqb pid
             (mkMember pid (orElseName (rawName (rawSender r)) pid)) members,
           None))
    /\ exists ms messageCount,
         In (EvMembers ms) events
         /\ In pid (List.map platformId ms)
         /\ NoDup (List.map platformId ms)
         /\ In (EvDone messageCount (List.length ms)) events
         /\ forall m, In m (emittedMessages events) -> senderPlatformId m <> pid.
Proof.
  intros tz T C parseTimestamp isValidYear typeOfCode batchSize f before after r pid
         Hy Hb He Hr Hs (t & Pt & Y) Hothers events.
  assert (D : keptMessage parseTimestamp isValidYear typeOfCode r = None).
  { apply (keptMessage_invalid _ _ _ _ t Pt). now apply Hy. }
  split.
  - intros members.
    pose proof (processMessage_members parseTimestamp isValidYear
                  typeOfCode members r) as M.
    pose proof (processMessage_message parseTimestamp isValidYear
                  typeOfCode members r) as S.
    rewrite Hs in M. rewrite D in S.
    destruct (processMessage parseTimestamp isValidYear typeOfCode
                members r) as [mm o].
    cbn [fst snd] in M, S. now subst.
  - destruct (parse_events parseTimestamp isValidYear typeOfCode
                batchSize f Hb He) as (bs & P & Cc & Pc & Mm).
    cbn zeta in P, Pc, Mm.
    set (st := onEnd (fold_left (onData parseTimestamp isValidYear
                                   typeOfCode batchSize) (records f) initialState))
      in *.
    destruct (members_fold_wf parseTimestamp isValidYear typeOfCode
                (records f) [] (NoDup_nil _) eq_refl) as [N W].
    cbn zeta in N, W. rewrite <- Mm in N, W.
    assert (Em : emittedMessages events
                 = keptMessages parseTimestamp isValidYear typeOfCode (records f))
      by (apply emitted_of_parse; assumption).
    assert (Ev : events
                 = ([ EvProgress (mkProgress StageParsing 0 (fileSize f) 0 "开始解析...");
                      EvMeta (parseMeta f) ]
                      ++ [EvMembers (map_values (memberMap st))]
                      ++ List.map EvMessages bs
                      ++ [ EvProgress (mkProgress StageDone (fileSize f) (fileSize f)
                                         (processed st) "解析完成");
                           EvDone (processed st) (map_size (memberMap st)) ])%list)
      by (unfold events; rewrite P; reflexivity).
    exists (map_values (memberMap st)), (processed st).
    repeat split.
    + rewrite Ev. apply in_or_app. right. apply in_or_app. left. now left.
    + rewrite W, Mm. apply members_fold_keys. right. exists r.
      split; [|assumption]. rewrite Hr. apply in_or_app. right. now left.
    + now rewrite W.
    + rewrite Ev. apply in_or_app. right. apply in_or_app. right.
      apply in_or_app. right.
      right. left. unfold map_size, map_values. now rewrite List.length_map.
    + intros m Hm E. rewrite Em in Hm.
      apply keptMessages_In in Hm. destruct Hm as (r' & Hr' & K).
      pose proof (keptMessage_sender _ _ _ _ _ K) as Sr. rewrite E in Sr.
      rewrite Hr in Hr'. apply in_app_or in Hr'.
      destruct Hr' as [Hin|[<-|Hin]].
      * rewrite (Hothers r') in K; [discriminate | apply in_or_app; now left | assumption].
      * congruence.
      * rewrite (Hothers r') in K; [discriminate | apply in_or_app; now right | assumption].
Qed.

Lemma dropped_record_still_registers_sender_witness :
  (forall t, DateTime.getFullYear 0 (t * 1000) < 2000 ->
             Utils.isValidYear 0 t = false)
  /\ (0 < 1)%nat
  /\ pipelineError legacyFile = None
  /\ records legacyFile
     = ([record2023] ++ record1999 :: [recordNoSender; record2020])%list
  /\ resolveSender (rawSender record1999) = Some "1002"
  /\ (exists t, Utils.parseTimestamp (rawTimestamp record1999) = Some t
                /\ DateTime.getFullYear 0 (t * 1000) < 2000)
  /\ (forall r', In r' ([record2023] ++ [recordNoSender; record2020])%list ->
                 resolveSender (rawSender r') = Some "1002" ->
                 keptMessage Utils.parseTimestamp (Utils.isValidYear 0)
                   legacyTypeOfCode r' = None)
  /\ let events :=
       fst (parse Utils.parseTimestamp (Utils.isValidYear 0) legacyTypeOfCode 1
              legacyFile) in
     (forall members,
         processMessage Utils.parseTimestamp (Utils.isValidYear 0)
           legacyTypeOfCode members record1999
         = (map_set String.eqb "1002"
              (mkMember "1002"
                 (orElseName (rawName (rawSender record1999)) "1002")) members,
            None))
     /\ exists ms messageCount,
          In (EvMembers ms) events
          /\ In "1002" (List.map platformId ms)
          /\ NoDup (List.map platformId ms)
          /\ In (EvDone messageCount (List.length ms)) events
          /\ forall m, In m (emittedMessages events) -> senderPlatformId m <> "1002".
Proof.
  assert (Y : exists t, Utils.parseTimestamp (rawTimestamp record1999) = Some t
                        /\ DateTime.getFullYear 0 (t * 1000) < 2000).
  { exists 930000000. split; [reflexivity | vm_compute; reflexivity]. }
  assert (O : forall r', In r' ([record2023] ++ [recordNoSender; record2020])%list ->
                         resolveSender (rawSender r') = Some "1002" ->
                         keptMessage Utils.parseTimestamp (Utils.isValidYear 0)
                           legacyTypeOfCode r' = None).
  { intros r' [<-|[<-|[<-|[]]]]; vm_compute; intros [=]. }
  split; [exact (isValidYear_before_2000 0)|].
  split; [lia|]. split; [reflexivity|]. split; [reflexivity|].
  split; [reflexivity|]. split; [exact Y|]. split; [exact O|].
  apply (dropped_record_still_registers_sender 0 Z string Utils.parseTimestamp
           (Utils.isValidYear 0) legacyTypeOfCode 1 legacyFile [record2023]
           [recordNoSender; record2020] record1999 "1002");
    [exact (isValidYear_before_2000 0) | lia | reflexivity | reflexivity
     | reflexivity | exact Y | exact O].
Defined.

End ParserSpec.



(* ===================================================================== *)
(** * Properties of the analytics *)
(* ===================================================================== *)

Module AnalysisSpec.
Import Analysis MapFacts Samples.

(** ** Repeat chains *)

Lemma noteMember_chain st r :
  repeatChain (noteMember st r) = repeatChain st
  /\ currentContent (noteMember st r) = currentContent st.
Proof. split; reflexivity. Qed.

Lemma sameContent_spec content cur :
  sameContent content cur = true <-> cur = Some content.
Proof.
  destruct cur as [c|]; simpl.
  - rewrite String.eqb_eq. split; [now intros -> | now intros [= ->]].
  - split; discriminate.
Qed.

Lemma repeatStep_chain trim st r :
  repeatChain (repeatStep trim st r)
  = if sameContent (trim (rowContent r)) (currentContent st)
    then match lastSender (repeatChain st) with
         | Some s =>
             if s =? rowSender r then repeatChain st
             else (repeatChain st
                     ++ [mkEntry (rowSender r) (trim (rowContent r)) (rowTs r)])%list
         | None =>
             (repeatChain st
                ++ [mkEntry (rowSender r) (trim (rowContent r)) (rowTs r)])%list
         end
    else [mkEntry (rowSender r) (trim (rowContent r)) (rowTs r)].
Proof.
  unfold repeatStep.
  change (currentContent (noteMember st r)) with (currentContent st).
  change (repeatChain (noteMember st r)) with (repeatChain st).
  destruct (sameContent (trim (rowContent r)) (currentContent st)); [|reflexivity].
  destruct (lastSender (repeatChain st)) as [s|]; [|reflexivity].
  destruct (s =? rowSender r); reflexivity.
Qed.

Lemma app_one_longer {A} (l : list A) (e : A) : (l ++ [e])%list <> l.
Proof.
  intros H. apply (f_equal (@List.length A)) in H.
  rewrite List.length_app in H. simpl in H. lia.
Qed.

(** Evaluation of a scan on rows whose senders are variables: one step at
    a time, the comparisons of senders rewritten with [facts]. *)
Ltac settle_in E facts :=
  do 3 (lazy -[Z.eqb] in E; rewrite ?Z.eqb_refl in E; facts E).

Ltac settle_goal facts :=
  do 3 (lazy -[Z.eqb]; rewrite ?Z.eqb_refl; facts).

Ltac repeat_step facts :=
  match goal with
  | |- context [repeatStep ?t (mkRepeatState ?a ?b ?c ?d ?e ?f ?g ?h ?i ?j ?k) ?r] =>
      let s := fresh "s" in
      let E := fresh "E" in
      remember (repeatStep t (mkRepeatState a b c d e f g h i j k) r) as s eqn:E;
      settle_in E facts; subst s
  end.

Ltac mono_step facts :=
  match goal with
  | |- context [monoStep (mkMonoState ?a ?b ?c ?d) ?r] =>
      let s := fresh "s" in
      let E := fresh "E" in
      remember (monoStep (mkMonoState a b c d) r) as s eqn:E;
      settle_in E facts; subst s
  end.

(** C7. In the repeat-chain scan an entry is appended to the current chain
    exactly when the trimmed content of the new message is the current
    content and its sender is not the sender of the last entry; a chain of
    fewer than three entries gives no credit. For [A:hi, B:hi, A:hi] the
    chain is [A; B; A], with originator A and initiator B; for
    [A:hi, A:hi, B:hi] the second A does not extend the chain, which stops
    at [A; B], and the analysis has no ranked entry. The rule holds
    whatever [String.prototype.trim] removes ([trim] is universally
    quantified); the examples use of it only that it leaves [hi] as it
    is. *)
Theorem repeat_chain_rule :
  forall trim : string -> string,
  (forall st r,
      repeatChain st <> [] ->
      ((exists e, repeatChain (repeatStep trim st r) = (repeatChain st ++ [e])%list)
       <-> (currentContent st = Some (trim (rowContent r))
            /\ lastSender (repeatChain st) <> Some (rowSender r))))
  /\ (forall st r,
        currentContent st = Some (trim (rowContent r)) ->
        lastSender (repeatChain st) <> Some (rowSender r) ->
        repeatChain (repeatStep trim st r)
        = (repeatChain st
             ++ [mkEntry (rowSender r) (trim (rowContent r)) (rowTs r)])%list)
  /\ (forall chain breakerId st,
        (List.length chain < 3)%nat ->
        processRepeatChain chain breakerId st = st)
  /\ (forall A B t1 t2 t3,
        trim "hi" = "hi" ->
        A <> B ->
        let rows := [repeatRow A "hi" t1; repeatRow B "hi" t2; repeatRow A "hi" t3] in
        List.map entrySender (repeatChain (scanRepeats trim rows)) = [A; B; A]
        /\ getRepeatAnalysis trim (Some rows)
           = {| originators := [mkRankItem A "p" "n" 1];
                initiators := [mkRankItem B "p" "n" 1];
                breakers := [];
                chainLengthDistribution := [(3%nat, 1%nat)];
                hotContents := [mkHot "hi" 1 3 "n" t1];
                resultTotalRepeatChains := 1 |})
  /\ (forall A B t1 t2 t3,
        trim "hi" = "hi" ->
        A <> B ->
        let rows := [repeatRow A "hi" t1; repeatRow A "hi" t2; repeatRow B "hi" t3] in
        List.map entrySender (repeatChain (scanRepeats trim rows)) = [A; B]
        /\ getRepeatAnalysis trim (Some rows) = emptyRepeatAnalysis).
Proof.
  intros trim.
  split; [|split; [|split; [|split]]].
  - intros st r Hne. rewrite repeatStep_chain. split.
    + intros (e & E).
      destruct (sameContent (trim (rowContent r)) (currentContent st)) eqn:Sc.
      * apply sameContent_spec in Sc. split; [assumption|].
        revert E. destruct (lastSender (repeatChain st)) as [s|]; [|discriminate].
        destruct (Z.eqb_spec s (rowSender r)) as [Es|N]; [|congruence].
        intros E. symmetry in E. now apply app_one_longer in E.
      * destruct (repeatChain st) as [|x [|y l]]; [contradiction| |];
          discriminate E.
    + intros [Hc Hs]. rewrite (proj2 (sameContent_spec _ _) Hc).
      destruct (lastSender (repeatChain st)) as [s|]; [|eauto].
      destruct (Z.eqb_spec s (rowSender r)) as [->|N]; [congruence | eauto].
  - intros st r Hc Hs. rewrite repeatStep_chain.
    rewrite (proj2 (sameContent_spec _ _) Hc).
    destruct (lastSender (repeatChain st)) as [s|]; [|reflexivity].
    destruct (Z.eqb_spec s (rowSender r)) as [->|N]; [congruence | reflexivity].
  - intros chain breakerId st L.
    destruct chain as [|a [|b [|c l]]]; simpl in L; try reflexivity. lia.
  - intros A B t1 t2 t3 Ht N rows.
    assert (AB : (A =? B) = false) by now apply Z.eqb_neq.
    assert (BA : (B =? A) = false) by (apply Z.eqb_neq; congruence).
    unfold rows, getRepeatAnalysis, scanRepeats, repeatRow, initialRepeatState.
    cbn [fold_left].
    do 3 (repeat_step ltac:(fun E => rewrite ?Ht, ?AB, ?BA in E)).
    settle_goal ltac:(rewrite ?Ht, ?AB, ?BA).
    split; reflexivity.
  - intros A B t1 t2 t3 Ht N rows.
    assert (AB : (A =? B) = false) by now apply Z.eqb_neq.
    assert (BA : (B =? A) = false) by (apply Z.eqb_neq; congruence).
    unfold rows, getRepeatAnalysis, scanRepeats, repeatRow, initialRepeatState.
    cbn [fold_left].
    do 3 (repeat_step ltac:(fun E => rewrite ?Ht, ?AB, ?BA in E)).
    settle_goal ltac:(rewrite ?Ht, ?AB, ?BA).
    split; reflexivity.
Qed.

(** With [Js.trim]: the first example for the senders 1 and 2, and the
    step rule on a row whose content is [hi] after a no-break space, which
    extends the chain of [hi]. *)
Lemma repeat_chain_rule_witness :
  (Js.trim "hi" = "hi"
   /\ 1 <> 2
   /\ let rows := [repeatRow 1 "hi" 10; repeatRow 2 "hi" 20; repeatRow 1 "hi" 30] in
      List.map entrySender (repeatChain (scanRepeats Js.trim rows)) = [1; 2; 1]
      /\ getRepeatAnalysis Js.trim (Some rows)
         = {| originators := [mkRankItem 1 "p" "n" 1];
              initiators := [mkRankItem 2 "p" "n" 1];
              breakers := [];
              chainLengthDistribution := [(3%nat, 1%nat)];
              hotContents := [mkHot "hi" 1 3 "n" 10];
              resultTotalRepeatChains := 1 |})
  /\ (let st := scanRepeats Js.trim [repeatRow 1 "hi" 10] in
      let r := repeatRow 2 (noBreakSpace ++ "hi") 20 in
      currentContent st = Some (Js.trim (rowContent r))
      /\ lastSender (repeatChain st) <> Some (rowSender r)
      /\ repeatChain (repeatStep Js.trim st r)
         = (repeatChain st
              ++ [mkEntry (rowSender r) (Js.trim (rowContent r)) (rowTs r)])%list).
Proof.
  split.
  - split; [reflexivity|]. split; [discriminate|].
    apply (proj1 (proj2 (proj2 (proj2 (repeat_chain_rule Js.trim)))) 1 2 10 20 30).
    + reflexivity.
    + discriminate.
  - assert (Hc : currentContent (scanRepeats Js.trim [repeatRow 1 "hi" 10])
                 = Some (Js.trim (rowContent (repeatRow 2 (noBreakSpace ++ "hi") 20))))
      by reflexivity.
    assert (Hs : lastSender (repeatChain (scanRepeats Js.trim [repeatRow 1 "hi" 10]))
                 <> Some (rowSender (repeatRow 2 (noBreakSpace ++ "hi") 20)))
      by discriminate.
    split; [exact Hc|]. split; [exact Hs|].
    exact (proj1 (proj2 (repeat_chain_rule Js.trim)) _ _ Hc Hs).
Defined.

(** ** The shifted day of the night-owl analysis *)

(** In a zone without offset the shifted day is the one of the
    specification: the previous calendar day before 05:00, the own day from
    05:00 on. *)
Lemma getAdjustedDate_utc ts :
  getAdjustedDate 0 ts
  = DateTime.formatDay
      (DateTime.civilFromDays
         (DateTime.localDay 0 (ts * 1000)
          - (if DateTime.getHours 0 (ts * 1000) <? 5 then 1 else 0))).
Proof.
  unfold getAdjustedDate, DateTime.isoDate, DateTime.localDay, DateTime.localMs,
    DateTime.addDays.
  destruct (DateTime.getHours 0 (ts * 1000) <? 5); do 2 f_equal.
  - rewrite Z.add_0_r. unfold DateTime.msPerDay.
    rewrite Z.div_add by lia. lia.
  - rewrite Z.add_0_r. lia.
Qed.

(** C8 fails on the code where local time is ahead of UTC. With local time
    eight hours ahead, a message of 2 January 2024, 06:00 local time, is
    attributed to 1 January instead of its own day, and a message of
    04:59 the same morning to 31 December instead of the previous day:
    [getAdjustedDate] takes the hour from local time and the date from
    UTC. A message of 3 January, 01:00, is attributed to 1 January as well,
    a day before the message of 2 January, 12:00, that precedes it. *)
Theorem getAdjustedDate_east_of_utc :
  let tz := 8 * DateTime.msPerHour in
  (DateTime.localDate tz (1704146400 * 1000) = "2024-01-02"
   /\ DateTime.getHours tz (1704146400 * 1000) = 6
   /\ getAdjustedDate tz 1704146400 = "2024-01-01")
  /\ (DateTime.localDate tz (1704142740 * 1000) = "2024-01-02"
      /\ DateTime.getHours tz (1704142740 * 1000) = 4
      /\ DateTime.getMinutes tz (1704142740 * 1000) = 59
      /\ getAdjustedDate tz 1704142740 = "2023-12-31")
  /\ (DateTime.localDate tz (1704168000 * 1000) = "2024-01-02"
      /\ DateTime.getHours tz (1704168000 * 1000) = 12
      /\ getAdjustedDate tz 1704168000 = "2024-01-02"
      /\ DateTime.localDate tz (1704214800 * 1000) = "2024-01-03"
      /\ DateTime.getHours tz (1704214800 * 1000) = 1
      /\ getAdjustedDate tz 1704214800 = "2024-01-01").
Proof. vm_compute. repeat split. Qed.

(** ** Monologues *)

Lemma map_get_set_same {V} (k : Z) (v : V) (m : JsMap Z V) :
  map_get Z.eqb k (map_set Z.eqb k v m) = Some v.
Proof.
  induction m as [|[k' v'] m IH]; simpl.
  - now rewrite Z.eqb_refl.
  - destruct (k =? k') eqn:E; simpl.
    + now rewrite Z.eqb_refl.
    + now rewrite E.
Qed.

Lemma finishStreak_info info st :
  memberStats (finishStreak (mkMonoState info (memberStats st) (globalMaxCombo st)
                               (currentStreak st)))
  = memberStats (finishStreak st)
  /\ globalMaxCombo (finishStreak (mkMonoState info (memberStats st)
                                     (globalMaxCombo st) (currentStreak st)))
     = globalMaxCombo (finishStreak st).
Proof.
  unfold finishStreak. cbn [currentStreak memberStats globalMaxCombo monoInfo].
  destruct (3 <=? streakCount (currentStreak st))%nat; split; reflexivity.
Qed.

(** C9 (amended). In the monologue scan a message of the sender of the
    current streak, at most 300 seconds after the last one, extends the
    streak; any other message closes it and opens a streak of one. A closed
    streak counts only from length 3 on, in the low tier for 3 and 4, the
    mid tier for 5 to 9 and the high tier from 10 on. Messages of X at 0,
    100, 200 and 250 form one counted streak of length 4, in the low tier;
    with a message of Y at 120 in between, X has two streaks of length 2
    and nothing is counted. *)
Theorem monologue_streak_rule :
  (forall st r,
      monoSender r = streakSender (currentStreak st) ->
      monoTs r - streakLastTs (currentStreak st) <= 300 ->
      currentStreak (monoStep st r)
      = mkStreak (streakSender (currentStreak st))
          (S (streakCount (currentStreak st)))
          (startTs (currentStreak st)) (monoTs r)
      /\ memberStats (monoStep st r) = memberStats st
      /\ globalMaxCombo (monoStep st r) = globalMaxCombo st)
  /\ (forall st r,
        (monoSender r <> streakSender (currentStreak st)
         \/ 300 < monoTs r - streakLastTs (currentStreak st)) ->
        currentStreak (monoStep st r) = mkStreak (monoSender r) 1 (monoTs r) (monoTs r)
        /\ memberStats (monoStep st r) = memberStats (finishStreak st)
        /\ globalMaxCombo (monoStep st r) = globalMaxCombo (finishStreak st))
  /\ (forall st,
        (streakCount (currentStreak st) < 3)%nat -> finishStreak st = st)
  /\ (forall st,
        (3 <= streakCount (currentStreak st))%nat ->
        let n := streakCount (currentStreak st) in
        let old :=
          match map_get Z.eqb (streakSender (currentStreak st)) (memberStats st) with
          | Some s => s
          | None => mkStats 0 0 0 0 0
          end in
        map_get Z.eqb (streakSender (currentStreak st))
          (memberStats (finishStreak st))
        = Some (mkStats (S (totalStreaks old)) (Nat.max (maxCombo old) n)
                  (lowStreak old + (if (n <=? 4)%nat then 1 else 0))
                  (midStreak old + (if (5 <=? n)%nat && (n <=? 9)%nat then 1 else 0))
                  (highStreak old + (if (10 <=? n)%nat then 1 else 0))))
  /\ (forall X,
        X <> -1 ->
        getMonologueAnalysis
          (Some [monoRow X 0; monoRow X 100; monoRow X 200; monoRow X 250])
        = {| rank := [mkMonoRank X "p" "n" (mkStats 1 4 1 0 0)];
             maxComboRecord := Some (mkMonoRecord X "p" "n" 4 0) |})
  /\ (forall X Y,
        X <> -1 -> Y <> -1 -> X <> Y ->
        let rows := [monoRow X 0; monoRow X 100; monoRow Y 120;
                     monoRow X 200; monoRow X 250] in
        List.map streakCount
          [ currentStreak (scanMonologues (firstn 2 rows));
            currentStreak (scanMonologues (firstn 3 rows));
            currentStreak (scanMonologues rows) ]
        = [2; 1; 2]%nat
        /\ getMonologueAnalysis (Some rows)
           = {| rank := []; maxComboRecord := None |}).
Proof.
  split; [|split; [|split; [|split; [|split]]]].
  - intros st r Hs Hg. unfold monoStep.
    cbn [currentStreak memberStats globalMaxCombo monoInfo].
    rewrite Hs, Z.eqb_refl.
    replace (monoTs r - streakLastTs (currentStreak st) <=? MAX_INTERVAL) with true
      by (symmetry; apply Z.leb_le; exact Hg).
    cbn. auto.
  - intros st r H. unfold monoStep.
    cbn [currentStreak memberStats globalMaxCombo monoInfo].
    replace ((monoSender r =? streakSender (currentStreak st))
             && (monoTs r - streakLastTs (currentStreak st) <=? MAX_INTERVAL))
      with false.
    + cbn [currentStreak memberStats globalMaxCombo monoInfo].
      split; [reflexivity|]. apply finishStreak_info.
    + symmetry. apply andb_false_iff. destruct H as [H|H].
      * left. now apply Z.eqb_neq.
      * right. apply Z.leb_gt. exact H.
  - intros st L. unfold finishStreak.
    apply Nat.leb_gt in L. now rewrite L.
  - intros st L n old. unfold finishStreak.
    rewrite (proj2 (Nat.leb_le _ _) L).
    cbn [memberStats]. rewrite map_get_set_same. fold old. fold n.
    f_equal.
    destruct (10 <=? n)%nat eqn:E10; destruct (5 <=? n)%nat eqn:E5;
      destruct (n <=? 4)%nat eqn:E4; destruct (n <=? 9)%nat eqn:E9;
      rewrite ?Nat.leb_le, ?Nat.leb_gt in *; cbn [andb];
      try lia; f_equal; lia.
  - intros X N.
    assert (X1 : (X =? -1) = false) by now apply Z.eqb_neq.
    unfold getMonologueAnalysis, scanMonologues, monoRow, initialMonoState.
    cbn [fold_left].
    do 4 (mono_step ltac:(fun E => rewrite ?X1 in E)).
    settle_goal ltac:(rewrite ?X1).
    reflexivity.
  - intros X Y NX NY N rows.
    assert (X1 : (X =? -1) = false) by now apply Z.eqb_neq.
    assert (Y1 : (Y =? -1) = false) by now apply Z.eqb_neq.
    assert (XY : (X =? Y) = false) by now apply Z.eqb_neq.
    assert (YX : (Y =? X) = false) by (apply Z.eqb_neq; congruence).
    unfold rows, getMonologueAnalysis, scanMonologues, monoRow, initialMonoState.
    cbn [fold_left firstn].
    do 5 (mono_step ltac:(fun E => rewrite ?X1, ?Y1, ?XY, ?YX in E)).
    settle_goal ltac:(rewrite ?X1, ?Y1, ?XY, ?YX).
    split; reflexivity.
Qed.

Lemma monologue_streak_rule_witness :
  7 <> -1
  /\ getMonologueAnalysis
       (Some [monoRow 7 0; monoRow 7 100; monoRow 7 200; monoRow 7 250])
     = {| rank := [mkMonoRank 7 "p" "n" (mkStats 1 4 1 0 0)];
          maxComboRecord := Some (mkMonoRecord 7 "p" "n" 4 0) |}.
Proof.
  split; [discriminate|].
  apply (proj1 (proj2 (proj2 (proj2 (proj2 monologue_streak_rule)))) 7).
  discriminate.
Defined.

(** C9, as stated, fails: the streak of length 4 is counted in the low
    tier, not in the mid tier. *)
Lemma streak_of_four_not_in_mid_tier :
  let result :=
    getMonologueAnalysis
      (Some [monoRow 7 0; monoRow 7 100; monoRow 7 200; monoRow 7 250]) in
  List.map (fun e => (maxCombo (monoStats e), lowStreak (monoStats e),
                      midStreak (monoStats e)))
    (rank result)
  = [(4, 1, 0)]%nat
  /\ ~ (exists e, In e (rank result)
                  /\ maxCombo (monoStats e) = 4%nat
                  /\ midStreak (monoStats e) = 1%nat).
Proof.
  split; [reflexivity|].
  intros (e & [<-|[]] & _ & H). discriminate H.
Qed.

End AnalysisSpec.


(* ===================================================================== *)
(** * More about ordered maps: lookup after update, grouping, pairs *)
(* ===================================================================== *)

Module GroupFacts.
Import Merger MapFacts.

Lemma fold_left_invariant {A B} (Inv : A -> Prop) (f : A -> B -> A) (l : list B) :
  (forall acc x, In x l -> Inv acc -> Inv (f acc x)) ->
  forall acc, Inv acc -> Inv (fold_left f l acc).
Proof.
  induction l as [|x l IH]; simpl; intros Hstep acc Hacc; [assumption|].
  apply IH.
  - intros acc' y Hy. apply Hstep. now right.
  - apply Hstep; [now left | assumption].
Qed.

Lemma NoDup_all_equal {A} (l : list A) (a : A) :
  NoDup l -> (forall x, In x l -> x = a) -> (List.length l <= 1)%nat.
Proof.
  intros N H. destruct l as [|x [|y l]]; simpl; try lia.
  exfalso. inversion N as [|? ? Hn _]; subst. apply Hn.
  rewrite (H x), (H y); simpl; auto.
Qed.

Lemma nat_eqb_spec a b : Nat.eqb a b = true <-> a = b.
Proof. apply Nat.eqb_eq. Qed.

Lemma Z_eqb_spec a b : Z.eqb a b = true <-> a = b.
Proof. apply Z.eqb_eq. Qed.

Lemma set_of_list_snoc {K} (keq : K -> K -> bool) (xs : list K) (x : K) :
  set_of_list keq (xs ++ [x]) = set_add keq x (set_of_list keq xs).
Proof. unfold set_of_list. now rewrite fold_left_app. Qed.

Section WithKeys.
Context {K V : Type} (keq : K -> K -> bool).
Hypothesis keq_spec : forall a b, keq a b = true <-> a = b.

Lemma map_get_set k v (m : JsMap K V) k' :
  map_get keq k' (map_set keq k v m)
  = if keq k' k then Some v else map_get keq k' m.
Proof.
  induction m as [|[k0 v0] m IH]; simpl.
  - destruct (keq k' k); reflexivity.
  - destruct (keq k k0) eqn:E; simpl.
    + apply keq_spec in E. subst k0.
      destruct (keq k' k); reflexivity.
    + destruct (keq k' k0) eqn:E'.
      * apply keq_spec in E'. subst k0.
        destruct (keq k' k) eqn:E2; [|reflexivity].
        apply keq_spec in E2. subst k'.
        rewrite (keq_refl keq keq_spec) in E. discriminate.
      * exact IH.
Qed.

Lemma map_keys_set k v (m : JsMap K V) :
  map_keys (map_set keq k v m) = set_add keq k (map_keys m).
Proof.
  unfold map_keys.
  induction m as [|[k0 v0] m IH]; simpl; [reflexivity|].
  destruct (keq k k0) eqn:E; simpl.
  - apply keq_spec in E. now subst k0.
  - now rewrite IH.
Qed.

Lemma map_get_of_In k v (m : JsMap K V) :
  NoDup (map_keys m) -> In (k, v) m -> map_get keq k m = Some v.
Proof.
  induction m as [|[k0 v0] m IH]; simpl; intros N H; [contradiction|].
  inversion N as [|? ? Hn N']; subst.
  destruct H as [H|H].
  - inversion H; subst. now rewrite (keq_refl keq keq_spec).
  - destruct (keq k k0) eqn:E.
    + apply keq_spec in E. subst k0. exfalso. apply Hn.
      apply in_map_iff. now exists (k, v).
    + now apply IH.
Qed.

Lemma In_of_map_get k v (m : JsMap K V) :
  map_get keq k m = Some v -> In (k, v) m.
Proof.
  induction m as [|[k0 v0] m IH]; simpl; intros H; [discriminate|].
  destruct (keq k k0) eqn:E.
  - apply keq_spec in E. subst k0. inversion H; subst. now left.
  - right. now apply IH.
Qed.

Lemma map_values_by_keys (m : JsMap K V) (d : V) :
  NoDup (map_keys m) ->
  map_values m
  = List.map (fun k => match map_get keq k m with Some v => v | None => d end)
      (map_keys m).
Proof.
  unfold map_values, map_keys.
  induction m as [|[k0 v0] m IH]; simpl; intros N; [reflexivity|].
  inversion N as [|? ? Hn N']; subst.
  rewrite (keq_refl keq keq_spec). f_equal.
  rewrite (IH N').
  apply map_ext_in. intros k Hk.
  destruct (keq k k0) eqn:E; [|reflexivity].
  apply keq_spec in E. subst k0. contradiction.
Qed.

End WithKeys.

(** ** [groupBy] *)

Section Grouping.
Context {K A : Type} (keq : K -> K -> bool).
Hypothesis keq_spec : forall a b, keq a b = true <-> a = b.
Variable key : A -> K.

Local Abbreviation push :=
  (fun (m : JsMap K (list A)) (x : A) => group_push keq (key x) x m).

Lemma group_fold_get (xs : list A) :
  forall (m : JsMap K (list A)) k,
    (forall l, map_get keq k m = Some l -> l <> []) ->
    map_get keq k (fold_left push xs m)
    = match map_get keq k m, filter (fun x => keq (key x) k) xs with
      | None, [] => None
      | None, l => Some l
      | Some l0, l => Some (l0 ++ l)%list
      end.
Proof.
  induction xs as [|x xs IH]; intros m k Hne.
  - simpl. destruct (map_get keq k m); [now rewrite List.app_nil_r|reflexivity].
  - cbn [fold_left filter]. rewrite IH.
    + unfold group_push. rewrite (map_get_set keq keq_spec).
      destruct (keq k (key x)) eqn:E.
      * apply keq_spec in E. subst k.
        rewrite (keq_refl keq keq_spec).
        destruct (map_get keq (key x) m) as [l0|].
        -- now rewrite <- List.app_assoc.
        -- reflexivity.
      * assert (E' : keq (key x) k = false).
        { destruct (keq (key x) k) eqn:E'; [|reflexivity].
          apply keq_spec in E'. subst k.
          rewrite (keq_refl keq keq_spec) in E. discriminate. }
        rewrite E'. reflexivity.
    + intros l. unfold group_push. rewrite (map_get_set keq keq_spec).
      destruct (keq k (key x)).
      * intros H. inversion H; subst.
        destruct (map_get keq (key x) m); [|discriminate].
        intros C. now apply app_eq_nil in C as [_ C].
      * apply Hne.
Qed.

Lemma group_fold_NoDup (xs : list A) :
  forall (m : JsMap K (list A)),
    NoDup (map_keys m) -> NoDup (map_keys (fold_left push xs m)).
Proof.
  induction xs as [|x xs IH]; intros m N; [assumption|].
  cbn [fold_left]. apply IH. unfold group_push.
  now apply map_set_keys_NoDup.
Qed.

Lemma groupBy_NoDup (xs : list A) : NoDup (map_keys (groupBy keq key xs)).
Proof. unfold groupBy. apply group_fold_NoDup. constructor. Qed.

(** A group is the sublist of the elements that have its key, and it is
    not empty. *)
Lemma groupBy_In (xs : list A) k l :
  In (k, l) (groupBy keq key xs) ->
  l = filter (fun x => keq (key x) k) xs /\ l <> [].
Proof.
  intros H.
  apply (map_get_of_In keq keq_spec) in H; [|apply groupBy_NoDup].
  unfold groupBy in H.
  rewrite group_fold_get in H by (simpl; discriminate).
  simpl in H. destruct (filter (fun x => keq (key x) k) xs); [discriminate|].
  inversion H; subst. split; [reflexivity | discriminate].
Qed.

Lemma groupBy_member (xs : list A) k l x :
  In (k, l) (groupBy keq key xs) -> In x l -> In x xs /\ key x = k.
Proof.
  intros H Hx. apply groupBy_In in H as [-> _].
  apply filter_In in Hx as [Hx E]. split; [assumption | now apply keq_spec].
Qed.

End Grouping.

(** ** [pairs] *)

Lemma pairs_In {A} (l : list A) a b :
  In (a, b) (pairs l) -> exists l1 l2 l3, l = (l1 ++ a :: l2 ++ b :: l3)%list.
Proof.
  induction l as [|x l IH]; simpl; intros H; [contradiction|].
  apply in_app_or in H as [H|H].
  - apply in_map_iff in H as (y & E & Hy). inversion E; subst.
    apply in_split in Hy as (l2 & l3 & ->). now exists [], l2, l3.
  - destruct (IH H) as (l1 & l2 & l3 & ->). now exists (x :: l1), l2, l3.
Qed.

Lemma pairs_distinct_keys {K V} (m : JsMap K V) a b :
  NoDup (map_keys m) -> In (a, b) (pairs m) ->
  In a m /\ In b m /\ fst a <> fst b.
Proof.
  intros N H. apply pairs_In in H as (l1 & l2 & l3 & ->).
  split; [|split].
  - apply in_or_app. right. now left.
  - apply in_or_app. right. right. apply in_or_app. right. now left.
  - unfold map_keys in N. rewrite List.map_app in N. apply NoDup_app_remove_l in N.
    simpl in N. inversion N as [|? ? Hn _]; subst.
    intros E. apply Hn. rewrite List.map_app. apply in_or_app. right.
    simpl. left. now symmetry.
Qed.

End GroupFacts.


(* ===================================================================== *)
(** * The conflict check: where conflicts come from *)
(* ===================================================================== *)

Module ConflictFacts.
Import Merger StringFacts MapFacts MergerFacts TraceFacts GroupFacts MergerSpec.

Lemma nth_error_snoc {A} (P : nat -> A -> Prop) (acc : list A) (c0 : A) :
  (forall i c, nth_error acc i = Some c -> P i c) ->
  P (List.length acc) c0 ->
  forall i c, nth_error (acc ++ [c0]) i = Some c -> P i c.
Proof.
  intros Hacc H0 i c H.
  destruct (Nat.lt_ge_cases i (List.length acc)) as [L|L].
  - rewrite nth_error_app1 in H by assumption. now apply Hacc.
  - rewrite nth_error_app2 in H by assumption.
    destruct (i - List.length acc)%nat as [|k] eqn:E.
    + simpl in H. inversion H; subst. replace i with (List.length acc) by lia.
      assumption.
    + simpl in H. destruct k; discriminate.
Qed.

Section Provenance.
Variable all : list Item.

(** What the [i]-th reported conflict [c] says about the input. *)
Local Abbreviation provenance :=
  (fun (i : nat) (c : MergeConflict) =>
     exists it1 it2,
       In it1 all /\ In it2 all
       /\ source it1 <> source it2
       /\ timestamp (msg it1) = conflictTimestamp c
       /\ timestamp (msg it2) = conflictTimestamp c
       /\ senderPlatformId (msg it1) = senderPlatformId (msg it2)
       /\ contentLength (msg it1) = contentLength1 c
       /\ contentLength (msg it2) = contentLength2 c
       /\ contentLength1 c <> contentLength2 c
       /\ content1 c = contentOrEmpty (msg it1)
       /\ content2 c = contentOrEmpty (msg it2)
       /\ conflictSender c
          = orElse (senderName (msg it1)) (senderPlatformId (msg it1))
       /\ conflictId c
          = "conflict_" ++ numToString (conflictTimestamp c) ++ "_"
              ++ senderPlatformId (msg it1) ++ "_" ++ natToString i).

Lemma conflictOfPair_provenance ts sender senderItems acc p :
  (forall x, In x senderItems ->
             In x all /\ timestamp (msg x) = ts
             /\ senderPlatformId (msg x) = sender) ->
  In p (pairs (groupBy Nat.eqb (fun it => contentLength (msg it)) senderItems)) ->
  (forall i c, nth_error acc i = Some c -> provenance i c) ->
  forall i c, nth_error (conflictOfPair ts sender acc p) i = Some c ->
              provenance i c.
Proof.
  intros Hitems Hp Hacc.
  destruct p as [[len1 items1] [len2 items2]].
  apply pairs_distinct_keys in Hp; [|apply (groupBy_NoDup Nat.eqb nat_eqb_spec)].
  destruct Hp as (H1 & H2 & Hne). cbn [fst] in Hne.
  unfold conflictOfPair.
  destruct items1 as [|item1 rest1]; [exact Hacc|].
  destruct (find (fun it => negb (source it =? source item1)%string) items2)
    as [item2|] eqn:F; [|exact Hacc].
  apply find_some in F as [Hin2 Hsrc].
  apply negb_true_iff in Hsrc. apply String.eqb_neq in Hsrc.
  destruct (groupBy_member Nat.eqb nat_eqb_spec _ _ _ _ item1 H1 (or_introl eq_refl))
    as [M1 L1].
  destruct (groupBy_member Nat.eqb nat_eqb_spec _ _ _ _ item2 H2 Hin2)
    as [M2 L2].
  destruct (Hitems _ M1) as (A1 & T1 & S1).
  destruct (Hitems _ M2) as (A2 & T2 & S2).
  apply nth_error_snoc; [exact Hacc|].
  exists item1, item2. cbn.
  repeat split; try assumption; try congruence.
Qed.

Lemma conflictsOfSender_provenance ts items acc g :
  (forall x, In x items -> In x all /\ timestamp (msg x) = ts) ->
  In g (groupBy String.eqb (fun it => senderPlatformId (msg it)) items) ->
  (forall i c, nth_error acc i = Some c -> provenance i c) ->
  forall i c, nth_error (conflictsOfSender ts acc g) i = Some c ->
              provenance i c.
Proof.
  intros Hitems Hg Hacc. destruct g as [sender senderItems].
  unfold conflictsOfSender.
  destruct (List.length senderItems <? 2)%nat; [exact Hacc|].
  destruct (List.length (set_of_list String.eqb (List.map source senderItems)) <? 2)%nat;
    [exact Hacc|].
  destruct (1 <? map_size _)%nat; [|exact Hacc].
  apply (fold_left_invariant
           (fun acc => forall i c, nth_error acc i = Some c -> provenance i c));
    [|exact Hacc].
  intros acc' p Hp Hacc'.
  apply (conflictOfPair_provenance ts sender senderItems); try assumption.
  intros x Hx.
  destruct (groupBy_member String.eqb string_eqb_spec _ _ _ _ x Hg Hx) as [M S].
  destruct (Hitems _ M) as [A T]. now repeat split.
Qed.

Lemma conflictsOfTimestamp_provenance acc g :
  In g (groupBy Z.eqb (fun it => timestamp (msg it)) all) ->
  (forall i c, nth_error acc i = Some c -> provenance i c) ->
  forall i c, nth_error (conflictsOfTimestamp acc g) i = Some c ->
              provenance i c.
Proof.
  intros Hg Hacc. destruct g as [ts items].
  unfold conflictsOfTimestamp.
  destruct (List.length items <? 2)%nat; [exact Hacc|].
  apply (fold_left_invariant
           (fun acc => forall i c, nth_error acc i = Some c -> provenance i c));
    [|exact Hacc].
  intros acc' sg Hsg Hacc'.
  apply (conflictsOfSender_provenance ts items); try assumption.
  intros x Hx.
  exact (groupBy_member Z.eqb Z_eqb_spec _ _ _ _ x Hg Hx).
Qed.

Lemma detectConflicts_provenance :
  forall i c, nth_error (detectConflicts all) i = Some c -> provenance i c.
Proof.
  unfold detectConflicts.
  apply (fold_left_invariant
           (fun acc => forall i c, nth_error acc i = Some c -> provenance i c)).
  - intros acc g Hg Hacc. now apply conflictsOfTimestamp_provenance.
  - intros i c H. destruct i; discriminate.
Qed.

End Provenance.

(** No conflict is reported among items of one source name. *)
Lemma detectConflicts_one_source (all : list Item) :
  (forall x y, In x all -> In y all -> source x = source y) ->
  detectConflicts all = [].
Proof.
  intros Hsame.
  destruct (detectConflicts all) as [|c rest] eqn:E; [reflexivity|].
  exfalso.
  destruct (detectConflicts_provenance all 0 c) as (it1 & it2 & A1 & A2 & Hne & _).
  - now rewrite E.
  - apply Hne. now apply Hsame.
Qed.

(** ** What [checkConflicts] returns *)

Lemma checkConflicts_returns env paths t r :
  fst (checkConflicts env paths t) = Normal r ->
  exists results,
    Forall2 (fun p res => parseFileSync env p = Normal res) paths results
    /\ r = {| conflicts :=
                detectConflicts
                  (List.concat
                     (List.map
                        (fun pr => List.map (fun m => mkItem m (basename env (fst pr)))
                                     (messages (snd pr)))
                        (List.combine paths results)));
              totalMessages :=
                List.length
                  (uniqueKeys
                     (List.concat
                        (List.map
                           (fun pr => List.map (fun m => mkItem m (basename env (fst pr)))
                                        (messages (snd pr)))
                           (List.combine paths results)))) |}.
Proof.
  intros H.
  destruct (detect_all_or_not env paths) as [[feats Hf]|Hbad].
  - destruct (Nat.le_gt_cases
                (List.length (set_of_list String.eqb (List.map featureName feats))) 1)
      as [L|L].
    + destruct (parse_all_or_not env paths) as [[results Hr]|Hbad].
      * exists results. split; [assumption|].
        rewrite (checkConflicts_ok env paths feats results t Hf L Hr) in H.
        cbn [fst] in H. now inversion H.
      * destruct (checkConflicts_parse_error env paths feats t Hf L Hbad)
          as (q & e & t' & _ & _ & E).
        rewrite E in H. discriminate.
    + rewrite (checkConflicts_mismatch env paths feats t Hf L) in H. discriminate.
  - destruct (checkConflicts_sniff_failure env paths t Hbad)
      as (q & e & t' & _ & _ & E & _).
    rewrite E in H. discriminate.
Qed.

(** An item of the conflict check is a message of one of the files,
    tagged with the basename of that file. *)
Lemma items_of_files env paths :
  forall results,
    Forall2 (fun p res => parseFileSync env p = Normal res) paths results ->
    forall it,
      In it (List.concat
               (List.map
                  (fun pr => List.map (fun m => mkItem m (basename env (fst pr)))
                               (messages (snd pr)))
                  (List.combine paths results))) ->
      exists p res,
        In p paths /\ parseFileSync env p = Normal res
        /\ In (msg it) (messages res) /\ source it = basename env p.
Proof.
  intros results F. induction F as [|p res paths results Hp F IH]; intros it H.
  - contradiction.
  - cbn [List.combine List.map List.concat fst snd] in H.
    apply in_app_or in H as [H|H].
    + apply in_map_iff in H as (m & <- & Hm).
      exists p, res. cbn. repeat split; auto.
    + destruct (IH it H) as (p' & res' & Hin & Hp' & Hm & Hs).
      exists p', res'. repeat split; auto. now right.
Qed.

Lemma items_messages env paths :
  forall results,
    Forall2 (fun p res => parseFileSync env p = Normal res) paths results ->
    List.map msg
      (List.concat
         (List.map
            (fun pr => List.map (fun m => mkItem m (basename env (fst pr)))
                         (messages (snd pr)))
            (List.combine paths results)))
    = List.concat (List.map messages results).
Proof.
  intros results F. induction F as [|p res paths results Hp F IH].
  - reflexivity.
  - cbn [List.combine List.map List.concat fst snd].
    rewrite List.map_app, IH, List.map_map. cbn [msg]. now rewrite List.map_id.
Qed.

Lemma collected_messages env paths :
  forall prs,
    Forall2 (parsedFrom env) paths prs ->
    List.map msg (collectMessages prs)
    = List.concat (List.map (fun pr => messages (fst pr)) prs)
    /\ Forall2 (fun p res => parseFileSync env p = Normal res) paths
         (List.map fst prs).
Proof.
  intros prs F. induction F as [|p pr paths prs [Hp Hs] F [IH1 IH2]].
  - split; [reflexivity | constructor].
  - split.
    + unfold collectMessages in *. cbn [List.map List.concat].
      rewrite List.map_app, IH1, List.map_map. cbn [msg]. now rewrite List.map_id.
    + cbn [List.map]. now constructor.
Qed.

Lemma Forall2_parse_unique env paths :
  forall rs1 rs2,
    Forall2 (fun p res => parseFileSync env p = Normal res) paths rs1 ->
    Forall2 (fun p res => parseFileSync env p = Normal res) paths rs2 ->
    rs1 = rs2.
Proof.
  intros rs1 rs2 F1. revert rs2.
  induction F1 as [|p r1 paths rs1 H1 F1 IH]; intros rs2 F2; inversion F2; subst.
  - reflexivity.
  - f_equal; [congruence | now apply IH].
Qed.

End ConflictFacts.

(* ===================================================================== *)
(** * The conflict check: properties *)
(* ===================================================================== *)

Module ConflictSpec.
Import Merger StringFacts MapFacts MergerFacts TraceFacts GroupFacts MergerSpec.
Import ConflictFacts Samples MoreSamples.

(** X1. Every conflict that [checkConflicts] reports stems from two
    messages of two input files with different basenames: both messages
    have the time stamp of the conflict and the same sender identifier,
    [content1]/[content2] are their contents, [contentLength1] and
    [contentLength2] are the lengths of these contents, and the two lengths
    differ. *)
Theorem conflict_has_two_sources :
  forall env paths t r c,
    fst (checkConflicts env paths t) = Normal r ->
    In c (conflicts r) ->
    exists p1 p2 r1 r2 m1 m2,
      In p1 paths /\ In p2 paths
      /\ parseFileSync env p1 = Normal r1 /\ parseFileSync env p2 = Normal r2
      /\ In m1 (messages r1) /\ In m2 (messages r2)
      /\ basename env p1 <> basename env p2
      /\ timestamp m1 = conflictTimestamp c
      /\ timestamp m2 = conflictTimestamp c
      /\ senderPlatformId m1 = senderPlatformId m2
      /\ content1 c = contentOrEmpty m1
      /\ content2 c = contentOrEmpty m2
      /\ contentLength1 c = String.length (content1 c)
      /\ contentLength2 c = String.length (content2 c)
      /\ contentLength1 c <> contentLength2 c.
Proof.
  intros env paths t r c H Hc.
  apply checkConflicts_returns in H as (results & F & ->). cbn [conflicts] in Hc.
  apply In_nth_error in Hc as [i Hi].
  apply detectConflicts_provenance in Hi
    as (it1 & it2 & A1 & A2 & Hne & T1 & T2 & S & L1 & L2 & Ln & C1 & C2 & _).
  destruct (items_of_files env paths results F it1 A1) as (p1 & r1 & P1 & E1 & M1 & B1).
  destruct (items_of_files env paths results F it2 A2) as (p2 & r2 & P2 & E2 & M2 & B2).
  exists p1, p2, r1, r2, (msg it1), (msg it2).
  repeat split; try assumption.
  - congruence.
  - rewrite C1, <- L1. reflexivity.
  - rewrite C2, <- L2. reflexivity.
Qed.

(** A conflict check that reports the conflict between alice's "ab" of
    a.json and alice's "abc" of d.json. *)
Lemma conflict_has_two_sources_witness :
  fst (checkConflicts conflictEnv ["a.json"; "d.json"] []) = Normal conflictReport
  /\ In sampleConflict (conflicts conflictReport)
  /\ exists p1 p2 r1 r2 m1 m2,
       In p1 ["a.json"; "d.json"] /\ In p2 ["a.json"; "d.json"]
       /\ parseFileSync conflictEnv p1 = Normal r1
       /\ parseFileSync conflictEnv p2 = Normal r2
       /\ In m1 (messages r1) /\ In m2 (messages r2)
       /\ basename conflictEnv p1 <> basename conflictEnv p2
       /\ timestamp m1 = conflictTimestamp sampleConflict
       /\ timestamp m2 = conflictTimestamp sampleConflict
       /\ senderPlatformId m1 = senderPlatformId m2
       /\ content1 sampleConflict = contentOrEmpty m1
       /\ content2 sampleConflict = contentOrEmpty m2
       /\ contentLength1 sampleConflict = String.length (content1 sampleConflict)
       /\ contentLength2 sampleConflict = String.length (content2 sampleConflict)
       /\ contentLength1 sampleConflict <> contentLength2 sampleConflict.
Proof.
  assert (H : fst (checkConflicts conflictEnv ["a.json"; "d.json"] [])
              = Normal conflictReport) by (vm_compute; reflexivity).
  assert (Hc : In sampleConflict (conflicts conflictReport)) by (simpl; auto).
  split; [exact H|]. split; [exact Hc|].
  exact (conflict_has_two_sources conflictEnv ["a.json"; "d.json"] []
           conflictReport sampleConflict H Hc).
Defined.

(** X2. The identifiers of the conflicts that [checkConflicts] reports
    are pairwise distinct: the identifier of the [i]-th conflict (from 0)
    is "conflict_", the time stamp of the conflict, a sender identifier and
    [i], joined by underscores. *)
Theorem conflict_ids_distinct :
  forall env paths t r,
    fst (checkConflicts env paths t) = Normal r ->
    NoDup (List.map conflictId (conflicts r))
    /\ forall i c,
         nth_error (conflicts r) i = Some c ->
         exists senderId,
           conflictId c
           = "conflict_" ++ numToString (conflictTimestamp c) ++ "_" ++ senderId
               ++ "_" ++ natToString i.
Proof.
  intros env paths t r H.
  apply checkConflicts_returns in H as (results & _ & ->). cbn [conflicts].
  generalize (List.concat
                (List.map
                   (fun pr => List.map (fun m => mkItem m (basename env (fst pr)))
                                (messages (snd pr)))
                   (List.combine paths results))).
  intros all.
  assert (Hid : forall i c,
             nth_error (detectConflicts all) i = Some c ->
             exists senderId,
               conflictId c
               = "conflict_" ++ numToString (conflictTimestamp c) ++ "_" ++ senderId
                   ++ "_" ++ natToString i).
  { intros i c H.
    apply detectConflicts_provenance in H as (it1 & it2 & H).
    exists (senderPlatformId (msg it1)). apply H. }
  split; [|exact Hid].
  apply NoDup_nth_error. intros i j Hi E.
  rewrite List.length_map in Hi.
  rewrite !nth_error_map in E.
  destruct (nth_error (detectConflicts all) i) as [ci|] eqn:Ei;
    [|apply nth_error_None in Ei; lia].
  destruct (nth_error (detectConflicts all) j) as [cj|] eqn:Ej; [|discriminate].
  cbn [option_map] in E. inversion E as [E'].
  destruct (Hid _ _ Ei) as [si Hci]. destruct (Hid _ _ Ej) as [sj Hcj].
  rewrite Hci, Hcj in E'.
  assert (Sp : forall a b (n : nat),
             "conflict_" ++ a ++ "_" ++ b ++ "_" ++ natToString n
             = ("conflict_" ++ a ++ "_" ++ b) ++ String "_" (natToString n)).
  { intros a b n. rewrite !append_assoc. reflexivity. }
  rewrite !Sp in E'.
  apply split_last in E' as [_ E'];
    try (unfold natToString; apply numToString_no_underscore).
  now apply natToString_inj.
Qed.

(** The check of a.json and d.json, which reports one conflict. *)
Lemma conflict_ids_distinct_witness :
  fst (checkConflicts conflictEnv ["a.json"; "d.json"] []) = Normal conflictReport
  /\ NoDup (List.map conflictId (conflicts conflictReport))
  /\ forall i c,
       nth_error (conflicts conflictReport) i = Some c ->
       exists senderId,
         conflictId c
         = "conflict_" ++ numToString (conflictTimestamp c) ++ "_" ++ senderId
             ++ "_" ++ natToString i.
Proof.
  assert (H : fst (checkConflicts conflictEnv ["a.json"; "d.json"] [])
              = Normal conflictReport) by (vm_compute; reflexivity).
  split; [exact H|].
  exact (conflict_ids_distinct conflictEnv ["a.json"; "d.json"] [] conflictReport H).
Defined.

(** X3. Files that share one basename never conflict: when all input
    paths have the same basename (one file, the same file twice, or
    equally named files of different directories), a conflict check that
    returns reports no conflict. *)
Theorem same_basename_no_conflict :
  forall env paths t r,
    (forall p q, In p paths -> In q paths -> basename env p = basename env q) ->
    fst (checkConflicts env paths t) = Normal r ->
    conflicts r = [].
Proof.
  intros env paths t r Hsame H.
  apply checkConflicts_returns in H as (results & F & ->). cbn [conflicts].
  apply detectConflicts_one_source. intros x y Hx Hy.
  destruct (items_of_files env paths results F x Hx) as (p & _ & P & _ & _ & ->).
  destruct (items_of_files env paths results F y Hy) as (q & _ & Q & _ & _ & ->).
  now apply Hsame.
Qed.

(** Two exports that differ in alice's message of one second, read from
    two directories under the same file name. *)
Lemma same_basename_no_conflict_witness :
  (forall p q, In p ["x/a.json"; "y/a.json"] -> In q ["x/a.json"; "y/a.json"] ->
               basename sameNameEnv p = basename sameNameEnv q)
  /\ fst (checkConflicts sameNameEnv ["x/a.json"; "y/a.json"] [])
     = Normal {| conflicts := []; totalMessages := 4 |}
  /\ conflicts {| conflicts := []; totalMessages := 4 |} = [].
Proof.
  assert (Hs : forall p q, In p ["x/a.json"; "y/a.json"] ->
                           In q ["x/a.json"; "y/a.json"] ->
                           basename sameNameEnv p = basename sameNameEnv q)
    by (intros p q [<-|[<-|[]]] [<-|[<-|[]]]; reflexivity).
  assert (H : fst (checkConflicts sameNameEnv ["x/a.json"; "y/a.json"] [])
              = Normal {| conflicts := []; totalMessages := 4 |})
    by (vm_compute; reflexivity).
  split; [exact Hs|]. split; [exact H|].
  exact (same_basename_no_conflict sameNameEnv ["x/a.json"; "y/a.json"] []
           {| conflicts := []; totalMessages := 4 |} Hs H).
Defined.

(** X4. The total that the conflict check announces is the length of
    the message list that [mergeFiles] writes for the same files: whenever
    the check of the paths returns and the merge writes an archive, the
    archive holds exactly [totalMessages] messages, and this number is at
    most the number of messages of all files together. *)
Theorem total_is_merged_length :
  forall env params t r res t' path data,
    fst (checkConflicts env (filePaths params) t) = Normal r ->
    mergeFiles env params [] = (res, t') ->
    In (CallWrite path data) t' ->
    List.length (clMessages data) = totalMessages r
    /\ exists results,
         Forall2 (fun p res => parseFileSync env p = Normal res)
           (filePaths params) results
         /\ (totalMessages r
               <= List.length (List.concat (List.map messages results)))%nat.
Proof.
  intros env params t r res t' path data Hc Hm Hw.
  apply checkConflicts_returns in Hc as (results & F & ->). cbn [totalMessages].
  destruct (mergeFiles_writes env params res t' path data Hm Hw) as (prs & Fp & B).
  apply buildChatLab_messages in B.
  destruct (collected_messages env (filePaths params) prs Fp) as [Em Fr].
  pose proof (Forall2_parse_unique env _ _ _ F Fr) as ->.
  unfold uniqueKeys. rewrite <- (List.map_map msg getMessageKey).
  rewrite (items_messages env (filePaths params) _ Fr).
  split.
  - rewrite B, mergedMessages_spec, distinct_keys_count.
    rewrite <- (Permutation_length (sortByTimestamp_perm _)), List.length_map.
    rewrite Em, List.map_map. reflexivity.
  - exists (List.map fst prs). split; [assumption|].
    rewrite <- (List.length_map getMessageKey).
    apply (set_of_list_length String.eqb string_eqb_spec).
Qed.

Lemma total_is_merged_length_witness :
  fst (checkConflicts sampleEnv (filePaths sampleParams) [])
  = Normal {| conflicts := []; totalMessages := 3 |}
  /\ mergeFiles sampleEnv sampleParams []
     = (Normal (MergeSuccess samplePath (Some "session_1")), sampleTrace)
  /\ In (CallWrite samplePath sampleArchive) sampleTrace
  /\ List.length (clMessages sampleArchive)
     = totalMessages {| conflicts := []; totalMessages := 3 |}
  /\ exists results,
       Forall2 (fun p res => parseFileSync sampleEnv p = Normal res)
         (filePaths sampleParams) results
       /\ (totalMessages {| conflicts := []; totalMessages := 3 |}
             <= List.length (List.concat (List.map messages results)))%nat.
Proof.
  assert (Hc : fst (checkConflicts sampleEnv (filePaths sampleParams) [])
               = Normal {| conflicts := []; totalMessages := 3 |})
    by (vm_compute; reflexivity).
  assert (Hm : mergeFiles sampleEnv sampleParams []
               = (Normal (MergeSuccess samplePath (Some "session_1")), sampleTrace))
    by (vm_compute; reflexivity).
  assert (Hw : In (CallWrite samplePath sampleArchive) sampleTrace)
    by (simpl; auto).
  split; [exact Hc|]. split; [exact Hm|]. split; [exact Hw|].
  exact (total_is_merged_length sampleEnv sampleParams [] _ _ _ _ _ Hc Hm Hw).
Defined.

End ConflictSpec.


(* ===================================================================== *)
(** * The merge: members, platform, file name *)
(* ===================================================================== *)

Module MembersFacts.
Import Merger StringFacts MapFacts MergerFacts GroupFacts.

(** The names under which the members of [ms] carry the identifier [k],
    in order. *)
Local Abbreviation namesOf k ms :=
  (List.map memberName (filter (fun m => (platformId m =? k)%string) ms)).

(** The entry of the member map that a list of names gives. *)
Local Abbreviation entryFor k names :=
  (match set_of_list String.eqb names with
   | [] => None
   | n :: al =>
       Some (mkChatLabMember k n (match al with [] => None | _ => Some al end))
   end).

Lemma fold_concat {A B C} (f : A -> B -> A) (g : C -> list B) (l : list C) :
  forall a,
    fold_left (fun acc c => fold_left f (g c) acc) l a
    = fold_left f (List.concat (List.map g l)) a.
Proof.
  induction l as [|c l IH]; intros a; simpl; [reflexivity|].
  now rewrite fold_left_app, IH.
Qed.

Lemma existsb_eqb_In (x : string) (l : list string) :
  existsb (String.eqb x) l = true <-> In x l.
Proof.
  rewrite existsb_exists. split.
  - intros (y & Hy & E). apply String.eqb_eq in E. now subst.
  - intros H. exists x. split; [assumption | apply String.eqb_refl].
Qed.

(** One step of the member loop, seen through lookups. *)
Lemma mergeMember_step (mm : JsMap string ChatLabMember) seen m :
  (forall k, map_get String.eqb k mm = entryFor k (namesOf k seen)) ->
  map_keys mm = set_of_list String.eqb (List.map platformId seen) ->
  (forall k, map_get String.eqb k (mergeMember mm m)
             = entryFor k (namesOf k (seen ++ [m])))
  /\ map_keys (mergeMember mm m)
     = set_of_list String.eqb (List.map platformId (seen ++ [m])).
Proof.
  intros Hget Hkeys.
  assert (Hnames : forall k,
             set_of_list String.eqb (namesOf k (seen ++ [m]))
             = if (platformId m =? k)%string
               then set_add String.eqb (memberName m)
                      (set_of_list String.eqb (namesOf k seen))
               else set_of_list String.eqb (namesOf k seen)).
  { intros k. rewrite filter_app, List.map_app. cbn [filter].
    destruct (platformId m =? k)%string.
    - cbn [List.map]. apply set_of_list_snoc.
    - cbn [List.map]. now rewrite List.app_nil_r. }
  pose proof (Hget (platformId m)) as H0.
  unfold mergeMember. cbv zeta.
  destruct (map_get String.eqb (platformId m) mm) as [existing|] eqn:G.
  - (* the identifier is known *)
    destruct (set_of_list String.eqb (namesOf (platformId m) seen)) as [|n al] eqn:S;
      [discriminate|].
    inversion H0 as [Hex]. clear H0. cbn [clName clPlatformId aliases].
    assert (Hknown :
              match match al with [] => None | _ :: _ => Some al end with
              | Some al0 => existsb (String.eqb (memberName m)) al0
              | None => false
              end = existsb (String.eqb (memberName m)) al)
      by (destruct al; reflexivity).
    assert (Hal : match match al with [] => None | _ :: _ => Some al end with
                  | Some al0 => al0
                  | None => []
                  end = al)
      by (destruct al; reflexivity).
    rewrite Hknown, Hal.
    assert (Hin : In (platformId m) (map_keys mm)).
    { apply (map_has_In String.eqb string_eqb_spec). unfold map_has. now rewrite G. }
    assert (Hk : set_of_list String.eqb (List.map platformId (seen ++ [m]))
                 = map_keys mm).
    { rewrite List.map_app. cbn [List.map]. rewrite set_of_list_snoc, <- Hkeys.
      now apply (set_add_present String.eqb string_eqb_spec). }
    destruct (negb (n =? memberName m)%string
              && negb (existsb (String.eqb (memberName m)) al)) eqn:C.
    + (* a new alias *)
      apply andb_true_iff in C as [C1 C2].
      apply negb_true_iff in C1, C2. apply String.eqb_neq in C1.
      assert (Hnot : ~ In (memberName m) al).
      { intros Hi. apply existsb_eqb_In in Hi. congruence. }
      split.
      * intros k. rewrite (map_get_set String.eqb string_eqb_spec), Hnames.
        destruct (k =? platformId m)%string eqn:E.
        -- apply String.eqb_eq in E. subst k. rewrite String.eqb_refl, S.
           cbn [set_add].
           assert (E2 : (memberName m =? n)%string = false).
           { apply String.eqb_neq. congruence. }
           rewrite E2, (set_add_absent String.eqb string_eqb_spec _ _ Hnot).
           destruct al; reflexivity.
        -- rewrite String.eqb_sym in E. rewrite E. apply Hget.
      * rewrite (map_keys_set String.eqb string_eqb_spec), Hk.
        now apply (set_add_present String.eqb string_eqb_spec).
    + (* nothing changes *)
      split; [|now rewrite Hk].
      intros k. rewrite Hnames.
      destruct (platformId m =? k)%string eqn:E; [|apply Hget].
      apply String.eqb_eq in E. subst k. rewrite G, S, Hex.
      apply andb_false_iff in C as [C|C]; apply negb_false_iff in C.
      * apply String.eqb_eq in C. subst n. cbn [set_add].
        now rewrite String.eqb_refl.
      * apply existsb_eqb_In in C. cbn [set_add].
        destruct (memberName m =? n)%string; [reflexivity|].
        now rewrite (set_add_present String.eqb string_eqb_spec _ _ C).
  - (* a new identifier *)
    destruct (set_of_list String.eqb (namesOf (platformId m) seen)) as [|n al] eqn:S;
      [|discriminate].
    split.
    + intros k. rewrite (map_get_set String.eqb string_eqb_spec), Hnames.
      destruct (k =? platformId m)%string eqn:E.
      * apply String.eqb_eq in E. subst k. now rewrite String.eqb_refl, S.
      * rewrite String.eqb_sym in E. rewrite E. apply Hget.
    + rewrite (map_keys_set String.eqb string_eqb_spec), Hkeys.
      rewrite List.map_app. cbn [List.map]. now rewrite set_of_list_snoc.
Qed.

Lemma mergeMember_fold ms :
  forall (mm : JsMap string ChatLabMember) seen,
    (forall k, map_get String.eqb k mm = entryFor k (namesOf k seen)) ->
    map_keys mm = set_of_list String.eqb (List.map platformId seen) ->
    (forall k, map_get String.eqb k (fold_left mergeMember ms mm)
               = entryFor k (namesOf k (seen ++ ms)))
    /\ map_keys (fold_left mergeMember ms mm)
       = set_of_list String.eqb (List.map platformId (seen ++ ms)).
Proof.
  induction ms as [|m ms IH]; intros mm seen Hget Hkeys.
  - rewrite List.app_nil_r. now split.
  - cbn [fold_left].
    destruct (mergeMember_step mm seen m Hget Hkeys) as [Hg Hk].
    specialize (IH _ _ Hg Hk). now rewrite <- List.app_assoc in IH.
Qed.

(** The merged member map, seen through lookups. *)
Lemma mergeMembers_lookup prs :
  let ms := List.concat (List.map (fun pr => members (fst pr)) prs) in
  (forall k, map_get String.eqb k (mergeMembers prs) = entryFor k (namesOf k ms))
  /\ map_keys (mergeMembers prs) = set_of_list String.eqb (List.map platformId ms).
Proof.
  intros ms. unfold mergeMembers.
  rewrite (fold_concat mergeMember (fun pr => members (fst pr))).
  apply (mergeMember_fold ms [] []); reflexivity.
Qed.

Lemma forallb_of_map {A B} (f : A -> B) (p : B -> bool) (l : list A) :
  forallb p (List.map f l) = forallb (fun x => p (f x)) l.
Proof. induction l as [|a l IH]; simpl; [reflexivity | now rewrite IH]. Qed.

(** ** The file name *)

Lemma occurs_replaceChars p by_ s c :
  occurs c (replaceChars p by_ s) -> c = by_ \/ (occurs c s /\ p c = false).
Proof.
  induction s as [|a s IH]; simpl; [contradiction|].
  intros [H|H].
  - destruct (p a) eqn:E; [now left|]. right. subst. split; [now left | assumption].
  - destruct (IH H) as [?|[? ?]]; [now left|]. right. split; [now right | assumption].
Qed.

Lemma occurs_removeChars p s c : occurs c (removeChars p s) -> occurs c s.
Proof.
  induction s as [|a s IH]; simpl; [contradiction|].
  destruct (p a); simpl.
  - intros H. right. now apply IH.
  - intros [H|H]; [now left | right; now apply IH].
Qed.

Lemma replaceChars_length p by_ s :
  String.length (replaceChars p by_ s) = String.length s.
Proof. induction s as [|a s IH]; simpl; [reflexivity | now rewrite IH]. Qed.

Lemma replaceChars_safe p by_ s :
  (forall c, occurs c s -> p c = false) -> replaceChars p by_ s = s.
Proof.
  induction s as [|a s IH]; simpl; intros H; [reflexivity|].
  rewrite (H a) by now left. f_equal. apply IH. intros c Hc. apply H. now right.
Qed.

(** ** The member loop and the platform, for any list of parse results *)

(** Every identifier once, in the order of first appearance; name and
    aliases are the distinct names of the identifier, in that order. *)
Lemma mergeMembers_first_seen :
  forall prs : list (ParseResult * string),
    let ms := List.concat (List.map (fun pr => members (fst pr)) prs) in
    let merged := map_values (mergeMembers prs) in
    List.map clPlatformId merged = set_of_list String.eqb (List.map platformId ms)
    /\ NoDup (List.map clPlatformId merged)
    /\ forall e, In e merged ->
         clName e :: match aliases e with Some al => al | None => [] end
         = set_of_list String.eqb
             (List.map memberName
                (filter (fun m => (platformId m =? clPlatformId e)%string) ms))
         /\ NoDup (clName e :: match aliases e with Some al => al | None => [] end)
         /\ aliases e <> Some [].
Proof.
  intros prs ms merged.
  destruct (mergeMembers_lookup prs) as [Hget Hkeys]. fold ms in Hget, Hkeys.
  assert (N : NoDup (map_keys (mergeMembers prs))).
  { rewrite Hkeys. apply (set_of_list_NoDup String.eqb string_eqb_spec). }
  assert (Hentry : forall k e, In (k, e) (mergeMembers prs) ->
             clPlatformId e = k
             /\ clName e :: match aliases e with Some al => al | None => [] end
                = set_of_list String.eqb
                    (List.map memberName
                       (filter (fun m => (platformId m =? k)%string) ms))
             /\ aliases e <> Some []).
  { intros k e Hin.
    apply (map_get_of_In String.eqb string_eqb_spec _ _ _ N) in Hin.
    rewrite Hget in Hin.
    destruct (set_of_list String.eqb (List.map memberName _)) as [|n al];
      [discriminate|].
    inversion Hin; subst e. cbn [clPlatformId clName aliases].
    split; [reflexivity|].
    destruct al; (split; [reflexivity | intros C; discriminate C]). }
  assert (Hids : List.map clPlatformId merged = map_keys (mergeMembers prs)).
  { unfold merged, map_values, map_keys. rewrite List.map_map.
    apply map_ext_in. intros [k e] Hin. cbn [fst snd].
    now destruct (Hentry k e Hin). }
  split; [now rewrite Hids|]. split; [now rewrite Hids|].
  intros e He. unfold merged, map_values in He.
  apply in_map_iff in He as ([k e'] & E & Hin). cbn [snd] in E. subst e'.
  destruct (Hentry k e Hin) as (Hk & Hn & Ha). subst k.
  split; [assumption|]. split; [|assumption].
  rewrite Hn. apply (set_of_list_NoDup String.eqb string_eqb_spec).
Qed.

(** The common platform of the sources, or 'mixed'. *)
Lemma mergedPlatform_common_or_mixed :
  forall (first : ParseResult * string) (rest : list (ParseResult * string)),
    mergedPlatform (first :: rest)
    = if forallb (fun pr => (metaPlatform (meta (fst pr))
                             =? metaPlatform (meta (fst first)))%string) rest
      then metaPlatform (meta (fst first))
      else "mixed".
Proof.
  intros first rest. unfold mergedPlatform.
  set (pf := metaPlatform (meta (fst first))).
  set (ps := List.map (fun pr => metaPlatform (meta (fst pr))) rest).
  cbn [List.map]. fold pf. fold ps.
  replace (forallb _ rest) with (forallb (fun p => (p =? pf)%string) ps)
    by (unfold ps; now rewrite forallb_of_map).
  assert (N : NoDup (set_of_list String.eqb (pf :: ps)))
    by apply (set_of_list_NoDup String.eqb string_eqb_spec).
  assert (Hin : forall x, In x (set_of_list String.eqb (pf :: ps)) <-> In x (pf :: ps))
    by apply (set_of_list_In String.eqb string_eqb_spec).
  destruct (forallb (fun p => (p =? pf)%string) ps) eqn:F.
  - rewrite forallb_forall in F.
    assert (L : (List.length (set_of_list String.eqb (pf :: ps)) <= 1)%nat).
    { apply (NoDup_all_equal _ pf N). intros x Hx. apply Hin in Hx as [Hx|Hx].
      - now symmetry.
      - now apply String.eqb_eq, F. }
    assert (L' : (1 <= List.length (set_of_list String.eqb (pf :: ps)))%nat).
    { destruct (set_of_list String.eqb (pf :: ps)) eqn:E; simpl; [|lia].
      exfalso. apply (proj2 (Hin pf)). now left. }
    replace (List.length (set_of_list String.eqb (pf :: ps))) with 1%nat by lia.
    reflexivity.
  - assert (Hex : exists q, In q ps /\ q <> pf).
    { clear -F. induction ps as [|q ps IH]; [discriminate|].
      cbn [forallb] in F. apply andb_false_iff in F as [F|F].
      - exists q. split; [now left | now apply String.eqb_neq].
      - destruct (IH F) as (q' & ? & ?). exists q'. split; [now right | assumption]. }
    destruct Hex as (q & Hq & Hne).
    assert (L : (2 <= List.length (set_of_list String.eqb (pf :: ps)))%nat).
    { assert (I1 : In pf (set_of_list String.eqb (pf :: ps)))
        by (apply Hin; now left).
      assert (I2 : In q (set_of_list String.eqb (pf :: ps)))
        by (apply Hin; now right).
      destruct (set_of_list String.eqb (pf :: ps)) as [|a [|b l]]; simpl in *;
        [contradiction | | lia].
      destruct I1 as [<-|[]], I2 as [<-|[]]. congruence. }
    destruct (List.length (set_of_list String.eqb (pf :: ps)) =? 1)%nat eqn:E;
      [|reflexivity].
    apply Nat.eqb_eq in E. lia.
Qed.

End MembersFacts.

Module MergeSpec.
Import Merger StringFacts MapFacts MergerFacts TraceFacts GroupFacts ConflictFacts MembersFacts.
Import Samples MoreSamples.

(** X5. The members of the archive that [mergeFiles] writes: every
    member identifier of the parsed input files appears exactly once, in
    the order of first appearance; the name of an entry followed by its
    aliases is the list of the distinct names the files give for the
    identifier, in the order of first appearance. Hence the name is the
    first one seen, the aliases hold no name twice and never the name
    itself, and [aliases] is absent, never empty, when all files agree on
    the name. *)
Theorem merged_members_first_seen :
  forall env params res t' path data,
    mergeFiles env params [] = (res, t') ->
    In (CallWrite path data) t' ->
    exists results,
      Forall2 (fun p r => parseFileSync env p = Normal r) (filePaths params) results
      /\ let ms := List.concat (List.map members results) in
         List.map clPlatformId (clMembers data)
         = set_of_list String.eqb (List.map platformId ms)
         /\ NoDup (List.map clPlatformId (clMembers data))
         /\ forall e, In e (clMembers data) ->
              clName e :: match aliases e with Some al => al | None => [] end
              = set_of_list String.eqb
                  (List.map memberName
                     (filter (fun m => (platformId m =? clPlatformId e)%string) ms))
              /\ NoDup (clName e
                        :: match aliases e with Some al => al | None => [] end)
              /\ aliases e <> Some [].
Proof.
  intros env params res t' path data Hm Hw.
  destruct (mergeFiles_writes env params res t' path data Hm Hw) as (prs & Fp & B).
  destruct (collected_messages env (filePaths params) prs Fp) as [_ Fr].
  exists (List.map fst prs). split; [exact Fr|].
  unfold buildChatLab in B. destruct prs as [|first rest]; [discriminate|].
  injection B as <-. cbn [clMembers]. rewrite List.map_map.
  exact (mergeMembers_first_seen (first :: rest)).
Qed.

(** The sample merge: alice of a.json is ally in b.json. *)
Lemma merged_members_first_seen_witness :
  mergeFiles sampleEnv sampleParams []
  = (Normal (MergeSuccess samplePath (Some "session_1")), sampleTrace)
  /\ In (CallWrite samplePath sampleArchive) sampleTrace
  /\ exists results,
       Forall2 (fun p r => parseFileSync sampleEnv p = Normal r)
         (filePaths sampleParams) results
       /\ let ms := List.concat (List.map members results) in
          List.map clPlatformId (clMembers sampleArchive)
          = set_of_list String.eqb (List.map platformId ms)
          /\ NoDup (List.map clPlatformId (clMembers sampleArchive))
          /\ forall e, In e (clMembers sampleArchive) ->
               clName e :: match aliases e with Some al => al | None => [] end
               = set_of_list String.eqb
                   (List.map memberName
                      (filter (fun m => (platformId m =? clPlatformId e)%string) ms))
               /\ NoDup (clName e
                         :: match aliases e with Some al => al | None => [] end)
               /\ aliases e <> Some [].
Proof.
  assert (Hm : mergeFiles sampleEnv sampleParams []
               = (Normal (MergeSuccess samplePath (Some "session_1")), sampleTrace))
    by (vm_compute; reflexivity).
  assert (Hw : In (CallWrite samplePath sampleArchive) sampleTrace)
    by (simpl; auto).
  split; [exact Hm|]. split; [exact Hw|].
  exact (merged_members_first_seen sampleEnv sampleParams _ _ _ _ Hm Hw).
Defined.

(** X6. The header of the archive that [mergeFiles] writes: there is a
    first input file; the archive carries the requested name and the chat
    type of the first file; its platform is the platform of the first file
    when every file has that platform, and 'mixed' as soon as one file
    differs; and its sources are one entry per input file, in input
    order, with the basename, the platform and the number of parsed
    messages of that file. *)
Theorem written_archive_header :
  forall env params res t' path data,
    mergeFiles env params [] = (res, t') ->
    In (CallWrite path data) t' ->
    exists first rest,
      Forall2 (fun p r => parseFileSync env p = Normal r)
        (filePaths params) (first :: rest)
      /\ clMetaName (clMeta data) = outputName params
      /\ clMetaType (clMeta data) = metaType (meta first)
      /\ clMetaPlatform (clMeta data)
         = (if forallb (fun r => (metaPlatform (meta r)
                                  =? metaPlatform (meta first))%string) rest
            then metaPlatform (meta first)
            else "mixed")
      /\ Forall2 (fun p s =>
                    exists r, parseFileSync env p = Normal r
                              /\ filename s = basename env p
                              /\ srcPlatform s = metaPlatform (meta r)
                              /\ messageCount s = List.length (messages r))
           (filePaths params) (sources (clMeta data)).
Proof.
  intros env params res t' path data Hm Hw.
  destruct (mergeFiles_writes env params res t' path data Hm Hw) as (prs & Fp & B).
  destruct (collected_messages env (filePaths params) prs Fp) as [_ Fr].
  unfold buildChatLab in B. destruct prs as [|first rest]; [discriminate|].
  remember (mergedPlatform (first :: rest)) as pl eqn:Epl.
  remember (mergeSources (first :: rest)) as src eqn:Esrc.
  injection B as <-. cbn [clMeta clMetaName clMetaType clMetaPlatform sources].
  subst pl src.
  exists (fst first), (List.map fst rest).
  split; [exact Fr|]. split; [reflexivity|]. split; [reflexivity|]. split.
  - rewrite mergedPlatform_common_or_mixed. now rewrite forallb_of_map.
  - clear Fr Hm Hw. unfold mergeSources.
    induction Fp as [|p pr paths prs [Hp Hs] F IH]; cbn [List.map]; constructor.
    + exists (fst pr). cbn [filename srcPlatform messageCount]. auto.
    + exact IH.
Qed.

Lemma written_archive_header_witness :
  mergeFiles sampleEnv sampleParams []
  = (Normal (MergeSuccess samplePath (Some "session_1")), sampleTrace)
  /\ In (CallWrite samplePath sampleArchive) sampleTrace
  /\ exists first rest,
       Forall2 (fun p r => parseFileSync sampleEnv p = Normal r)
         (filePaths sampleParams) (first :: rest)
       /\ clMetaName (clMeta sampleArchive) = outputName sampleParams
       /\ clMetaType (clMeta sampleArchive) = metaType (meta first)
       /\ clMetaPlatform (clMeta sampleArchive)
          = (if forallb (fun r => (metaPlatform (meta r)
                                   =? metaPlatform (meta first))%string) rest
             then metaPlatform (meta first)
             else "mixed")
       /\ Forall2 (fun p s =>
                     exists r, parseFileSync sampleEnv p = Normal r
                               /\ filename s = basename sampleEnv p
                               /\ srcPlatform s = metaPlatform (meta r)
                               /\ messageCount s = List.length (messages r))
            (filePaths sampleParams) (sources (clMeta sampleArchive)).
Proof.
  assert (Hm : mergeFiles sampleEnv sampleParams []
               = (Normal (MergeSuccess samplePath (Some "session_1")), sampleTrace))
    by (vm_compute; reflexivity).
  assert (Hw : In (CallWrite samplePath sampleArchive) sampleTrace)
    by (simpl; auto).
  split; [exact Hm|]. split; [exact Hw|].
  exact (written_archive_header sampleEnv sampleParams _ _ _ _ Hm Hw).
Defined.

(** X7. The name of the output file holds no character that is unsafe
    in a file name (slash, backslash, question mark, percent, star, colon,
    bar, double quote, angle brackets), whatever the archive name is, as
    long as the date part of the clock reading holds none; the archive
    name keeps its length, and a name without such characters is kept as
    it is. *)
Theorem output_filename_is_safe :
  forall env name,
    (forall c, occurs c (String.substring 0 10 (isoNow env)) ->
               isUnsafeChar c = false) ->
    (forall c, occurs c (generateOutputFilename env name) -> isUnsafeChar c = false)
    /\ exists safeName date,
         generateOutputFilename env name
         = safeName ++ "_merged_" ++ date ++ ".chatlab.json"
         /\ String.length safeName = String.length name
         /\ ((forall c, occurs c name -> isUnsafeChar c = false) -> safeName = name).
Proof.
  intros env name Hdate. split.
  - intros c H. unfold generateOutputFilename in H.
    apply occurs_append in H as [H|H].
    + apply occurs_replaceChars in H as [->|[_ H]]; [reflexivity | assumption].
    + apply occurs_append in H as [H|H].
      * simpl in H.
        repeat (destruct H as [<-|H]; [reflexivity|]). contradiction.
      * apply occurs_append in H as [H|H].
        -- apply occurs_removeChars in H. now apply Hdate.
        -- simpl in H.
           repeat (destruct H as [<-|H]; [reflexivity|]). contradiction.
  - exists (replaceChars isUnsafeChar "_" name),
           (removeChars (Ascii.eqb "-") (String.substring 0 10 (isoNow env))).
    split; [reflexivity|]. split.
    + apply replaceChars_length.
    + apply replaceChars_safe.
Qed.

Lemma output_filename_is_safe_witness :
  (forall c, occurs c (String.substring 0 10 (isoNow sampleEnv)) ->
             isUnsafeChar c = false)
  /\ generateOutputFilename sampleEnv "a/b:c" = "a_b_c_merged_20250102.chatlab.json"
  /\ (forall c, occurs c (generateOutputFilename sampleEnv "a/b:c") ->
                isUnsafeChar c = false)
  /\ exists safeName date,
       generateOutputFilename sampleEnv "a/b:c"
       = safeName ++ "_merged_" ++ date ++ ".chatlab.json"
       /\ String.length safeName = String.length "a/b:c"
       /\ ((forall c, occurs c "a/b:c" -> isUnsafeChar c = false) -> safeName = "a/b:c").
Proof.
  assert (Hd : forall c, occurs c (String.substring 0 10 (isoNow sampleEnv)) ->
                         isUnsafeChar c = false).
  { intros c H. simpl in H.
    repeat (destruct H as [<-|H]; [reflexivity|]). contradiction. }
  split; [exact Hd|]. split; [reflexivity|].
  exact (output_filename_is_safe sampleEnv "a/b:c" Hd).
Defined.

End MergeSpec.


(* ===================================================================== *)
(** * The merge run: what it writes, creates and imports *)
(* ===================================================================== *)

Module MergeRunFacts.
Import Merger StringFacts MapFacts MergerFacts TraceFacts GroupFacts MergerSpec.
Import ConflictFacts.

(** The directory the archive goes to. *)
Local Abbreviation targetDirOf env params :=
  (match outputDir params with
   | Some d => if (d =? "")%string then getDefaultOutputDir env else d
   | None => getDefaultOutputDir env
   end).

Local Abbreviation outputPathOf env params :=
  (pathJoin env [targetDirOf env params;
                 generateOutputFilename env (outputName params)]).

(** [mergeFiles] once the files are parsed and the archive is built: the
    directory, the write and the import, in this order. *)
Lemma mergeFiles_after_build env params prs t1 data :
  forEach (parseForMerge env) (filePaths params) [] = (Normal prs, t1) ->
  buildChatLab env params prs = Normal data ->
  let dir := targetDirOf env params in
  let path := outputPathOf env params in
  let t2 := (t1 ++ (if existsSync env dir then [] else [CallMkdir dir]))%list in
  mergeFiles env params []
  = match (if existsSync env dir then Normal tt else mkdirSync env dir) with
    | Throw e => (Normal (MergeFailure (errorMessage e)), t2)
    | Normal _ =>
        match writeFileSync env path data with
        | Throw e =>
            (Normal (MergeFailure (errorMessage e)),
             (t2 ++ [CallWrite path data])%list)
        | Normal _ =>
            if andAnalyze params
            then
              match importData env (toParseResult data) with
              | Throw e =>
                  (Normal (MergeFailure (errorMessage e)),
                   (t2 ++ [CallWrite path data; CallImport (toParseResult data)])%list)
              | Normal sessionId =>
                  (Normal (MergeSuccess path (Some sessionId)),
                   (t2 ++ [CallWrite path data; CallImport (toParseResult data)])%list)
              end
            else (Normal (MergeSuccess path None), (t2 ++ [CallWrite path data])%list)
        end
    end.
Proof.
  intros P B dir path t2. subst dir path t2.
  unfold mergeFiles, tryCatch, mergeFilesBody.
  unfold bind at 1. rewrite P.
  unfold bind at 1, lift. rewrite B.
  unfold bind, ensureOutputDir, emit, lift, ret, bind.
  destruct (existsSync env _).
  - rewrite List.app_nil_r.
    destruct (writeFileSync env _ data); [|reflexivity].
    destruct (andAnalyze params); [|reflexivity].
    destruct (importData env _); now rewrite <- List.app_assoc.
  - destruct (mkdirSync env _); [|reflexivity].
    destruct (writeFileSync env _ data); [|reflexivity].
    destruct (andAnalyze params); [|reflexivity].
    destruct (importData env _); now rewrite <- List.app_assoc.
Qed.

(** The archive is built exactly when there is a parse result. *)
Lemma buildChatLab_built env params prs :
  prs <> [] -> exists data, buildChatLab env params prs = Normal data.
Proof.
  intros H. unfold buildChatLab. destruct prs; [contradiction|]. eauto.
Qed.

Lemma buildChatLab_empty env params :
  buildChatLab env params [] = Throw undefinedRead.
Proof. reflexivity. Qed.

Lemma parsedFrom_messages env paths :
  forall prs,
    Forall2 (parsedFrom env) paths prs ->
    forall m, In m (List.map msg (collectMessages prs)) ->
              exists p r, In p paths /\ parseFileSync env p = Normal r
                          /\ In m (messages r).
Proof.
  intros prs F. induction F as [|p pr paths prs [Hp Hs] F IH]; intros m H.
  - contradiction.
  - unfold collectMessages in H. cbn [List.map List.concat] in H.
    rewrite List.map_app in H. apply in_app_or in H as [H|H].
    + rewrite List.map_map in H. cbn [msg] in H. rewrite List.map_id in H.
      exists p, (fst pr). repeat split; auto. now left.
    + destruct (IH m H) as (p' & r & Hin & Hp' & Hm).
      exists p', r. repeat split; auto. now right.
Qed.

(** Converting a message to the archive and back gives the message. *)
Lemma message_round_trip (m : ParsedMessage) :
  mkMessage (sender (toChatLabMessage m)) (name (toChatLabMessage m))
    (clTimestamp (toChatLabMessage m)) (clType (toChatLabMessage m))
    (clContent (toChatLabMessage m)) = m.
Proof. now destruct m. Qed.

Lemma archive_round_trip (data : ChatLabFormat) :
  List.map toChatLabMessage (messages (toParseResult data)) = clMessages data.
Proof.
  unfold toParseResult. cbn [messages]. rewrite List.map_map.
  rewrite <- (List.map_id (clMessages data)) at 2.
  apply map_ext. now intros [].
Qed.

End MergeRunFacts.

Module MergeRunSpec.
Import Merger StringFacts MapFacts MergerFacts TraceFacts GroupFacts MergerSpec.
Import ConflictFacts MergeRunFacts Samples MoreSamples.

(** X8. A successful merge: when [mergeFiles] reports success with
    [outputPath] and [sessionId], every input file parsed, there was at
    least one, and the calls it made are: one parse per file in input
    order, the creation of the target directory if it did not exist, the
    write of an archive to [outputPath], which succeeded, and, exactly when
    [andAnalyze] is set, the import of that archive converted back, whose
    answer is the [sessionId]; without [andAnalyze] there is no
    [sessionId] and no import. *)
Theorem merge_success_trace :
  forall env params path sid t',
    mergeFiles env params [] = (Normal (MergeSuccess path sid), t') ->
    filePaths params <> []
    /\ (forall p, In p (filePaths params) ->
                  exists r, parseFileSync env p = Normal r)
    /\ exists dir data,
         dir = match outputDir params with
               | Some d => if (d =? "")%string then getDefaultOutputDir env else d
               | None => getDefaultOutputDir env
               end
         /\ path = pathJoin env [dir; generateOutputFilename env (outputName params)]
         /\ writeFileSync env path data = Normal tt
         /\ t' = (List.map CallParse (filePaths params)
                    ++ (if existsSync env dir then [] else [CallMkdir dir])
                    ++ CallWrite path data
                       :: (if andAnalyze params
                           then [CallImport (toParseResult data)] else []))%list
         /\ (if andAnalyze params
             then exists s, sid = Some s
                            /\ importData env (toParseResult data) = Normal s
             else sid = None).
Proof.
  intros env params path sid t' H.
  pose proof (forEach_parseForMerge env (filePaths params) []) as P.
  destruct (forEach (parseForMerge env) (filePaths params) []) as [[prs|e] t1] eqn:E.
  - destruct P as [F ->]. cbn [List.app] in *.
    destruct prs as [|pr prs].
    + (* no file *)
      unfold mergeFiles, tryCatch, mergeFilesBody in H.
      unfold bind at 1 in H. rewrite E in H.
      unfold bind at 1, lift in H. rewrite buildChatLab_empty in H.
      unfold ret in H. discriminate.
    + destruct (buildChatLab_built env params (pr :: prs)) as [data B];
        [discriminate|].
      rewrite (mergeFiles_after_build env params _ _ data E B) in H.
      cbv zeta in H.
      split; [intros C; rewrite C in F; inversion F|].
      split.
      { intros p Hp.
        destruct (collected_messages env _ _ F) as [_ F'].
        clear -F' Hp. revert Hp. induction F'; intros Hp; [contradiction|].
        destruct Hp as [<-|Hp]; eauto. }
      eexists. exists data. split; [reflexivity|].
      destruct (existsSync env _);
        [|destruct (mkdirSync env _); [|discriminate]];
        (destruct (writeFileSync env _ data) as [[]|] eqn:W; [|discriminate]);
        (destruct (andAnalyze params);
         [destruct (importData env _) as [s|] eqn:I; [|discriminate]|]);
        inversion H; subst;
        (split; [reflexivity|]); (split; [exact W|]);
        (split; [rewrite <- ?List.app_assoc; reflexivity|]);
        try reflexivity;
        exists s; split; reflexivity.
  - unfold mergeFiles, tryCatch, mergeFilesBody in H.
    unfold bind at 1 in H. rewrite E in H. unfold ret in H. discriminate.
Qed.

Lemma merge_success_trace_witness :
  mergeFiles sampleEnv sampleParams []
  = (Normal (MergeSuccess samplePath (Some "session_1")), sampleTrace)
  /\ filePaths sampleParams <> []
  /\ (forall p, In p (filePaths sampleParams) ->
                exists r, parseFileSync sampleEnv p = Normal r)
  /\ exists dir data,
       dir = match outputDir sampleParams with
             | Some d => if (d =? "")%string then getDefaultOutputDir sampleEnv else d
             | None => getDefaultOutputDir sampleEnv
             end
       /\ samplePath
          = pathJoin sampleEnv
              [dir; generateOutputFilename sampleEnv (outputName sampleParams)]
       /\ writeFileSync sampleEnv samplePath data = Normal tt
       /\ sampleTrace
          = (List.map CallParse (filePaths sampleParams)
               ++ (if existsSync sampleEnv dir then [] else [CallMkdir dir])
               ++ CallWrite samplePath data
                  :: (if andAnalyze sampleParams
                      then [CallImport (toParseResult data)] else []))%list
       /\ (if andAnalyze sampleParams
           then exists s, Some "session_1" = Some s
                          /\ importData sampleEnv (toParseResult data) = Normal s
           else Some "session_1" = None).
Proof.
  assert (H : mergeFiles sampleEnv sampleParams []
              = (Normal (MergeSuccess samplePath (Some "session_1")), sampleTrace))
    by (vm_compute; reflexivity).
  split; [exact H|].
  exact (merge_success_trace sampleEnv sampleParams samplePath
           (Some "session_1") sampleTrace H).
Defined.

(** X9. A merge that cannot start leaves nothing behind: with no input
    file, or with an input file whose parse fails, [mergeFiles] returns a
    failure, and the only calls it has made are parses: no directory is
    created, nothing is written and nothing is imported. *)
Theorem merge_failure_leaves_nothing :
  forall env params,
    filePaths params = []
    \/ (exists p e, In p (filePaths params) /\ parseFileSync env p = Throw e) ->
    exists message t',
      mergeFiles env params [] = (Normal (MergeFailure message), t')
      /\ forall c, In c t' -> exists p, c = CallParse p.
Proof.
  intros env params H.
  pose proof (forEach_parseForMerge env (filePaths params) []) as P.
  unfold mergeFiles, tryCatch, mergeFilesBody. unfold bind at 1.
  destruct (forEach (parseForMerge env) (filePaths params) []) as [[prs|e] t1] eqn:E.
  - destruct P as [F ->]. cbn [List.app].
    destruct H as [H|(p & e & Hp & He)].
    + rewrite H in *. inversion F; subst.
      unfold bind at 1, lift. rewrite buildChatLab_empty. unfold ret.
      eexists. eexists. split; [reflexivity|]. intros c [].
    + exfalso. destruct (collected_messages env _ _ F) as [_ F'].
      clear -F' Hp He. revert Hp. induction F' as [|q r paths rs Hq F' IH];
        intros Hp; [contradiction|].
      destruct Hp as [<-|Hp]; [congruence | now apply IH].
  - destruct P as [_ Tr]. unfold ret.
    eexists. eexists. split; [reflexivity|].
    intros c Hc. destruct (Tr c Hc) as [[]|?]. assumption.
Qed.

Lemma merge_failure_leaves_nothing_witness :
  (filePaths unreadableParams = []
   \/ exists p e, In p (filePaths unreadableParams)
                  /\ parseFileSync sampleEnv p = Throw e)
  /\ mergeFiles sampleEnv unreadableParams []
     = (Normal (MergeFailure "parse error"),
        [CallParse "a.json"; CallParse "zzz.json"])
  /\ exists message t',
       mergeFiles sampleEnv unreadableParams [] = (Normal (MergeFailure message), t')
       /\ forall c, In c t' -> exists p, c = CallParse p.
Proof.
  assert (H : filePaths unreadableParams = []
              \/ exists p e, In p (filePaths unreadableParams)
                             /\ parseFileSync sampleEnv p = Throw e).
  { right. exists "zzz.json", (JsError "parse error").
    split; [simpl; auto | reflexivity]. }
  split; [exact H|]. split; [vm_compute; reflexivity|].
  exact (merge_failure_leaves_nothing sampleEnv unreadableParams H).
Defined.

(** X10. The session store receives only what was written: whenever
    [mergeFiles] calls [importData], [andAnalyze] is set, the archive has
    been written before and that write succeeded, and the imported data are
    the archive converted back: converting the imported messages to the
    archive again gives the archive's messages, every imported message is
    a message of one of the input files, unchanged, and the imported
    members are the archive's members without their aliases. *)
Theorem import_is_written_archive :
  forall env params res t' imported,
    mergeFiles env params [] = (res, t') ->
    In (CallImport imported) t' ->
    andAnalyze params = true
    /\ exists path data before after,
         t' = (before ++ CallWrite path data :: CallImport imported :: after)%list
         /\ writeFileSync env path data = Normal tt
         /\ List.map toChatLabMessage (messages imported) = clMessages data
         /\ members imported
            = List.map (fun m => mkMember (clPlatformId m) (clName m)) (clMembers data)
         /\ forall m, In m (messages imported) ->
              exists p r, In p (filePaths params)
                          /\ parseFileSync env p = Normal r
                          /\ In m (messages r).
Proof.
  intros env params res t' imported H Hin.
  pose proof (forEach_parseForMerge env (filePaths params) []) as P.
  destruct (forEach (parseForMerge env) (filePaths params) []) as [[prs|e] t1] eqn:E.
  - destruct P as [F ->]. cbn [List.app] in *.
    destruct prs as [|pr prs].
    + unfold mergeFiles, tryCatch, mergeFilesBody in H.
      unfold bind at 1 in H. rewrite E in H.
      unfold bind at 1, lift in H. rewrite buildChatLab_empty in H.
      unfold ret in H. inversion H; subst.
      apply in_map_iff in Hin as (? & [=] & _).
    + destruct (buildChatLab_built env params (pr :: prs)) as [data B];
        [discriminate|].
      rewrite (mergeFiles_after_build env params _ _ data E B) in H.
      cbv zeta in H.
      assert (Hmsgs : forall m, In m (messages (toParseResult data)) ->
                 exists p r, In p (filePaths params)
                             /\ parseFileSync env p = Normal r
                             /\ In m (messages r)).
      { intros m Hm. apply (parsedFrom_messages env _ _ F).
        unfold toParseResult in Hm. cbn [messages] in Hm.
        apply in_map_iff in Hm as (c & <- & Hc).
        rewrite (buildChatLab_messages env params _ data B) in Hc.
        rewrite mergedMessages_spec in Hc.
        apply (Permutation_in _ (Permutation_sym (sortByTimestamp_perm _))) in Hc.
        apply in_map_iff in Hc as (m0 & <- & Hm0).
        rewrite message_round_trip.
        apply (firstOccurrences_In fingerprint_eqb fingerprint_eqb_spec) in Hm0
          as [_ Hf].
        now apply find_some in Hf as [Hf _]. }
      destruct (existsSync env _);
        [|destruct (mkdirSync env _);
          [|inversion H; subst; clear H;
            apply in_app_or in Hin; destruct Hin as [Hin|Hin];
            [apply in_map_iff in Hin; destruct Hin as (? & [=] & _)
            |simpl in Hin; destruct Hin as [Hin|[]]; discriminate Hin]]];
        (destruct (writeFileSync env _ data) as [[]|] eqn:W;
         [destruct (andAnalyze params) eqn:A;
          [destruct (importData env _)|]|]);
        inversion H; subst; clear H;
        repeat (apply in_app_or in Hin; destruct Hin as [Hin|Hin]);
        try (apply in_map_iff in Hin; destruct Hin as (? & [=] & _));
        simpl in Hin;
        repeat match goal with
               | H : _ \/ _ |- _ => destruct H as [H|H]
               | H : False |- _ => contradiction
               | H : CallMkdir _ = CallImport _ |- _ => discriminate H
               | H : CallWrite _ _ = CallImport _ |- _ => discriminate H
               | H : CallImport _ = CallImport _ |- _ => inversion H; subst; clear H
               end;
        (split; [reflexivity|]);
        eexists; exists data; eexists; exists [];
        (split; [reflexivity|]);
        (split; [exact W|]);
        (split; [apply archive_round_trip|]);
        (split; [reflexivity | exact Hmsgs]).
  - unfold mergeFiles, tryCatch, mergeFilesBody in H.
    unfold bind at 1 in H. rewrite E in H. unfold ret in H.
    inversion H; subst. destruct P as [_ Tr].
    destruct (Tr _ Hin) as [[]|(? & [=])].
Qed.

Lemma import_is_written_archive_witness :
  mergeFiles sampleEnv sampleParams []
  = (Normal (MergeSuccess samplePath (Some "session_1")), sampleTrace)
  /\ In (CallImport (toParseResult sampleArchive)) sampleTrace
  /\ andAnalyze sampleParams = true
  /\ exists path data before after,
       sampleTrace
       = (before ++ CallWrite path data
            :: CallImport (toParseResult sampleArchive) :: after)%list
       /\ writeFileSync sampleEnv path data = Normal tt
       /\ List.map toChatLabMessage (messages (toParseResult sampleArchive))
          = clMessages data
       /\ members (toParseResult sampleArchive)
          = List.map (fun m => mkMember (clPlatformId m) (clName m)) (clMembers data)
       /\ forall m, In m (messages (toParseResult sampleArchive)) ->
            exists p r, In p (filePaths sampleParams)
                        /\ parseFileSync sampleEnv p = Normal r
                        /\ In m (messages r).
Proof.
  assert (H : mergeFiles sampleEnv sampleParams []
              = (Normal (MergeSuccess samplePath (Some "session_1")), sampleTrace))
    by (vm_compute; reflexivity).
  assert (Hin : In (CallImport (toParseResult sampleArchive)) sampleTrace)
    by (simpl; auto 10).
  split; [exact H|]. split; [exact Hin|].
  exact (import_is_written_archive sampleEnv sampleParams _ _ _ H Hin).
Defined.

End MergeRunSpec.


(* ===================================================================== *)
(** * The streaming parsers: batches, members and yielded messages *)
(* ===================================================================== *)

Module StreamFacts.
Import Parser MapFacts GroupFacts ParserFacts.

(** ** The batching loop *)

Lemma sliceLoop_nonempty {A} (fuel i batchSize : nat) (l : list A) :
  sliceLoop fuel i batchSize l <> [] -> (i < List.length l)%nat.
Proof.
  destruct fuel; simpl; [congruence|].
  destruct (i <? List.length l)%nat eqn:E; [|congruence].
  intros _. now apply Nat.ltb_lt.
Qed.

Lemma sliceLoop_sizes {A} (batchSize : nat) (l : list A) :
  (0 < batchSize)%nat ->
  forall fuel i b,
    In b (sliceLoop fuel i batchSize l) ->
    (1 <= List.length b <= batchSize)%nat.
Proof.
  intros Hb. induction fuel as [|fuel IH]; intros i b H; simpl in H; [contradiction|].
  destruct (i <? List.length l)%nat eqn:E; [|contradiction].
  apply Nat.ltb_lt in E. destruct H as [<-|H]; [|now apply (IH _ _ H)].
  rewrite List.length_firstn, List.length_skipn. lia.
Qed.

Lemma sliceLoop_full {A} (batchSize : nat) (l : list A) :
  forall fuel i pre b b' post,
    sliceLoop fuel i batchSize l = (pre ++ b :: b' :: post)%list ->
    List.length b = batchSize.
Proof.
  induction fuel as [|fuel IH]; intros i pre b b' post H; simpl in H.
  - destruct pre; discriminate.
  - destruct (i <? List.length l)%nat eqn:E; [|destruct pre; discriminate].
    destruct pre as [|p pre]; cbn [List.app] in H.
    + inversion H as [[Hb Hrest]].
      assert (N : sliceLoop fuel (i + batchSize) batchSize l <> [])
        by (rewrite Hrest; discriminate).
      apply sliceLoop_nonempty in N.
      rewrite List.length_firstn, List.length_skipn. lia.
    + inversion H as [[Hp Hrest]]. now apply (IH _ _ _ _ _ Hrest).
Qed.

(** Two consecutive [messages] events of a parse are two consecutive
    batches. *)
Lemma consecutive_batches (h1 h2 h3 t1 t2 : ParseEvent) (batches : list (list ParsedMessage)) :
  (forall b, h1 <> EvMessages b) -> (forall b, h2 <> EvMessages b) ->
  (forall b, h3 <> EvMessages b) -> (forall b, t1 <> EvMessages b) ->
  (forall b, t2 <> EvMessages b) ->
  forall pre b b' post,
    ([h1; h2] ++ [h3] ++ List.map EvMessages batches ++ [t1; t2])%list
    = (pre ++ EvMessages b :: EvMessages b' :: post)%list ->
    exists p q, batches = (p ++ b :: b' :: q)%list.
Proof.
  intros H1 H2 H3 T1 T2 pre b b' post E. cbn [List.app] in E.
  destruct pre as [|x1 pre]; cbn [List.app] in E;
    [inversion E; exfalso; eapply H1; eauto|].
  destruct pre as [|x2 pre]; cbn [List.app] in E;
    [inversion E; exfalso; eapply H2; eauto|].
  destruct pre as [|x3 pre]; cbn [List.app] in E;
    [inversion E; exfalso; eapply H3; eauto|].
  inversion E as [[E1 E2 E3 E4]]. clear E E1 E2 E3.
  revert pre E4. induction batches as [|x batches IH]; intros pre E.
  - cbn [List.map List.app] in E.
    destruct pre as [|y1 pre]; cbn [List.app] in E;
      [inversion E; exfalso; eapply T1; eauto|].
    destruct pre as [|y2 pre]; cbn [List.app] in E;
      [inversion E; exfalso; eapply T1; eauto|].
    destruct pre; discriminate.
  - cbn [List.map List.app] in E. destruct pre as [|y pre]; cbn [List.app] in E.
    + inversion E as [[Ex Er]]. destruct batches as [|x' batches].
      * cbn [List.map List.app] in Er. inversion Er. exfalso; eapply T1; eauto.
      * cbn [List.map List.app] in Er. inversion Er. now exists [], batches.
    + inversion E as [[Ex Er]]. destruct (IH _ Er) as (p & q & ->).
      now exists (x :: p), q.
Qed.

Section Streaming.
Context {T C : Type}.
Variable parseTimestamp : T -> option Z.
Variable isValidYear : Z -> bool.
Variable typeOfCode : option C -> MessageType.

Local Abbreviation processMessage := (processMessage parseTimestamp isValidYear typeOfCode).
Local Abbreviation keptMessage := (keptMessage parseTimestamp isValidYear typeOfCode).
Local Abbreviation keptMessages := (keptMessages parseTimestamp isValidYear typeOfCode).
Local Abbreviation onData := (onData parseTimestamp isValidYear typeOfCode).
Local Abbreviation parse := (parse parseTimestamp isValidYear typeOfCode).

(** The events of a parse that ends without error, with the batches of
    the final loop. *)
Lemma parse_batches batchSize (f : SourceFile (RawMessage T C)) :
  pipelineError f = None ->
  let st := onEnd (fold_left (onData batchSize) (records f) initialState) in
  fst (parse batchSize f)
  = ([ EvProgress (mkProgress StageParsing 0 (fileSize f) 0 "开始解析...");
       EvMeta (parseMeta f) ]
       ++ [EvMembers (map_values (memberMap st))]
       ++ List.map EvMessages
            (sliceLoop (List.length (messageBatch st)) 0 batchSize (messageBatch st))
       ++ [ EvProgress (mkProgress StageDone (fileSize f) (fileSize f)
                          (processed st) "解析完成");
            EvDone (processed st) (map_size (memberMap st)) ])%list.
Proof. intros He st. unfold Parser.parse. rewrite He. reflexivity. Qed.

Lemma truthy_nonempty s v : truthy s = Some v -> v <> "".
Proof.
  unfold truthy. destruct s as [w|]; [|discriminate].
  destruct (w =? "")%string eqn:E; [discriminate|].
  intros [= <-]. now apply String.eqb_neq.
Qed.

Lemma resolveSender_nonempty s pid : resolveSender s = Some pid -> pid <> "".
Proof.
  unfold resolveSender. destruct (truthy (uin s)) as [v|] eqn:E.
  - intros [= <-]. now apply (truthy_nonempty _ _ E).
  - apply truthy_nonempty.
Qed.

Lemma orElseName_nonempty nm pid : pid <> "" -> orElseName nm pid <> "".
Proof.
  unfold orElseName. destruct (nm =? "")%string eqn:E; [auto|].
  intros _. now apply String.eqb_neq.
Qed.

(** What a kept record turns into. *)
Lemma keptMessage_fields (r : RawMessage T C) m :
  keptMessage r = Some m ->
  resolveSender (rawSender r) = Some (senderPlatformId m)
  /\ senderName m = orElseName (rawName (rawSender r)) (senderPlatformId m)
  /\ parseTimestamp (rawTimestamp r) = Some (timestamp m)
  /\ isValidYear (timestamp m) = true
  /\ content m <> Some "".
Proof.
  unfold Parser.keptMessage, Parser.processMessage.
  destruct (resolveSender (rawSender r)) as [pid|]; [|discriminate].
  destruct (parseTimestamp (rawTimestamp r)) as [ts|]; [|discriminate].
  destruct (isValidYear ts) eqn:V; [|discriminate].
  cbn. intros [= <-]. cbn. repeat split; auto.
  destruct (_ =? "")%string eqn:E; [discriminate|].
  intros [= C0]. rewrite C0 in E. discriminate.
Qed.

(** The entry of the member map for an identifier comes from the last
    record that resolves to it. *)
Lemma members_last_record (rs : list (RawMessage T C)) :
  forall k v,
    map_get String.eqb k (fold_left (fun mm r => fst (processMessage mm r)) rs [])
    = Some v ->
    exists before r after,
      rs = (before ++ r :: after)%list
      /\ resolveSender (rawSender r) = Some k
      /\ v = mkMember k (orElseName (rawName (rawSender r)) k)
      /\ forall r', In r' after -> resolveSender (rawSender r') <> Some k.
Proof.
  induction rs as [|r rs IH] using rev_ind; intros k v H.
  - discriminate.
  - rewrite fold_left_app in H. cbn [fold_left] in H.
    rewrite processMessage_members in H.
    destruct (resolveSender (rawSender r)) as [q|] eqn:E.
    + rewrite (map_get_set String.eqb String.eqb_eq) in H.
      destruct (k =? q)%string eqn:Ek.
      * apply String.eqb_eq in Ek. subst q. inversion H; subst v.
        exists rs, r, []. repeat split; auto.
      * destruct (IH k v H) as (before & r0 & after & -> & R0 & V0 & A0).
        exists before, r0, (after ++ [r])%list. repeat split; auto.
        -- now rewrite <- List.app_assoc.
        -- intros r' Hr'. apply in_app_or in Hr' as [Hr'|[<-|[]]]; [now apply A0|].
           rewrite E. intros [= ->]. rewrite String.eqb_refl in Ek. discriminate.
    + destruct (IH k v H) as (before & r0 & after & -> & R0 & V0 & A0).
      exists before, r0, (after ++ [r])%list. repeat split; auto.
      * now rewrite <- List.app_assoc.
      * intros r' Hr'. apply in_app_or in Hr' as [Hr'|[<-|[]]]; [now apply A0|].
        rewrite E. discriminate.
Qed.

End Streaming.

End StreamFacts.

Module StreamSpec.
Import Parser MapFacts GroupFacts ParserFacts StreamFacts Samples MoreSamples.

(** X11. The batches of a parse (legacy and V4; [batchSize] positive,
    pipeline ending without error): every [messages] event holds at least
    one and at most [batchSize] messages, and a [messages] event that is
    followed by another one holds exactly [batchSize] messages, so only
    the last batch can be short. *)
Theorem batches_full_but_last :
  forall (T C : Type) (parseTimestamp : T -> option Z) (isValidYear : Z -> bool)
         (typeOfCode : option C -> MessageType)
         (batchSize : nat) (f : SourceFile (RawMessage T C)),
    (0 < batchSize)%nat ->
    pipelineError f = None ->
    let events := fst (parse parseTimestamp isValidYear typeOfCode batchSize f) in
    (forall b, In (EvMessages b) events ->
               (1 <= List.length b <= batchSize)%nat)
    /\ (forall pre b b' post,
          events = (pre ++ EvMessages b :: EvMessages b' :: post)%list ->
          List.length b = batchSize).
Proof.
  intros T C pt ivy toc batchSize f Hb He events.
  unfold events. rewrite (parse_batches pt ivy toc batchSize f He).
  set (st := onEnd _). split.
  - intros b H.
    apply in_app_or in H as [H|H];
      [destruct H as [H|[H|[]]]; discriminate H|].
    apply in_app_or in H as [H|H];
      [destruct H as [H|[]]; discriminate H|].
    apply in_app_or in H as [H|H];
      [|destruct H as [H|[H|[]]]; discriminate H].
    apply in_map_iff in H as (b0 & [= ->] & H).
    now apply (sliceLoop_sizes batchSize _ Hb _ _ _ H).
  - intros pre b b' post E.
    apply consecutive_batches in E as (p & q & E); try (intros; discriminate).
    now apply (sliceLoop_full _ _ _ _ _ _ _ _ E).
Qed.

(** The legacy sample read in batches of one: two full batches. *)
Lemma batches_full_but_last_witness :
  (0 < 1)%nat
  /\ pipelineError legacyFile = None
  /\ (forall b,
        In (EvMessages b)
          (fst (parseLegacy Utils.parseTimestamp (Utils.isValidYear 0) (Some 1%nat)
                  legacyFile)) ->
        (1 <= List.length b <= 1)%nat)
  /\ (forall pre b b' post,
        fst (parseLegacy Utils.parseTimestamp (Utils.isValidYear 0) (Some 1%nat)
               legacyFile)
        = (pre ++ EvMessages b :: EvMessages b' :: post)%list ->
        List.length b = 1%nat).
Proof.
  split; [lia|]. split; [reflexivity|].
  exact (batches_full_but_last Z string Utils.parseTimestamp (Utils.isValidYear 0)
           legacyTypeOfCode 1 legacyFile (Nat.lt_0_succ 0) eq_refl).
Defined.

(** X12. Members and counts of a parse ([batchSize] positive, pipeline
    ending without error): the [members] event lists every member
    identifier once, the sender of every yielded message is among them, and
    the [done] event carries the number of yielded messages and the number
    of members. *)
Theorem senders_are_members :
  forall (T C : Type) (parseTimestamp : T -> option Z) (isValidYear : Z -> bool)
         (typeOfCode : option C -> MessageType)
         (batchSize : nat) (f : SourceFile (RawMessage T C)),
    (0 < batchSize)%nat ->
    pipelineError f = None ->
    let events := fst (parse parseTimestamp isValidYear typeOfCode batchSize f) in
    exists ms,
      In (EvMembers ms) events
      /\ NoDup (List.map platformId ms)
      /\ (forall m, In m (emittedMessages events) ->
                    In (senderPlatformId m) (List.map platformId ms))
      /\ In (EvDone (List.length (emittedMessages events)) (List.length ms)) events.
Proof.
  intros T C pt ivy toc batchSize f Hb He events.
  pose proof (emitted_of_parse pt ivy toc batchSize f Hb He) as Em.
  fold events in Em.
  destruct (parse_events pt ivy toc batchSize f Hb He) as (bs & P & Cc & Pr & Mm).
  cbn zeta in P.
  set (st := onEnd (fold_left (onData pt ivy toc batchSize) (records f) initialState))
    in *.
  assert (Ev : events = fst (parse pt ivy toc batchSize f)) by reflexivity.
  rewrite P in Ev. cbn [fst] in Ev.
  destruct (members_fold_wf pt ivy toc (records f) [] (NoDup_nil _) eq_refl)
    as [N W].
  cbn zeta in N, W. rewrite <- Mm in N, W.
  exists (map_values (memberMap st)). split; [|split; [|split]].
  - rewrite Ev. simpl. auto.
  - now rewrite W.
  - intros m Hm. rewrite Em in Hm.
    apply (keptMessages_In pt ivy toc) in Hm as (r & Hr & K).
    apply (keptMessage_sender pt ivy toc) in K.
    rewrite W, Mm. apply (members_fold_keys pt ivy toc). right. now exists r.
  - rewrite Em, <- Pr. unfold map_values. rewrite List.length_map.
    rewrite Ev. apply in_or_app. right. apply in_or_app. right.
    apply in_or_app. right. right. now left.
Qed.

Lemma senders_are_members_witness :
  (0 < 5000)%nat
  /\ pipelineError legacyFile = None
  /\ exists ms,
       In (EvMembers ms)
         (fst (parseLegacy Utils.parseTimestamp (Utils.isValidYear 0) None legacyFile))
       /\ NoDup (List.map platformId ms)
       /\ (forall m,
             In m (emittedMessages
                     (fst (parseLegacy Utils.parseTimestamp (Utils.isValidYear 0) None
                             legacyFile))) ->
             In (senderPlatformId m) (List.map platformId ms))
       /\ In (EvDone
                (List.length
                   (emittedMessages
                      (fst (parseLegacy Utils.parseTimestamp (Utils.isValidYear 0) None
                              legacyFile))))
                (List.length ms))
            (fst (parseLegacy Utils.parseTimestamp (Utils.isValidYear 0) None legacyFile)).
Proof.
  assert (Hb : (0 < 5000)%nat) by lia.
  split; [exact Hb|]. split; [reflexivity|].
  exact (senders_are_members Z string Utils.parseTimestamp (Utils.isValidYear 0)
           legacyTypeOfCode 5000 legacyFile Hb eq_refl).
Defined.

(** X13. The name of a member is the latest one: every entry of the
    [members] event stems from the last record of the file that resolves to
    its identifier, and carries the name of that record, or the identifier
    when that record has an empty name, whether the record itself is kept
    or dropped. *)
Theorem member_name_is_latest :
  forall (T C : Type) (parseTimestamp : T -> option Z) (isValidYear : Z -> bool)
         (typeOfCode : option C -> MessageType)
         (batchSize : nat) (f : SourceFile (RawMessage T C)) ms mem,
    (0 < batchSize)%nat ->
    pipelineError f = None ->
    In (EvMembers ms) (fst (parse parseTimestamp isValidYear typeOfCode batchSize f)) ->
    In mem ms ->
    exists before r after,
      records f = (before ++ r :: after)%list
      /\ resolveSender (rawSender r) = Some (platformId mem)
      /\ memberName mem = orElseName (rawName (rawSender r)) (platformId mem)
      /\ forall r', In r' after ->
                    resolveSender (rawSender r') <> Some (platformId mem).
Proof.
  intros T C pt ivy toc batchSize f ms mem Hb He Hev Hmem.
  destruct (parse_events pt ivy toc batchSize f Hb He) as (bs & P & _ & _ & Mm).
  cbn zeta in P.
  set (st := onEnd (fold_left (onData pt ivy toc batchSize) (records f) initialState))
    in *.
  rewrite P in Hev. cbn [fst] in Hev.
  assert (Hms : ms = map_values (memberMap st)).
  { apply in_app_or in Hev as [H|H];
      [destruct H as [H|[H|[]]]; discriminate H|].
    apply in_app_or in H as [H|H];
      [destruct H as [H|[]]; now inversion H|].
    apply in_app_or in H as [H|H].
    - apply in_map_iff in H as (? & [=] & _).
    - destruct H as [H|[H|[]]]; discriminate H. }
  subst ms. unfold map_values in Hmem.
  apply in_map_iff in Hmem as ([k v] & Ev & Hin). cbn [snd] in Ev. subst v.
  destruct (members_fold_wf pt ivy toc (records f) [] (NoDup_nil _) eq_refl)
    as [N _].
  cbn zeta in N. rewrite <- Mm in N.
  apply (map_get_of_In String.eqb String.eqb_eq _ _ _ N) in Hin.
  rewrite Mm in Hin.
  destruct (members_last_record pt ivy toc (records f) k mem Hin)
    as (before & r & after & E & R & V & A).
  subst mem. cbn [platformId memberName].
  exists before, r, after. auto.
Qed.

(** Alice renamed: her two records carry two names, the member entry has
    the later one. *)
Lemma member_name_is_latest_witness :
  (0 < 5000)%nat
  /\ pipelineError renamedFile = None
  /\ In (EvMembers [mkMember "1001" "alicia"])
       (fst (parse Utils.parseTimestamp (Utils.isValidYear 0) legacyTypeOfCode 5000
               renamedFile))
  /\ In (mkMember "1001" "alicia") [mkMember "1001" "alicia"]
  /\ exists before r after,
       records renamedFile = (before ++ r :: after)%list
       /\ resolveSender (rawSender r) = Some (platformId (mkMember "1001" "alicia"))
       /\ memberName (mkMember "1001" "alicia")
          = orElseName (rawName (rawSender r)) (platformId (mkMember "1001" "alicia"))
       /\ forall r', In r' after ->
                     resolveSender (rawSender r')
                     <> Some (platformId (mkMember "1001" "alicia")).
Proof.
  assert (Hb : (0 < 5000)%nat) by lia.
  assert (Hev : In (EvMembers [mkMember "1001" "alicia"])
                  (fst (parse Utils.parseTimestamp (Utils.isValidYear 0)
                          legacyTypeOfCode 5000 renamedFile)))
    by (vm_compute; auto).
  assert (Hmem : In (mkMember "1001" "alicia") [mkMember "1001" "alicia"])
    by (simpl; auto).
  split; [exact Hb|]. split; [reflexivity|]. split; [exact Hev|].
  split; [exact Hmem|].
  exact (member_name_is_latest Z string Utils.parseTimestamp (Utils.isValidYear 0)
           legacyTypeOfCode 5000 renamedFile _ _ Hb eq_refl Hev Hmem).
Defined.

(** X14. Every yielded message is well formed: it stems from a record
    of the file whose sender resolves to its non-empty sender identifier
    and whose time stamp parses to its time stamp, that time stamp passes
    [isValidYear], its sender name is not empty (the identifier stands in
    for an empty name), and its content is absent rather than an empty
    string. *)
Theorem yielded_messages_well_formed :
  forall (T C : Type) (parseTimestamp : T -> option Z) (isValidYear : Z -> bool)
         (typeOfCode : option C -> MessageType)
         (batchSize : nat) (f : SourceFile (RawMessage T C)) m,
    (0 < batchSize)%nat ->
    pipelineError f = None ->
    In m (emittedMessages
            (fst (parse parseTimestamp isValidYear typeOfCode batchSize f))) ->
    (exists r, In r (records f)
               /\ resolveSender (rawSender r) = Some (senderPlatformId m)
               /\ parseTimestamp (rawTimestamp r) = Some (timestamp m))
    /\ senderPlatformId m <> ""
    /\ senderName m <> ""
    /\ isValidYear (timestamp m) = true
    /\ content m <> Some "".
Proof.
  intros T C pt ivy toc batchSize f m Hb He Hm.
  rewrite (emitted_of_parse pt ivy toc batchSize f Hb He) in Hm.
  apply (keptMessages_In pt ivy toc) in Hm as (r & Hr & K).
  apply (keptMessage_fields pt ivy toc) in K as (R & Nm & Ts & V & Cn).
  pose proof (resolveSender_nonempty _ _ R) as Hid.
  split; [now exists r|]. split; [assumption|]. split.
  - rewrite Nm. now apply orElseName_nonempty.
  - now split.
Qed.

Lemma yielded_messages_well_formed_witness :
  (0 < 5000)%nat
  /\ pipelineError legacyFile = None
  /\ In (mkMessage "1001" "alice" 1700000000 TEXT (Some "late"))
       (emittedMessages
          (fst (parse Utils.parseTimestamp (Utils.isValidYear 0) legacyTypeOfCode 5000
                  legacyFile)))
  /\ (exists r, In r (records legacyFile)
                /\ resolveSender (rawSender r) = Some "1001"
                /\ Utils.parseTimestamp (rawTimestamp r) = Some 1700000000)
  /\ "1001" <> ""
  /\ "alice" <> ""
  /\ Utils.isValidYear 0 1700000000 = true
  /\ Some "late" <> Some "".
Proof.
  assert (Hb : (0 < 5000)%nat) by lia.
  assert (Hm : In (mkMessage "1001" "alice" 1700000000 TEXT (Some "late"))
                 (emittedMessages
                    (fst (parse Utils.parseTimestamp (Utils.isValidYear 0)
                            legacyTypeOfCode 5000 legacyFile))))
    by (vm_compute; auto).
  split; [exact Hb|]. split; [reflexivity|]. split; [exact Hm|].
  exact (yielded_messages_well_formed Z string Utils.parseTimestamp
           (Utils.isValidYear 0) legacyTypeOfCode 5000 legacyFile _ Hb eq_refl Hm).
Defined.

End StreamSpec.


(* ===================================================================== *)
(** * The format sniffer: registry order and first match *)
(* ===================================================================== *)

Module SnifferFacts.
Import Sniffer.

Section Registry.
Context {P : Type}.

Local Abbreviation Mod := (FormatModule P).

Lemma insertByPriority_perm (m : Mod) l :
  Permutation (m :: l) (insertByPriority m l).
Proof.
  induction l as [|y l IH]; simpl; [apply Permutation_refl|].
  destruct (modulePriority m <=? modulePriority y); [apply Permutation_refl|].
  eapply Permutation_trans; [apply perm_swap|]. now apply perm_skip.
Qed.

Lemma sortByPriority_perm (l : list Mod) : Permutation l (sortByPriority l).
Proof.
  induction l as [|x l IH]; simpl; [constructor|].
  eapply Permutation_trans; [apply perm_skip, IH|]. apply insertByPriority_perm.
Qed.

Lemma insertByPriority_sorted (m : Mod) l :
  Sorted Z.le (List.map (@modulePriority P) l) ->
  Sorted Z.le (List.map (@modulePriority P) (insertByPriority m l)).
Proof.
  induction l as [|y l IH]; simpl; intros S.
  - repeat constructor.
  - destruct (modulePriority m <=? modulePriority y) eqn:E.
    + simpl. constructor; [assumption|]. constructor. now apply Z.leb_le.
    + simpl. apply Z.leb_gt in E. inversion S as [|? ? S' Hd]; subst.
      constructor; [now apply IH|].
      destruct l as [|z l]; simpl.
      * constructor. lia.
      * destruct (modulePriority m <=? modulePriority z); simpl;
          constructor; [lia|]. now inversion Hd.
Qed.

Lemma sortByPriority_sorted (l : list Mod) :
  Sorted Z.le (List.map (@modulePriority P) (sortByPriority l)).
Proof.
  induction l as [|x l IH]; simpl; [constructor|].
  now apply insertByPriority_sorted.
Qed.

(** Insertions of modules of different priorities commute. *)
Lemma insertByPriority_comm (a y : Mod) t :
  modulePriority y < modulePriority a ->
  insertByPriority y (insertByPriority a t)
  = insertByPriority a (insertByPriority y t).
Proof.
  intros L. induction t as [|z t IH]; simpl.
  - destruct (modulePriority y <=? modulePriority a) eqn:E1;
      [|apply Z.leb_gt in E1; lia].
    destruct (modulePriority a <=? modulePriority y) eqn:E2;
      [apply Z.leb_le in E2; lia | reflexivity].
  - destruct (modulePriority a <=? modulePriority z) eqn:Ea;
      destruct (modulePriority y <=? modulePriority z) eqn:Ey; simpl;
      rewrite ?Ea, ?Ey.
    + destruct (modulePriority y <=? modulePriority a) eqn:E1;
        [|apply Z.leb_gt in E1; lia].
      destruct (modulePriority a <=? modulePriority y) eqn:E2;
        [apply Z.leb_le in E2; lia | reflexivity].
    + apply Z.leb_le in Ea. apply Z.leb_gt in Ey. lia.
    + destruct (modulePriority a <=? modulePriority y) eqn:E2;
        [apply Z.leb_le in E2; lia | reflexivity].
    + now rewrite IH.
Qed.

Lemma fold_insert_insert (a : Mod) (b s : list Mod) :
  fold_right (@insertByPriority P) b (insertByPriority a s)
  = insertByPriority a (fold_right (@insertByPriority P) b s).
Proof.
  induction s as [|y s IH]; simpl; [reflexivity|].
  destruct (modulePriority a <=? modulePriority y) eqn:E; simpl; [reflexivity|].
  rewrite IH. apply insertByPriority_comm. now apply Z.leb_gt.
Qed.

Lemma fold_insert_sorted (b l : list Mod) :
  fold_right (@insertByPriority P) b (sortByPriority l)
  = fold_right (@insertByPriority P) b l.
Proof.
  induction l as [|a l IH]; simpl; [reflexivity|].
  now rewrite fold_insert_insert, IH.
Qed.

(** Registering one by one is sorting the registration sequence. *)
Lemma registerAll_sort (ms : list Mod) :
  registerAll [] ms = sortByPriority ms.
Proof.
  unfold registerAll.
  induction ms as [|m ms IH] using rev_ind; [reflexivity|].
  rewrite fold_left_app. cbn [fold_left]. rewrite IH.
  unfold register, sortByPriority at 1 3.
  rewrite !fold_right_app. cbn [fold_right]. apply fold_insert_sorted.
Qed.

(** The sort is stable: among the modules of one priority, the order
    is the one of the input. *)
Lemma insertByPriority_stable (k : Z) (m : Mod) l :
  Sorted Z.le (List.map (@modulePriority P) l) ->
  filter (fun x => modulePriority x =? k) (insertByPriority m l)
  = filter (fun x => modulePriority x =? k) (m :: l).
Proof.
  induction l as [|y l IH]; intros S; [reflexivity|].
  cbn [insertByPriority].
  destruct (modulePriority m <=? modulePriority y) eqn:E; [reflexivity|].
  apply Z.leb_gt in E. cbn [List.map] in S.
  inversion S as [|? ? S' Hd]; subst.
  cbn [filter]. rewrite (IH S'). cbn [filter].
  destruct (modulePriority y =? k) eqn:Ey; [|reflexivity].
  destruct (modulePriority m =? k) eqn:Em; [|reflexivity].
  apply Z.eqb_eq in Ey, Em. lia.
Qed.

Lemma sortByPriority_stable (k : Z) (l : list Mod) :
  filter (fun x => modulePriority x =? k) (sortByPriority l)
  = filter (fun x => modulePriority x =? k) l.
Proof.
  induction l as [|x l IH]; [reflexivity|].
  cbn [sortByPriority fold_right].
  rewrite insertByPriority_stable by apply sortByPriority_sorted.
  cbn [filter]. fold (sortByPriority l). now rewrite IH.
Qed.

Lemma sorted_le_all (x : Mod) l :
  Sorted Z.le (List.map (@modulePriority P) (x :: l)) ->
  forall y, In y l -> modulePriority x <= modulePriority y.
Proof.
  intros S. apply Sorted_StronglySorted in S; [|intros a b c; lia].
  inversion S as [|? ? _ F]; subst.
  intros y Hy. rewrite Forall_forall in F. apply F. now apply in_map.
Qed.

(** The first element of a sorted list that satisfies a test has the
    least priority among those that satisfy it. *)
Lemma find_sorted_least (p : Mod -> bool) l m :
  Sorted Z.le (List.map (@modulePriority P) l) ->
  find p l = Some m ->
  forall m', In m' l -> p m' = true -> modulePriority m <= modulePriority m'.
Proof.
  induction l as [|x l IH]; intros S F m' Hin Hp; [discriminate|].
  cbn [find] in F. destruct (p x) eqn:E.
  - inversion F; subst x. destruct Hin as [<-|Hin]; [lia|].
    now apply (sorted_le_all m l S).
  - destruct Hin as [<-|Hin]; [congruence|].
    cbn [List.map] in S. inversion S; subst. now apply IH.
Qed.

Lemma find_split (p : Mod -> bool) l m :
  find p l = Some m ->
  exists l1 l2, l = (l1 ++ m :: l2)%list /\ p m = true
                /\ forall x, In x l1 -> p x = false.
Proof.
  induction l as [|x l IH]; intros F; [discriminate|].
  cbn [find] in F. destruct (p x) eqn:E.
  - inversion F; subst x. exists [], l. repeat split; auto. intros ? [].
  - destruct (IH F) as (l1 & l2 & -> & Hm & H1).
    exists (x :: l1), l2. repeat split; auto.
    intros y [<-|Hy]; auto.
Qed.

Lemma filter_split (q : Mod -> bool) l :
  forall a x b,
    filter q l = (a ++ x :: b)%list ->
    exists l1 l2, l = (l1 ++ x :: l2)%list /\ filter q l1 = a.
Proof.
  induction l as [|y l IH]; intros a x b E; cbn [filter] in E.
  - destruct a; discriminate.
  - destruct (q y) eqn:Q.
    + destruct a as [|a0 a]; cbn [List.app] in E.
      * inversion E; subst. exists [], l. split; reflexivity.
      * inversion E; subst.
        destruct (IH _ _ _ H1) as (l1 & l2 & -> & F1).
        exists (a0 :: l1), l2. split; [reflexivity|].
        cbn [filter]. now rewrite Q, F1.
    + destruct (IH _ _ _ E) as (l1 & l2 & -> & F1).
      exists (y :: l1), l2. split; [reflexivity|].
      cbn [filter]. now rewrite Q.
Qed.

Lemma find_none_all (p : Mod -> bool) l :
  find p l = None <-> forall x, In x l -> p x = false.
Proof.
  split.
  - intros F x Hx. now apply (find_none p l F).
  - induction l as [|x l IH]; intros H; [reflexivity|].
    cbn [find]. rewrite (H x) by now left. apply IH. intros y Hy. apply H. now right.
Qed.

End Registry.

End SnifferFacts.

Module SnifferSpec.
Import Sniffer SnifferFacts Samples MoreSamples.

(** X15. The registry of the sniffer: after registering modules one by
    one on an empty sniffer, the list of formats is the stable sort of the
    registration sequence by priority: it holds the same modules,
    priorities never decrease along it, and the modules of one priority
    stand in registration order. *)
Theorem registry_sorted_by_priority :
  forall (P : Type) (ms : list (FormatModule P)),
    registerAll [] ms = sortByPriority ms
    /\ Permutation ms (registerAll [] ms)
    /\ Sorted Z.le (List.map (@modulePriority P) (registerAll [] ms))
    /\ forall k,
         filter (fun m => modulePriority m =? k) (registerAll [] ms)
         = filter (fun m => modulePriority m =? k) ms.
Proof.
  intros P ms. rewrite registerAll_sort. split; [reflexivity|]. split; [|split].
  - apply sortByPriority_perm.
  - apply sortByPriority_sorted.
  - intros k. apply sortByPriority_stable.
Qed.

(** X16. What [sniff] answers for a readable file (the regular
    expressions that [matchRequiredFields] builds from the names of
    [requiredFields] being well formed, so that [newRegExp] returns): it
    does not throw, the feature it returns belongs to a registered module
    that matches the extension and the head of the file, and no matching
    registered module has a smaller priority number; it returns nothing
    exactly when no registered module matches. *)
Theorem sniff_least_priority_match :
  forall (P : Type) (newRegExp : string -> RegExp)
         (getExtension : string -> string) (readFileHead : string -> outcome string)
         (ms : list (FormatModule P)) (filePath headContent : string),
    readFileHead filePath = Normal headContent ->
    let matches := fun m : FormatModule P =>
      matchFeature newRegExp (feature m) (getExtension filePath) headContent in
    match sniff newRegExp getExtension readFileHead (registerAll [] ms) filePath with
    | Normal (Some f) =>
        exists m, In m ms /\ f = feature m /\ matches m = true
                  /\ forall m', In m' ms -> matches m' = true ->
                                modulePriority m <= modulePriority m'
    | Normal None => forall m, In m ms -> matches m = false
    | Throw _ => False
    end.
Proof.
  intros P newRegExp getExtension readFileHead ms filePath headContent Hr matches.
  unfold sniff. rewrite Hr. unfold firstMatch. fold matches.
  rewrite registerAll_sort.
  destruct (find matches (sortByPriority ms)) as [m|] eqn:F; cbn [option_map].
  - exists m.
    assert (Hin : In m (sortByPriority ms)) by now apply find_some in F.
    split; [now apply (Permutation_in _ (Permutation_sym (sortByPriority_perm ms)))|].
    split; [reflexivity|]. split; [now apply find_some in F|].
    intros m' Hm' Hp.
    apply (find_sorted_least matches (sortByPriority ms) m
             (sortByPriority_sorted ms) F); [|assumption].
    now apply (Permutation_in _ (sortByPriority_perm ms)).
  - intros m Hm. apply (proj1 (find_none_all matches _) F).
    now apply (Permutation_in _ (sortByPriority_perm ms)).
Qed.

Lemma sniff_least_priority_match_witness :
  sampleHead "a.json" = Normal v4Head
  /\ match sniff sampleRegExp sampleExtension sampleHead
             (registerAll [] sampleModules) "a.json" with
     | Normal (Some f) =>
         exists m, In m sampleModules /\ f = feature m
                   /\ matchFeature sampleRegExp (feature m) (sampleExtension "a.json")
                        v4Head = true
                   /\ forall m', In m' sampleModules ->
                        matchFeature sampleRegExp (feature m')
                          (sampleExtension "a.json") v4Head = true ->
                        modulePriority m <= modulePriority m'
     | Normal None =>
         forall m, In m sampleModules ->
                   matchFeature sampleRegExp (feature m) (sampleExtension "a.json")
                     v4Head = false
     | Throw _ => False
     end.
Proof.
  split; [reflexivity|].
  exact (sniff_least_priority_match string sampleRegExp sampleExtension sampleHead
           sampleModules "a.json" v4Head eq_refl).
Defined.

(** X17. Ties are broken by registration order: the module whose
    feature [sniff] returns is preceded, in the registration sequence, by
    no matching module of the same priority. *)
Theorem sniff_tie_first_registered :
  forall (P : Type) (newRegExp : string -> RegExp)
         (getExtension : string -> string) (readFileHead : string -> outcome string)
         (ms : list (FormatModule P)) (filePath headContent : string) f,
    readFileHead filePath = Normal headContent ->
    sniff newRegExp getExtension readFileHead (registerAll [] ms) filePath
    = Normal (Some f) ->
    exists before m after,
      ms = (before ++ m :: after)%list
      /\ f = feature m
      /\ forall m', In m' before ->
                    modulePriority m' = modulePriority m ->
                    matchFeature newRegExp (feature m') (getExtension filePath)
                      headContent = false.
Proof.
  intros P newRegExp getExtension readFileHead ms filePath headContent f Hr H.
  unfold sniff in H. rewrite Hr in H. unfold firstMatch in H.
  rewrite registerAll_sort in H.
  set (matches := fun m : FormatModule P =>
         matchFeature newRegExp (feature m) (getExtension filePath) headContent) in *.
  destruct (find matches (sortByPriority ms)) as [m|] eqn:F; [|discriminate].
  cbn [option_map] in H. inversion H; subst f. clear H.
  apply find_split in F as (s1 & s2 & Es & Hm & Hs1).
  pose proof (sortByPriority_stable (modulePriority m) ms) as St.
  rewrite Es, filter_app in St. cbn [filter] in St.
  rewrite Z.eqb_refl in St. symmetry in St.
  apply filter_split in St as (l1 & l2 & -> & F1).
  exists l1, m, l2. split; [reflexivity|]. split; [reflexivity|].
  intros m' Hin Hp. apply Hs1.
  assert (Hf : In m' (filter (fun x => modulePriority x =? modulePriority m) l1)).
  { apply filter_In. split; [assumption | now apply Z.eqb_eq]. }
  rewrite F1 in Hf. now apply filter_In in Hf as [Hf _].
Qed.

(** A registration sequence with a tie. Of the three modules of
    priority 10, the first does not match the head of a.json and the other
    two do; [sniff] answers with the one registered before the other. *)
Lemma sniff_tie_first_registered_witness :
  (modulePriority moduleOther = modulePriority moduleV4
   /\ modulePriority moduleV4Fork = modulePriority moduleV4
   /\ matchFeature sampleRegExp (feature moduleV4) (sampleExtension "a.json") v4Head
      = true
   /\ matchFeature sampleRegExp (feature moduleV4Fork) (sampleExtension "a.json")
        v4Head
      = true
   /\ feature moduleV4Fork <> feature moduleV4)
  /\ sampleHead "a.json" = Normal v4Head
  /\ sniff sampleRegExp sampleExtension sampleHead
       (registerAll [] tiedModules) "a.json"
     = Normal (Some (feature moduleV4))
  /\ exists before m after,
       tiedModules = (before ++ m :: after)%list
       /\ feature moduleV4 = feature m
       /\ forall m', In m' before ->
                     modulePriority m' = modulePriority m ->
                     matchFeature sampleRegExp (feature m') (sampleExtension "a.json")
                       v4Head = false.
Proof.
  assert (H : sniff sampleRegExp sampleExtension sampleHead
                (registerAll [] tiedModules) "a.json"
              = Normal (Some (feature moduleV4))) by reflexivity.
  split.
  { split; [reflexivity|]. split; [reflexivity|]. split; [reflexivity|].
    split; [reflexivity | discriminate]. }
  split; [reflexivity|]. split; [exact H|].
  exact (sniff_tie_first_registered string sampleRegExp sampleExtension sampleHead
           tiedModules "a.json" v4Head _ eq_refl H).
Defined.

(** X18. The extension gates recognition, but the file is read anyway:
    a file whose extension no registered format lists is never recognised
    by [sniff] or [getParser], whatever its head holds; and when the head
    of such a file cannot be read, [sniff] and [getParser] throw that
    error, since the head is read before any extension is tested. *)
Theorem sniff_extension_gate :
  forall (P : Type) (newRegExp : string -> RegExp)
         (getExtension : string -> string) (readFileHead : string -> outcome string)
         (ms : list (FormatModule P)) (filePath : string),
    (forall m, In m ms ->
               ~ In (getExtension filePath) (extensions (feature m))) ->
    match readFileHead filePath with
    | Normal _ =>
        sniff newRegExp getExtension readFileHead (registerAll [] ms) filePath
        = Normal None
        /\ getParser newRegExp getExtension readFileHead (registerAll [] ms) filePath
           = Normal None
    | Throw e =>
        sniff newRegExp getExtension readFileHead (registerAll [] ms) filePath
        = Throw e
        /\ getParser newRegExp getExtension readFileHead (registerAll [] ms) filePath
           = Throw e
    end.
Proof.
  intros P newRegExp getExtension readFileHead ms filePath Hext.
  unfold sniff, getParser.
  destruct (readFileHead filePath) as [headContent|e]; [|split; reflexivity].
  assert (F : firstMatch newRegExp (registerAll [] ms) (getExtension filePath)
                headContent = None).
  { unfold firstMatch. apply find_none_all. intros m Hm.
    rewrite registerAll_sort in Hm.
    apply (Permutation_in _ (Permutation_sym (sortByPriority_perm ms))) in Hm.
    unfold matchFeature.
    destruct (existsb (String.eqb (getExtension filePath)) (extensions (feature m)))
      eqn:E; [|reflexivity].
    exfalso. apply (Hext m Hm).
    apply existsb_exists in E as (x & Hx & Ex).
    apply String.eqb_eq in Ex. now subst. }
  rewrite F. split; reflexivity.
Qed.

Lemma sniff_extension_gate_witness :
  (forall m, In m sampleModules ->
             ~ In (sampleExtension "notes.txt") (extensions (feature m)))
  /\ match sampleHead "notes.txt" with
     | Normal _ =>
         sniff sampleRegExp sampleExtension sampleHead
           (registerAll [] sampleModules) "notes.txt" = Normal None
         /\ getParser sampleRegExp sampleExtension sampleHead
              (registerAll [] sampleModules) "notes.txt" = Normal None
     | Throw e =>
         sniff sampleRegExp sampleExtension sampleHead
           (registerAll [] sampleModules) "notes.txt" = Throw e
         /\ getParser sampleRegExp sampleExtension sampleHead
              (registerAll [] sampleModules) "notes.txt" = Throw e
     end.
Proof.
  assert (H : forall m, In m sampleModules ->
                        ~ In (sampleExtension "notes.txt") (extensions (feature m))).
  { intros m [<-|[<-|[]]]; simpl; intros [C|[]]; discriminate C. }
  split; [exact H|].
  exact (sniff_extension_gate string sampleRegExp sampleExtension sampleHead
           sampleModules "notes.txt" H).
Defined.

End SnifferSpec.


(* ===================================================================== *)
(** * The whole-file parsers: QQ JSON and the message types of QQ text *)
(* ===================================================================== *)

Module WholeFileFacts.
Import Parser MapFacts GroupFacts StringFacts QQJson QQTxt.

(** ** [qqJsonParser.parse] *)

Local Abbreviation memberOf s :=
  (mkMember (qqUin s) (orElseName (qqName s) (qqUin s))).

(** An element that the loop body passes without throwing. *)
Local Abbreviation readable tz :=
  (fun element : option QQJsonMessage =>
     match element with
     | None => false
     | Some m =>
         match qqSender m with
         | Lacking _ => false
         | Present _ =>
             beforeYear2000 tz (qqTimestamp m)
             || match qqContent m with Present _ => true | Lacking _ => false end
         end
     end).

(** The message that an element contributes. *)
Local Abbreviation keptOf tz :=
  (fun element : option QQJsonMessage =>
     match element with
     | Some m =>
         match qqSender m, qqContent m with
         | Present s, Present c =>
             if beforeYear2000 tz (qqTimestamp m) then [] else [messageOf m s c]
         | _, _ => []
         end
     | None => []
     end).

Local Abbreviation senderOf :=
  (fun element : option QQJsonMessage =>
     match element with
     | Some m => match qqSender m with Present s => [s] | Lacking _ => [] end
     | None => []
     end).

(** The exception of the loop body at an element that is not readable. *)
Local Abbreviation offence tz element e :=
  ((element = None /\ e = cannotRead IsNull "sender")
   \/ (exists m how,
          element = Some m /\ qqSender m = Lacking how /\ e = cannotRead how "uin")
   \/ (exists m s how,
          element = Some m /\ qqSender m = Present s
          /\ beforeYear2000 tz (qqTimestamp m) = false
          /\ qqContent m = Lacking how
          /\ e = cannotRead how (if qqSystem m then "text" else "resources"))).

Lemma loop_spec tz (msgs : list (option QQJsonMessage)) :
  forall mm acc,
    match loop tz msgs (mm, acc) with
    | Normal (mm', acc') =>
        forallb (readable tz) msgs = true
        /\ mm' = fold_left (fun mm s => map_set String.eqb (qqUin s) (memberOf s) mm)
                   (flat_map senderOf msgs) mm
        /\ acc' = (acc ++ flat_map (keptOf tz) msgs)%list
    | Throw e =>
        exists before element after,
          msgs = (before ++ element :: after)%list
          /\ forallb (readable tz) before = true
          /\ offence tz element e
    end.
Proof.
  induction msgs as [|element msgs IH]; intros mm acc.
  - cbn [loop forallb flat_map fold_left]. now rewrite List.app_nil_r.
  - cbn [loop]. destruct element as [m|].
    + cbn [step]. destruct (qqSender m) as [s|how] eqn:Es.
      * destruct (beforeYear2000 tz (qqTimestamp m)) eqn:Ey.
        -- specialize (IH (map_set String.eqb (qqUin s) (memberOf s) mm) acc).
           destruct (loop tz msgs _) as [[mm' acc']|e].
           ++ destruct IH as (R & M & A). cbn [forallb flat_map].
              rewrite Es, Ey, R. cbn [orb andb List.app fold_left].
              destruct (qqContent m); cbn [List.app]; auto.
           ++ destruct IH as (before & el & after & -> & R & O).
              exists (Some m :: before), el, after. cbn [forallb].
              rewrite Es, Ey, R. auto.
        -- destruct (qqContent m) as [c|how] eqn:Ec.
           ++ specialize (IH (map_set String.eqb (qqUin s) (memberOf s) mm)
                             (acc ++ [messageOf m s c])%list).
              destruct (loop tz msgs _) as [[mm' acc']|e].
              ** destruct IH as (R & M & A). cbn [forallb flat_map].
                 rewrite Es, Ey, Ec, R. cbn [orb andb List.app].
                 cbn [fold_left].
                 rewrite <- List.app_assoc in A. auto.
              ** destruct IH as (before & el & after & -> & R & O).
                 exists (Some m :: before), el, after. cbn [forallb].
                 rewrite Es, Ey, Ec, R. auto.
           ++ exists [], (Some m), msgs. split; [reflexivity|].
              split; [reflexivity|]. right. right. exists m, s, how. auto.
      * exists [], (Some m), msgs. split; [reflexivity|].
        split; [reflexivity|]. right. left. exists m, how. auto.
    + exists [], None, msgs. cbn [step]. auto.
Qed.

Lemma member_keys_fold (senders : list QQSender) :
  forall mm : JsMap string ParsedMember,
    List.map platformId (map_values mm) = map_keys mm ->
    let mm' :=
      fold_left (fun mm s => map_set String.eqb (qqUin s) (memberOf s) mm) senders mm in
    List.map platformId (map_values mm') = map_keys mm'
    /\ map_keys mm'
       = fold_left (fun s k => set_add String.eqb k s) (List.map qqUin senders)
           (map_keys mm).
Proof.
  induction senders as [|m senders IH]; intros mm W; cbn [fold_left List.map]; [auto|].
  assert (W' : List.map platformId
                 (map_values (map_set String.eqb (qqUin m) (memberOf m) mm))
               = map_keys (map_set String.eqb (qqUin m) (memberOf m) mm)).
  { clear IH. revert W. unfold map_values, map_keys.
    induction mm as [|[k v] mm IHm]; intros W; simpl in *; [reflexivity|].
    injection W as W1 W2. destruct (String.eqb (qqUin m) k) eqn:E; simpl.
    - now rewrite W2.
    - rewrite W1. f_equal. now apply IHm. }
  destruct (IH _ W') as [H1 H2]. split; [exact H1|].
  rewrite H2. now rewrite (map_keys_set String.eqb String.eqb_eq).
Qed.

(** The time stamps of the messages of readable elements: one for every
    record that is not before 2000. *)
Lemma kept_timestamps tz (msgs : list (option QQJsonMessage)) :
  forallb (readable tz) msgs = true ->
  List.map timestamp (flat_map (keptOf tz) msgs)
  = flat_map
      (fun element =>
         match element with
         | Some m =>
             if beforeYear2000 tz (qqTimestamp m) then []
             else [qqTimestamp m / 1000]
         | None => []
         end)
      msgs.
Proof.
  induction msgs as [|element msgs IH]; cbn [forallb flat_map]; intros R;
    [reflexivity|].
  apply andb_true_iff in R as [R1 R2].
  rewrite List.map_app, (IH R2). f_equal.
  destruct element as [m|]; [|discriminate].
  destruct (qqSender m) as [s|]; [|discriminate].
  destruct (beforeYear2000 tz (qqTimestamp m)); [now destruct (qqContent m)|].
  destruct (qqContent m); [reflexivity | discriminate].
Qed.

Lemma uins_of_senders (msgs : list (option QQJsonMessage)) :
  List.map qqUin (flat_map senderOf msgs)
  = flat_map
      (fun element =>
         match element with
         | Some m => match qqSender m with Present s => [qqUin s] | Lacking _ => [] end
         | None => []
         end)
      msgs.
Proof.
  induction msgs as [|element msgs IH]; cbn [flat_map]; [reflexivity|].
  rewrite List.map_app, IH. f_equal.
  destruct element as [m|]; [|reflexivity]. now destruct (qqSender m).
Qed.

(** ** Strings *)

Lemma length_append (a b : string) :
  String.length (a ++ b) = (String.length a + String.length b)%nat.
Proof. induction a as [|c a IH]; simpl; [reflexivity | now rewrite IH]. Qed.

Lemma substring_all (s : string) : String.substring 0 (String.length s) s = s.
Proof. induction s as [|c s IH]; simpl; [reflexivity | now rewrite IH]. Qed.

Lemma substring_head (a b : string) :
  String.substring 0 (String.length a) (a ++ b) = a.
Proof.
  induction a as [|c a IH]; simpl; [now destruct b | now rewrite IH].
Qed.

Lemma substring_tail (a b : string) :
  String.substring (String.length a) (String.length b) (a ++ b) = b.
Proof. induction a as [|c a IH]; simpl; [apply substring_all | exact IH]. Qed.

Lemma prefix_split (a s : string) :
  String.prefix a s = true -> exists rest, s = a ++ rest.
Proof.
  revert s. induction a as [|c a IH]; intros s H.
  - now exists s.
  - destruct s as [|d s]; simpl in H; [discriminate|].
    destruct (Ascii.ascii_dec c d) as [<-|]; [|discriminate].
    destruct (IH _ H) as [rest ->]. now exists rest.
Qed.

Lemma endsWith_append (a b : string) : endsWith b (a ++ b) = true.
Proof.
  unfold endsWith. rewrite length_append.
  replace (String.length a + String.length b - String.length b)%nat
    with (String.length a) by lia.
  rewrite substring_tail, String.eqb_refl.
  apply andb_true_iff. split; [apply Nat.leb_le; lia | reflexivity].
Qed.

(** A text in square brackets, on one line, passes the first bracket
    test. *)
Lemma bracketed_square (mid : string) :
  mid <> "" -> hasLineTerminator mid = false ->
  bracketed "[" "]" ("[" ++ mid ++ "]") = true.
Proof.
  intros Hne Hl. unfold bracketed.
  assert (L : String.length ("[" ++ mid ++ "]") = S (String.length mid + 1)).
  { cbn [append String.length]. now rewrite length_append. }
  rewrite L.
  replace ("[" ++ mid ++ "]") with (("[" ++ mid) ++ "]") at 2
    by now rewrite append_assoc.
  rewrite endsWith_append. cbn [String.prefix append String.length].
  destruct (Ascii.ascii_dec "[" "[") as [_|C]; [|contradiction].
  cbn [andb].
  replace (S (String.length mid + 1) - 1 - 1)%nat with (String.length mid) by lia.
  cbn [String.substring]. rewrite substring_head, Hl. cbn [negb].
  assert (P0 : forall s, String.prefix "" s = true) by (intros []; reflexivity).
  rewrite P0. cbn [andb]. rewrite andb_true_r. apply Nat.ltb_lt.
  destruct mid; [contradiction | simpl; lia].
Qed.

End WholeFileFacts.

Module WholeFileSpec.
Import Parser MapFacts GroupFacts StringFacts QQJson QQTxt WholeFileFacts.
Import MoreSamples.


(** X20. Message types of the QQ text export, whatever
    [String.prototype.trim] removes ([trim] is universally quantified): a
    content whose trimmed text is one bracketed text on one line is
    classified as an emoji unless it starts with the image placeholder;
    this includes the bare placeholders of a voice message, a video and a
    file, since the bracket test comes before the tests for voice, video
    and file; these three types are returned only when more text follows
    the placeholder in the trimmed content. *)
Theorem bracketed_text_is_emoji :
  forall (trim : string -> string) (content : string),
    (forall mid,
        trim content = "[" ++ mid ++ "]" ->
        mid <> "" -> hasLineTerminator mid = false ->
        String.prefix "[图片]" ("[" ++ mid ++ "]") = false ->
        detectMessageType trim content = EMOJI)
    /\ (In (trim content) ["[语音]"; "[视频]"; "[文件]"] ->
        detectMessageType trim content = EMOJI)
    /\ (In (detectMessageType trim content) [VOICE; VIDEO; FILE] ->
        exists tag rest,
          In tag ["[语音]"; "[视频]"; "[文件]"]
          /\ trim content = tag ++ rest /\ rest <> "").
Proof.
  intros trim content. split; [|split].
  - intros mid Ht Hne Hl Hp. unfold detectMessageType.
    rewrite Ht, Hp, (bracketed_square mid Hne Hl).
    destruct (_ =? "[图片]")%string eqn:E; [|reflexivity].
    apply String.eqb_eq in E. rewrite E in Hp. discriminate.
  - intros H. unfold detectMessageType.
    simpl in H. destruct H as [<-|[<-|[<-|[]]]]; reflexivity.
  - intros H. unfold detectMessageType in H.
    set (t := trim content) in *.
    destruct ((t =? "[图片]")%string || String.prefix "[图片]" t);
      [simpl in H; intuition discriminate|].
    destruct (bracketed "[" "]" t || bracketed "[[" "]]" t) eqn:B;
      [simpl in H; intuition discriminate|].
    assert (Tag : forall tag,
               bracketed "[" "]" tag = true ->
               ((t =? tag)%string || String.prefix tag t) = true ->
               exists rest, t = tag ++ rest /\ rest <> "").
    { intros tag Bt C. apply orb_true_iff in C as [C|C].
      - apply String.eqb_eq in C. rewrite C, Bt in B. discriminate.
      - apply prefix_split in C as [rest ->]. exists rest. split; [reflexivity|].
        intros ->. rewrite append_nil_r, Bt in B. discriminate. }
    destruct ((t =? "[语音]")%string || String.prefix "[语音]" t) eqn:V.
    { destruct (Tag "[语音]" eq_refl V) as (rest & E & N).
      exists "[语音]", rest. simpl. auto. }
    destruct ((t =? "[视频]")%string || String.prefix "[视频]" t) eqn:D.
    { destruct (Tag "[视频]" eq_refl D) as (rest & E & N).
      exists "[视频]", rest. simpl. auto. }
    destruct ((t =? "[文件]")%string || String.prefix "[文件]" t) eqn:F.
    { destruct (Tag "[文件]" eq_refl F) as (rest & E & N).
      exists "[文件]", rest. simpl. auto. }
    match type of H with
    | In (if ?c then _ else _) _ => destruct c
    end; simpl in H; intuition discriminate.
Qed.

(** With [trimUtf8]: the bare voice placeholder between a space and a
    no-break space is an emoji, and the voice placeholder followed by text,
    after an ideographic space, is a voice message. *)
Lemma bracketed_text_is_emoji_witness :
  (In (trimUtf8 (" [语音]" ++ noBreakSpaceUtf8)) ["[语音]"; "[视频]"; "[文件]"]
   /\ detectMessageType trimUtf8 (" [语音]" ++ noBreakSpaceUtf8) = EMOJI)
  /\ (In (detectMessageType trimUtf8 (ideographicSpaceUtf8 ++ "[语音]abc"))
         [VOICE; VIDEO; FILE]
      /\ exists tag rest,
           In tag ["[语音]"; "[视频]"; "[文件]"]
           /\ trimUtf8 (ideographicSpaceUtf8 ++ "[语音]abc") = tag ++ rest
           /\ rest <> "").
Proof.
  assert (H1 : In (trimUtf8 (" [语音]" ++ noBreakSpaceUtf8))
                 ["[语音]"; "[视频]"; "[文件]"])
    by (left; reflexivity).
  assert (H2 : In (detectMessageType trimUtf8 (ideographicSpaceUtf8 ++ "[语音]abc"))
                 [VOICE; VIDEO; FILE])
    by (left; reflexivity).
  split.
  - split; [exact H1|].
    exact (proj1 (proj2 (bracketed_text_is_emoji trimUtf8
                           (" [语音]" ++ noBreakSpaceUtf8))) H1).
  - split; [exact H2|].
    exact (proj2 (proj2 (bracketed_text_is_emoji trimUtf8
                           (ideographicSpaceUtf8 ++ "[语音]abc"))) H2).
Defined.

End WholeFileSpec.


(* ===================================================================== *)
(** * Analytics: sorting, catchphrases and night owls *)
(* ===================================================================== *)

Module SortFacts.
Import Analysis.

Section Sorting.
Context {A : Type} (key : A -> nat).

Lemma insertDesc_perm x l : Permutation (x :: l) (insertDesc key x l).
Proof.
  induction l as [|y l IH]; simpl; [apply Permutation_refl|].
  destruct (key y <=? key x)%nat; [apply Permutation_refl|].
  eapply Permutation_trans; [apply perm_swap|]. now apply perm_skip.
Qed.

Lemma sortDesc_perm l : Permutation l (sortDesc key l).
Proof.
  induction l as [|x l IH]; simpl; [constructor|].
  eapply Permutation_trans; [apply perm_skip, IH|]. apply insertDesc_perm.
Qed.

Lemma insertDesc_sorted x l :
  Sorted ge (List.map key l) -> Sorted ge (List.map key (insertDesc key x l)).
Proof.
  induction l as [|y l IH]; simpl; intros S.
  - repeat constructor.
  - destruct (key y <=? key x)%nat eqn:E.
    + simpl. constructor; [assumption|]. constructor.
      apply Nat.leb_le in E. unfold ge. lia.
    + simpl. apply Nat.leb_gt in E. inversion S as [|? ? S' Hd]; subst.
      constructor; [now apply IH|].
      destruct l as [|z l]; simpl.
      * constructor. unfold ge. lia.
      * destruct (key z <=? key x)%nat; simpl; constructor;
          [unfold ge; lia|]. now inversion Hd.
Qed.

Lemma sortDesc_sorted l : Sorted ge (List.map key (sortDesc key l)).
Proof.
  induction l as [|x l IH]; simpl; [constructor|]. now apply insertDesc_sorted.
Qed.

Lemma sortDesc_In l x : In x (sortDesc key l) <-> In x l.
Proof.
  split; intros H.
  - now apply (Permutation_in _ (Permutation_sym (sortDesc_perm l))).
  - now apply (Permutation_in _ (sortDesc_perm l)).
Qed.

Lemma sortDesc_NoDup {B} (f : A -> B) l :
  NoDup (List.map f l) -> NoDup (List.map f (sortDesc key l)).
Proof.
  intros N. eapply Permutation_NoDup; [|exact N].
  apply Permutation_map, sortDesc_perm.
Qed.

Lemma insertAsc_perm x l : Permutation (x :: l) (insertAsc key x l).
Proof.
  induction l as [|y l IH]; simpl; [apply Permutation_refl|].
  destruct (key x <=? key y)%nat; [apply Permutation_refl|].
  eapply Permutation_trans; [apply perm_swap|]. now apply perm_skip.
Qed.

Lemma sortAsc_perm l : Permutation l (sortAsc key l).
Proof.
  induction l as [|x l IH]; simpl; [constructor|].
  eapply Permutation_trans; [apply perm_skip, IH|]. apply insertAsc_perm.
Qed.

Lemma insertAsc_sorted x l :
  Sorted le (List.map key l) -> Sorted le (List.map key (insertAsc key x l)).
Proof.
  induction l as [|y l IH]; simpl; intros S.
  - repeat constructor.
  - destruct (key x <=? key y)%nat eqn:E.
    + simpl. constructor; [assumption|]. constructor. now apply Nat.leb_le.
    + simpl. apply Nat.leb_gt in E. inversion S as [|? ? S' Hd]; subst.
      constructor; [now apply IH|].
      destruct l as [|z l]; simpl.
      * constructor. lia.
      * destruct (key x <=? key z)%nat; simpl; constructor; [lia|].
        now inversion Hd.
Qed.

Lemma sortAsc_sorted l : Sorted le (List.map key (sortAsc key l)).
Proof.
  induction l as [|x l IH]; simpl; [constructor|]. now apply insertAsc_sorted.
Qed.

End Sorting.

End SortFacts.

Module RankingsFacts.
Import Analysis Rankings MapFacts GroupFacts SortFacts.

(** ** Catchphrases *)

Local Abbreviation rowsOf k rows :=
  (filter (fun r => phraseMember r =? k) rows).

Local Abbreviation phraseOf r := (phraseContent r, phraseCount r).

Local Abbreviation entryFor k rows :=
  (match rowsOf k rows with
   | [] => None
   | r :: rest =>
       Some (mkPhraseEntry k (phrasePlatformId r) (phraseName r)
               (firstn 5 (List.map (fun r => phraseOf r) (r :: rest))))
   end).

Lemma firstn_snoc_short {A} (n : nat) (l : list A) (x : A) :
  (List.length (firstn n l) <? n)%nat = true ->
  (firstn n l ++ [x])%list = firstn n (l ++ [x]).
Proof.
  intros H. apply Nat.ltb_lt in H. rewrite List.length_firstn in H.
  assert (L : (List.length l < n)%nat) by lia.
  rewrite !firstn_all2; [reflexivity | | lia].
  rewrite List.length_app. simpl. lia.
Qed.

Lemma firstn_snoc_full {A} (n : nat) (l : list A) (x : A) :
  (List.length (firstn n l) <? n)%nat = false ->
  firstn n l = firstn n (l ++ [x]).
Proof.
  intros H. apply Nat.ltb_ge in H. rewrite List.length_firstn in H.
  rewrite firstn_app. replace (n - List.length l)%nat with 0%nat by lia.
  cbn [firstn]. now rewrite List.app_nil_r.
Qed.

Lemma phraseStep_step (mm : JsMap Z PhraseEntry) seen row :
  (forall k, map_get Z.eqb k mm = entryFor k seen) ->
  map_keys mm = set_of_list Z.eqb (List.map phraseMember seen) ->
  (forall k, map_get Z.eqb k (phraseStep mm row) = entryFor k (seen ++ [row]))
  /\ map_keys (phraseStep mm row)
     = set_of_list Z.eqb (List.map phraseMember (seen ++ [row])).
Proof.
  intros Hget Hkeys.
  assert (Hrows : forall k,
             rowsOf k (seen ++ [row])
             = (rowsOf k seen ++ (if phraseMember row =? k then [row] else []))%list).
  { intros k. rewrite filter_app. reflexivity. }
  assert (Hk : set_of_list Z.eqb (List.map phraseMember (seen ++ [row]))
               = set_add Z.eqb (phraseMember row) (map_keys mm)).
  { rewrite List.map_app. cbn [List.map]. now rewrite set_of_list_snoc, Hkeys. }
  pose proof (Hget (phraseMember row)) as H0.
  unfold phraseStep, map_has. rewrite H0.
  destruct (rowsOf (phraseMember row) seen) as [|r rest] eqn:R.
  - (* a new member *)
    rewrite (map_get_set Z.eqb Z_eqb_spec), Z.eqb_refl. cbn [catchphrases List.length].
    cbn [Nat.ltb Nat.leb].
    split.
    + intros k. rewrite !(map_get_set Z.eqb Z_eqb_spec), Hrows.
      destruct (k =? phraseMember row) eqn:E.
      * apply Z.eqb_eq in E. subst k. rewrite Z.eqb_refl, R. reflexivity.
      * rewrite Z.eqb_sym in E. rewrite E, List.app_nil_r. apply Hget.
    + rewrite !(map_keys_set Z.eqb Z_eqb_spec), Hk.
      apply (set_add_present Z.eqb Z_eqb_spec).
      apply (set_add_In Z.eqb Z_eqb_spec). now left.
  - (* a known member *)
    rewrite H0. cbn [catchphrases entryMember entryPlatformId entryName].
    assert (Hin : In (phraseMember row) (map_keys mm)).
    { apply (map_has_In Z.eqb Z_eqb_spec). unfold map_has. now rewrite H0. }
    assert (Hk' : set_of_list Z.eqb (List.map phraseMember (seen ++ [row]))
                  = map_keys mm).
    { rewrite Hk. now apply (set_add_present Z.eqb Z_eqb_spec). }
    destruct (List.length (firstn 5 (List.map (fun r => phraseOf r) (r :: rest))) <? 5)%nat
      eqn:L.
    + split.
      * intros k. rewrite (map_get_set Z.eqb Z_eqb_spec), Hrows.
        destruct (k =? phraseMember row) eqn:E.
        -- apply Z.eqb_eq in E. subst k. rewrite Z.eqb_refl, R.
           cbn [List.app]. f_equal. f_equal.
           rewrite (firstn_snoc_short 5 _ _ L). f_equal.
           cbn [List.map List.app]. now rewrite List.map_app.
        -- rewrite Z.eqb_sym in E. rewrite E, List.app_nil_r. apply Hget.
      * rewrite (map_keys_set Z.eqb Z_eqb_spec), Hk'.
        now apply (set_add_present Z.eqb Z_eqb_spec).
    + split; [|now rewrite Hk'].
      intros k. rewrite Hrows.
      destruct (phraseMember row =? k) eqn:E.
      * apply Z.eqb_eq in E. subst k. rewrite H0, R.
        cbn [List.app]. f_equal. f_equal.
        rewrite (firstn_snoc_full 5 _ (phraseOf row) L). f_equal.
        cbn [List.map List.app]. now rewrite List.map_app.
      * rewrite List.app_nil_r. apply Hget.
Qed.

Lemma phraseStep_fold rows :
  forall (mm : JsMap Z PhraseEntry) seen,
    (forall k, map_get Z.eqb k mm = entryFor k seen) ->
    map_keys mm = set_of_list Z.eqb (List.map phraseMember seen) ->
    (forall k, map_get Z.eqb k (fold_left phraseStep rows mm)
               = entryFor k (seen ++ rows))
    /\ map_keys (fold_left phraseStep rows mm)
       = set_of_list Z.eqb (List.map phraseMember (seen ++ rows)).
Proof.
  induction rows as [|row rows IH]; intros mm seen Hget Hkeys.
  - rewrite List.app_nil_r. now split.
  - cbn [fold_left].
    destruct (phraseStep_step mm seen row Hget Hkeys) as [Hg Hk].
    specialize (IH _ _ Hg Hk). now rewrite <- List.app_assoc in IH.
Qed.

(** ** Night owls *)

Local Abbreviation zeroStats := (mkNightStats 0 0 0 0 0 0 0).

Local Abbreviation hourOf tz r := (DateTime.getHours tz (owlTs r * 1000)).

Local Abbreviation owlRowsOf k rows :=
  (filter (fun r => owlSender r =? k) rows).

Local Abbreviation statsFor tz k rows :=
  (match owlRowsOf k rows with
   | [] => None
   | _ :: _ =>
       Some (fold_left (fun s r => countHour (hourOf tz r) s) (owlRowsOf k rows)
               zeroStats)
   end).

Lemma getHours_range tz d : 0 <= DateTime.getHours tz d < 24.
Proof.
  unfold DateTime.getHours, DateTime.localMs, DateTime.msPerDay, DateTime.msPerHour.
  pose proof (Z.mod_pos_bound (d + tz) 86400000 ltac:(lia)) as B.
  split.
  - apply Z.div_pos; lia.
  - apply Z.div_lt_upper_bound; lia.
Qed.

(** What the counters of a member hold after a list of hours. *)
Lemma countHour_fold (hs : list Z) :
  forall s0,
    let s := fold_left (fun s h => countHour h s) hs s0 in
    h23 s = (h23 s0 + List.length (filter (Z.eqb 23%Z) hs))%nat
    /\ h0 s = (h0 s0 + List.length (filter (Z.eqb 0%Z) hs))%nat
    /\ h1 s = (h1 s0 + List.length (filter (Z.eqb 1%Z) hs))%nat
    /\ h2 s = (h2 s0 + List.length (filter (Z.eqb 2%Z) hs))%nat
    /\ h3to4 s
       = (h3to4 s0
          + List.length (filter (fun h => ((3 <=? h) && (h <? 5))%Z) hs))%nat
    /\ owlTotalMessages s = (owlTotalMessages s0 + List.length hs)%nat
    /\ (total s + (h23 s0 + h0 s0 + h1 s0 + h2 s0 + h3to4 s0)
        = total s0 + (h23 s + h0 s + h1 s + h2 s + h3to4 s))%nat
    /\ ((forall h, In h hs -> 0 <= h < 24) ->
        total s
        = (total s0
           + List.length (filter (fun h => ((23 <=? h) || (h <? 5))%Z) hs))%nat).
Proof.
  induction hs as [|h hs IH]; intros s0; cbn zeta.
  - cbn [fold_left filter List.length]. repeat split; try lia.
  - cbn [fold_left]. specialize (IH (countHour h s0)). cbn zeta in IH.
    destruct IH as (I23 & I0 & I1 & I2 & I34 & It & Is & In_).
    rewrite I23, I0, I1, I2, I34, It. rewrite I23, I0, I1, I2, I34 in Is.
    cbn [filter]. unfold countHour in *.
    assert (R : (forall x, In x (h :: hs) -> 0 <= x < 24) ->
                (forall x, In x hs -> 0 <= x < 24) /\ 0 <= h < 24).
    { intros H. split; [intros x Hx; apply H; now right | apply H; now left]. }
    destruct (h =? 23) eqn:E23.
    { apply Z.eqb_eq in E23. subst h. cbn in *.
      repeat split; try lia. intros H. destruct (R H) as [H1 _].
      rewrite (In_ H1). lia. }
    destruct (h =? 0) eqn:E0.
    { apply Z.eqb_eq in E0. subst h. cbn in *.
      repeat split; try lia. intros H. destruct (R H) as [H1 _].
      rewrite (In_ H1). lia. }
    destruct (h =? 1) eqn:E1.
    { apply Z.eqb_eq in E1. subst h. cbn in *.
      repeat split; try lia. intros H. destruct (R H) as [H1 _].
      rewrite (In_ H1). lia. }
    destruct (h =? 2) eqn:E2.
    { apply Z.eqb_eq in E2. subst h. cbn in *.
      repeat split; try lia. intros H. destruct (R H) as [H1 _].
      rewrite (In_ H1). lia. }
    rewrite (Z.eqb_sym 23 h), (Z.eqb_sym 0 h), (Z.eqb_sym 1 h), (Z.eqb_sym 2 h).
    rewrite E23, E0, E1, E2.
    apply Z.eqb_neq in E23, E0, E1, E2.
    destruct ((3 <=? h) && (h <? 5)) eqn:E34.
    { apply andb_true_iff in E34 as [A B]. apply Z.leb_le in A. apply Z.ltb_lt in B.
      cbn [total h23 h0 h1 h2 h3to4 owlTotalMessages List.length] in *.
      repeat split; try lia. intros H. destruct (R H) as [H1 _].
      rewrite (In_ H1).
      replace ((23 <=? h) || (h <? 5)) with true; [cbn [List.length]; lia|].
      symmetry. apply orb_true_iff. right. apply Z.ltb_lt. lia. }
    cbn [total h23 h0 h1 h2 h3to4 owlTotalMessages List.length] in *.
    repeat split; try lia. intros H. destruct (R H) as [H1 Hh].
    rewrite (In_ H1).
    replace ((23 <=? h) || (h <? 5)) with false; [lia|].
    symmetry. apply orb_false_iff.
    apply andb_false_iff in E34.
    split; [apply Z.leb_gt; lia|]. apply Z.ltb_ge.
    destruct E34 as [E|E]; [apply Z.leb_gt in E | apply Z.ltb_ge in E]; lia.
Qed.

Lemma owlStep_stats tz (st : OwlState) seen r :
  (forall k, map_get Z.eqb k (nightStats st) = statsFor tz k seen) ->
  map_keys (dailyMessages st)
  = set_of_list String.eqb (List.map (fun r => getAdjustedDate tz (owlTs r)) seen) ->
  (forall k, map_get Z.eqb k (nightStats (owlStep tz st r))
             = statsFor tz k (seen ++ [r]))
  /\ map_keys (dailyMessages (owlStep tz st r))
     = set_of_list String.eqb
         (List.map (fun r => getAdjustedDate tz (owlTs r)) (seen ++ [r])).
Proof.
  intros Hget Hdays. unfold owlStep. cbn [nightStats dailyMessages]. split.
  - intros k. rewrite (map_get_set Z.eqb Z_eqb_spec), filter_app. cbn [filter].
    rewrite (Hget (owlSender r)).
    destruct (k =? owlSender r) eqn:E.
    + apply Z.eqb_eq in E. subst k. rewrite Z.eqb_refl.
      destruct (owlRowsOf (owlSender r) seen) as [|r0 rs]; [reflexivity|].
      rewrite fold_left_app. reflexivity.
    + rewrite Z.eqb_sym in E. rewrite E, List.app_nil_r. apply Hget.
  - unfold Merger.group_push.
    rewrite (map_keys_set String.eqb String.eqb_eq), Hdays.
    rewrite List.map_app. cbn [List.map]. now rewrite set_of_list_snoc.
Qed.

Lemma scanOwls_stats tz rows :
  forall (st : OwlState) seen,
    (forall k, map_get Z.eqb k (nightStats st) = statsFor tz k seen) ->
    map_keys (dailyMessages st)
    = set_of_list String.eqb (List.map (fun r => getAdjustedDate tz (owlTs r)) seen) ->
    (forall k, map_get Z.eqb k (nightStats (fold_left (owlStep tz) rows st))
               = statsFor tz k (seen ++ rows))
    /\ map_keys (dailyMessages (fold_left (owlStep tz) rows st))
       = set_of_list String.eqb
           (List.map (fun r => getAdjustedDate tz (owlTs r)) (seen ++ rows)).
Proof.
  induction rows as [|r rows IH]; intros st seen Hget Hdays.
  - rewrite List.app_nil_r. now split.
  - cbn [fold_left].
    destruct (owlStep_stats tz st seen r Hget Hdays) as [Hg Hd].
    specialize (IH _ _ Hg Hd). now rewrite <- List.app_assoc in IH.
Qed.

Lemma nightStats_keys tz rows :
  forall st : OwlState,
    NoDup (map_keys (nightStats st)) ->
    NoDup (map_keys (nightStats (fold_left (owlStep tz) rows st))).
Proof.
  induction rows as [|r rows IH]; intros st N; [assumption|].
  cbn [fold_left]. apply IH. unfold owlStep. cbn [nightStats].
  now apply (map_set_keys_NoDup Z.eqb Z_eqb_spec).
Qed.

Lemma fold_left_of_map {A B C} (f : A -> B -> A) (g : C -> B) (l : list C) :
  forall a, fold_left f (List.map g l) a = fold_left (fun a x => f a (g x)) l a.
Proof. induction l as [|x l IH]; intros a; simpl; [reflexivity | apply IH]. Qed.

Lemma length_filter_map {A B} (f : A -> B) (p : B -> bool) (l : list A) :
  List.length (filter p (List.map f l)) = List.length (filter (fun x => p (f x)) l).
Proof.
  induction l as [|a l IH]; simpl; [reflexivity|].
  destruct (p (f a)); simpl; now rewrite IH.
Qed.

Lemma filter_filter {A} (p q : A -> bool) (l : list A) :
  filter p (filter q l) = filter (fun x => q x && p x) l.
Proof.
  induction l as [|a l IH]; simpl; [reflexivity|].
  destruct (q a); simpl; [destruct (p a); now rewrite IH | exact IH].
Qed.

End RankingsFacts.

Module RankingsSpec.
Import Analysis Rankings MapFacts GroupFacts SortFacts RankingsFacts.

(** X21. Catchphrases: the result lists every member that has a row
    exactly once; the catchphrases of a member are the first five of its
    rows, in the order of the query, never none and never more than five;
    and the members are sorted by the sum of the counts of these
    catchphrases, largest first. *)
Theorem catchphrases_first_five :
  forall rows : list PhraseRow,
    let result := getCatchphraseAnalysis (Some rows) in
    NoDup (List.map entryMember result)
    /\ (forall k, In k (List.map entryMember result)
                  <-> In k (List.map phraseMember rows))
    /\ Sorted ge (List.map phraseTotal result)
    /\ forall e, In e result ->
         catchphrases e
         = firstn 5 (List.map (fun r => (phraseContent r, phraseCount r))
                       (filter (fun r => phraseMember r =? entryMember e) rows))
         /\ (1 <= List.length (catchphrases e) <= 5)%nat.
Proof.
  intros rows result. unfold result, getCatchphraseAnalysis.
  set (mm := fold_left phraseStep rows []).
  destruct (phraseStep_fold rows [] [] (fun _ => eq_refl) eq_refl) as [Hget Hkeys].
  cbn [List.app] in Hget, Hkeys. fold mm in Hget, Hkeys.
  assert (N : NoDup (map_keys mm)).
  { rewrite Hkeys. apply (set_of_list_NoDup Z.eqb Z_eqb_spec). }
  assert (Hentry : forall k e, In (k, e) mm ->
             entryMember e = k
             /\ catchphrases e
                = firstn 5 (List.map (fun r => (phraseContent r, phraseCount r))
                              (filter (fun r => phraseMember r =? k) rows))
             /\ (1 <= List.length (catchphrases e) <= 5)%nat).
  { intros k e Hin.
    apply (map_get_of_In Z.eqb Z_eqb_spec _ _ _ N) in Hin. rewrite Hget in Hin.
    destruct (filter (fun r => phraseMember r =? k) rows) as [|r rest];
      [discriminate|].
    apply (f_equal (fun o => match o with Some x => x | None => e end)) in Hin.
    cbn beta iota in Hin. subst e. cbn [entryMember catchphrases].
    split; [reflexivity|]. split; [reflexivity|].
    rewrite List.length_firstn. cbn [List.map List.length]. lia. }
  assert (Hids : List.map entryMember (map_values mm) = map_keys mm).
  { unfold map_values, map_keys. rewrite List.map_map.
    apply map_ext_in. intros [k e] Hin. cbn [fst snd].
    now destruct (Hentry k e Hin). }
  split; [|split; [|split]].
  - apply sortDesc_NoDup. now rewrite Hids.
  - intros k.
    rewrite <- (set_of_list_In Z.eqb Z_eqb_spec (List.map phraseMember rows) k).
    rewrite <- Hkeys, <- Hids.
    split; intros H; apply in_map_iff in H as (e & <- & He); apply in_map;
      now apply sortDesc_In in He || apply sortDesc_In.
  - apply sortDesc_sorted.
  - intros e He. apply sortDesc_In in He. unfold map_values in He.
    apply in_map_iff in He as ([k e'] & E & Hin). cbn [snd] in E. subst e'.
    destruct (Hentry k e Hin) as (-> & Hc & Hl). now split.
Qed.


End RankingsSpec.


(* ===================================================================== *)
(** * Analytics: what the counters of the scans add up to *)
(* ===================================================================== *)

Module ScanFacts.
Import Analysis MapFacts GroupFacts SortFacts.

Lemma list_sum_perm (l1 l2 : list nat) :
  Permutation l1 l2 -> list_sum l1 = list_sum l2.
Proof. induction 1; simpl; lia. Qed.

Lemma Sorted_firstn {A} (R : A -> A -> Prop) (n : nat) (l : list A) :
  Sorted R l -> Sorted R (firstn n l).
Proof.
  revert l. induction n as [|n IH]; intros l S; [constructor|].
  destruct l as [|x l]; [constructor|]. cbn [firstn].
  inversion S as [|? ? S' Hd]; subst. constructor; [now apply IH|].
  destruct l as [|y l]; [destruct n; constructor|].
  destruct n; cbn [firstn]; constructor. now inversion Hd.
Qed.

(** ** [increment] *)

Section Increment.
Context {K : Type} (keq : K -> K -> bool).
Hypothesis keq_spec : forall a b, keq a b = true <-> a = b.

Lemma increment_sum k (m : JsMap K nat) :
  list_sum (map_values (increment keq k m)) = S (list_sum (map_values m)).
Proof.
  unfold increment, map_values.
  induction m as [|[k' v'] m IH]; simpl; [reflexivity|].
  destruct (keq k k') eqn:E; simpl; [reflexivity|].
  rewrite IH. lia.
Qed.

Lemma increment_keys k (m : JsMap K nat) :
  map_keys (increment keq k m) = set_add keq k (map_keys m).
Proof. unfold increment. apply (map_keys_set keq keq_spec). Qed.

Lemma increment_keys_In k (m : JsMap K nat) x :
  In x (map_keys (increment keq k m)) <-> x = k \/ In x (map_keys m).
Proof. rewrite increment_keys. apply (set_add_In keq keq_spec). Qed.

Lemma increment_NoDup k (m : JsMap K nat) :
  NoDup (map_keys m) -> NoDup (map_keys (increment keq k m)).
Proof. rewrite increment_keys. apply (set_add_NoDup keq keq_spec). Qed.

Lemma increment_positive k (m : JsMap K nat) :
  (forall n, In n (map_values m) -> (1 <= n)%nat) ->
  forall n, In n (map_values (increment keq k m)) -> (1 <= n)%nat.
Proof.
  unfold increment, map_values.
  induction m as [|[k' v'] m IH]; simpl; intros H n Hn.
  - destruct Hn as [<-|[]]. lia.
  - destruct (keq k k') eqn:E; simpl in Hn.
    + destruct Hn as [<-|Hn]; [lia | apply H; now right].
    + destruct Hn as [<-|Hn]; [apply H; now left|].
      apply IH; [|assumption]. intros n' Hn'. apply H. now right.
Qed.
End Increment.

(** ** The repeat scan *)

(** What the counters of the scan satisfy at every moment. *)
Local Abbreviation repeatInvariant st :=
  ((forall k, In k (map_keys (originatorCount st)) ->
              In k (map_keys (memberInfo st)))
   /\ (forall k, In k (map_keys (initiatorCount st)) ->
                 In k (map_keys (memberInfo st)))
   /\ (forall k, In k (map_keys (breakerCount st)) ->
                 In k (map_keys (memberInfo st)))
   /\ (forall e, In e (repeatChain st) ->
                 In (entrySender e) (map_keys (memberInfo st)))
   /\ list_sum (map_values (originatorCount st)) = totalRepeatChains st
   /\ list_sum (map_values (initiatorCount st)) = totalRepeatChains st
   /\ list_sum (map_values (chainLengthCount st)) = totalRepeatChains st
   /\ le (list_sum (map_values (breakerCount st))) (totalRepeatChains st)
   /\ (forall len, In len (map_keys (chainLengthCount st)) -> le 3 len)
   /\ NoDup (map_keys (originatorCount st))
   /\ NoDup (map_keys (initiatorCount st))
   /\ NoDup (map_keys (breakerCount st))
   /\ NoDup (map_keys (chainLengthCount st))
   /\ (forall n, In n (map_values (originatorCount st)) -> (1 <= n)%nat)).

Lemma processRepeatChain_short chain breaker st :
  (List.length chain < 3)%nat -> processRepeatChain chain breaker st = st.
Proof.
  intros L. destruct chain as [|a [|b [|c chain]]]; try reflexivity.
  simpl in L. lia.
Qed.

Lemma processRepeatChain_long chain breaker st :
  (3 <= List.length chain)%nat ->
  exists first second rest,
    chain = first :: second :: rest
    /\ processRepeatChain chain breaker st
       = {| originatorCount := increment Z.eqb (entrySender first) (originatorCount st);
            initiatorCount := increment Z.eqb (entrySender second) (initiatorCount st);
            breakerCount :=
              match breaker with
              | Some b => increment Z.eqb b (breakerCount st)
              | None => breakerCount st
              end;
            memberMessageCount := memberMessageCount st;
            memberInfo := memberInfo st;
            chainLengthCount :=
              increment Nat.eqb (List.length chain) (chainLengthCount st);
            contentStats := contentStats (processRepeatChain chain breaker st);
            currentContent := currentContent st;
            repeatChain := repeatChain st;
            totalRepeatChains := S (totalRepeatChains st);
            totalChainLength := (totalChainLength st + List.length chain)%nat |}.
Proof.
  intros L. destruct chain as [|a [|b [|c chain]]]; simpl in L; try lia.
  exists a, b, (c :: chain). split; reflexivity.
Qed.

Lemma processRepeatChain_invariant chain breaker st :
  (forall e, In e chain -> In (entrySender e) (map_keys (memberInfo st))) ->
  (forall b, breaker = Some b -> In b (map_keys (memberInfo st))) ->
  repeatInvariant st ->
  repeatInvariant (processRepeatChain chain breaker st).
Proof.
  intros Hchain Hb Inv.
  destruct (Nat.lt_ge_cases (List.length chain) 3) as [L|L].
  - now rewrite processRepeatChain_short.
  - destruct (processRepeatChain_long chain breaker st L)
      as (first & second & rest & Ec & ->).
    destruct Inv as (I1 & I2 & I3 & I4 & S1 & S2 & S3 & S4 & L3 & N1 & N2 & N3 & N4 & P1).
    cbn [originatorCount initiatorCount breakerCount memberInfo chainLengthCount
           repeatChain totalRepeatChains].
    assert (Hf : In (entrySender first) (map_keys (memberInfo st)))
      by (apply Hchain; rewrite Ec; now left).
    assert (Hs : In (entrySender second) (map_keys (memberInfo st)))
      by (apply Hchain; rewrite Ec; right; now left).
    repeat match goal with |- _ /\ _ => split end.
    + intros k Hk. apply (increment_keys_In Z.eqb Z_eqb_spec) in Hk as [->|Hk]; auto.
    + intros k Hk. apply (increment_keys_In Z.eqb Z_eqb_spec) in Hk as [->|Hk]; auto.
    + intros k Hk. destruct breaker as [b|]; [|auto].
      apply (increment_keys_In Z.eqb Z_eqb_spec) in Hk as [->|Hk]; auto.
    + assumption.
    + rewrite (increment_sum Z.eqb). now rewrite S1.
    + rewrite (increment_sum Z.eqb). now rewrite S2.
    + rewrite (increment_sum Nat.eqb). now rewrite S3.
    + destruct breaker as [b|]; [rewrite (increment_sum Z.eqb)|]; lia.
    + intros len Hl.
      apply (increment_keys_In Nat.eqb nat_eqb_spec) in Hl as [->|Hl]; auto.
    + now apply (increment_NoDup Z.eqb Z_eqb_spec).
    + now apply (increment_NoDup Z.eqb Z_eqb_spec).
    + destruct breaker as [b|]; [now apply (increment_NoDup Z.eqb Z_eqb_spec)|auto].
    + now apply (increment_NoDup Nat.eqb nat_eqb_spec).
    + now apply (increment_positive Z.eqb).
Qed.

Lemma noteMember_info st r k :
  In k (map_keys (memberInfo (noteMember st r)))
  <-> k = rowSender r \/ In k (map_keys (memberInfo st)).
Proof.
  unfold noteMember. cbn [memberInfo].
  destruct (map_has Z.eqb (rowSender r) (memberInfo st)) eqn:H.
  - apply (map_has_In Z.eqb Z_eqb_spec) in H. split; [auto|].
    intros [->|?]; assumption.
  - apply (map_set_keys_In Z.eqb Z_eqb_spec).
Qed.

Lemma repeatStep_invariant trim st r :
  repeatInvariant st -> repeatInvariant (repeatStep trim st r).
Proof.
  intros Inv.
  assert (Inv1 : repeatInvariant (noteMember st r)
                 /\ In (rowSender r) (map_keys (memberInfo (noteMember st r)))).
  { destruct Inv as (I1 & I2 & I3 & I4 & Rest). split.
    - cbn [noteMember originatorCount initiatorCount breakerCount chainLengthCount
             repeatChain totalRepeatChains].
      repeat match goal with |- _ /\ _ => split end;
        try (intros k Hk; apply noteMember_info; right; auto);
        try apply Rest.
    - apply noteMember_info. now left. }
  destruct Inv1 as [Inv1 Hr]. unfold repeatStep.
  set (st1 := noteMember st r) in *.
  set (entry := mkEntry (rowSender r) (trim (rowContent r)) (rowTs r)).
  assert (Hsnoc : forall e, In e (repeatChain st1 ++ [entry])%list ->
                            In (entrySender e) (map_keys (memberInfo st1))).
  { intros e He. apply in_app_or in He as [He|[<-|[]]]; [|exact Hr].
    now apply Inv1. }
  assert (Hwith : forall s cur chain,
             repeatInvariant s ->
             (forall e, In e chain -> In (entrySender e) (map_keys (memberInfo s))) ->
             repeatInvariant (withChain s cur chain)).
  { intros s cur chain Is Hc.
    destruct Is as (I1 & I2 & I3 & I4 & Rest).
    cbn [withChain originatorCount initiatorCount breakerCount chainLengthCount
           memberInfo repeatChain totalRepeatChains].
    repeat match goal with |- _ /\ _ => split end; auto; apply Rest. }
  destruct (sameContent (trim (rowContent r)) (currentContent st1)).
  - destruct (lastSender (repeatChain st1)) as [s|].
    + destruct (s =? rowSender r); [exact Inv1 | now apply Hwith].
    + now apply Hwith.
  - apply Hwith.
    + apply processRepeatChain_invariant; [apply Inv1 | | exact Inv1].
      intros b [= <-]. exact Hr.
    + intros e [<-|[]].
      destruct (Nat.lt_ge_cases (List.length (repeatChain st1)) 3) as [L|L].
      * now rewrite processRepeatChain_short.
      * destruct (processRepeatChain_long (repeatChain st1) (Some (rowSender r)) st1 L)
          as (? & ? & ? & _ & ->). exact Hr.
Qed.

Lemma scanRepeats_invariant trim rows : repeatInvariant (scanRepeats trim rows).
Proof.
  unfold scanRepeats.
  apply (fold_left_invariant (fun st => repeatInvariant st)).
  - intros st r _. apply repeatStep_invariant.
  - cbn. repeat match goal with |- _ /\ _ => split end;
      try (intros ? []); try reflexivity; try constructor; lia.
Qed.

(** Every counted member has its info, so a rank list has one entry per
    counted member. *)
Lemma buildRankList_entries (info : JsMap Z (string * string)) (countMap : JsMap Z nat) :
  (forall k, In k (map_keys countMap) -> In k (map_keys info)) ->
  Permutation (List.map rankCount (buildRankList info countMap)) (map_values countMap)
  /\ Permutation (List.map rankMember (buildRankList info countMap))
       (map_keys countMap).
Proof.
  intros H. unfold buildRankList.
  assert (E : List.map rankCount
                (flat_map
                   (fun kv =>
                      match map_get Z.eqb (fst kv) info with
                      | Some (pid, nm) => [mkRankItem (fst kv) pid nm (snd kv)]
                      | None => []
                      end) countMap)
              = map_values countMap
              /\ List.map rankMember
                   (flat_map
                      (fun kv =>
                         match map_get Z.eqb (fst kv) info with
                         | Some (pid, nm) => [mkRankItem (fst kv) pid nm (snd kv)]
                         | None => []
                         end) countMap)
                 = map_keys countMap).
  { unfold map_values, map_keys in *.
    induction countMap as [|[k n] cm IH]; [split; reflexivity|].
    cbn [flat_map fst snd List.map].
    destruct (map_get_In Z.eqb Z_eqb_spec k info) as ([pid nm] & G & _).
    { apply H. now left. }
    rewrite G. cbn [List.app List.map rankCount rankMember].
    destruct IH as [IH1 IH2]; [intros k' Hk'; apply H; now right|].
    now rewrite IH1, IH2. }
  destruct E as [E1 E2]. split.
  - rewrite <- E1. apply Permutation_sym, Permutation_map, sortDesc_perm.
  - rewrite <- E2. apply Permutation_sym, Permutation_map, sortDesc_perm.
Qed.

(** ** The monologue scan *)

Local Abbreviation monoInvariant st :=
  (NoDup (map_keys (memberStats st))
   /\ (forall k s, map_get Z.eqb k (memberStats st) = Some s ->
         totalStreaks s = (lowStreak s + midStreak s + highStreak s)%nat
         /\ (1 <= totalStreaks s)%nat
         /\ (3 <= maxCombo s)%nat
         /\ exists g, globalMaxCombo st = Some g
                      /\ (maxCombo s <= comboLength g)%nat)
   /\ (forall g, globalMaxCombo st = Some g ->
         exists s, map_get Z.eqb (comboMember g) (memberStats st) = Some s
                   /\ maxCombo s = comboLength g)
   /\ (globalMaxCombo st = None -> memberStats st = [])).

Lemma finishStreak_invariant st :
  monoInvariant st -> monoInvariant (finishStreak st).
Proof.
  intros (N & Hs & Hg & Hn). unfold finishStreak.
  destruct (3 <=? streakCount (currentStreak st))%nat eqn:E;
    [|exact (conj N (conj Hs (conj Hg Hn)))].
  apply Nat.leb_le in E.
  set (cur := currentStreak st) in *. set (k0 := streakSender cur).
  set (n := streakCount cur) in *.
  cbn [memberStats globalMaxCombo].
  (* the old counters of the member *)
  assert (Hold : exists old,
             match map_get Z.eqb k0 (memberStats st) with
             | Some s => s
             | None => mkStats 0 0 0 0 0
             end = old
             /\ totalStreaks old = (lowStreak old + midStreak old + highStreak old)%nat
             /\ (forall g, globalMaxCombo st = Some g ->
                           (maxCombo old <= comboLength g)%nat)
             /\ (globalMaxCombo st = None -> maxCombo old = 0%nat)
             /\ (forall s, map_get Z.eqb k0 (memberStats st) = Some s -> old = s)).
  { destruct (map_get Z.eqb k0 (memberStats st)) as [s|] eqn:G.
    - exists s. destruct (Hs _ _ G) as (A & _ & _ & g & Eg & Lg).
      split; [reflexivity|]. split; [exact A|]. split; [|split].
      + intros g' Eg'. congruence.
      + intros C. congruence.
      + intros s' [= <-]. reflexivity.
    - exists (mkStats 0 0 0 0 0).
      split; [reflexivity|]. split; [reflexivity|]. split; [|split].
      + intros; simpl; lia.
      + reflexivity.
      + intros s' [=]. }
  destruct Hold as (old & -> & Osum & Omax & Ozero & Osame).
  set (best :=
         match globalMaxCombo st with
         | Some g =>
             if (comboLength g <? n)%nat
             then Some (mkMaxCombo k0 n (startTs cur)) else Some g
         | None => Some (mkMaxCombo k0 n (startTs cur))
         end).
  assert (Hbest : exists b, best = Some b
              /\ (n <= comboLength b)%nat
              /\ (forall g, globalMaxCombo st = Some g ->
                            (comboLength g <= comboLength b)%nat)
              /\ ((b = mkMaxCombo k0 n (startTs cur)
                   /\ forall g, globalMaxCombo st = Some g ->
                                (comboLength g < n)%nat)
                  \/ (globalMaxCombo st = Some b /\ (n <= comboLength b)%nat))).
  { unfold best. destruct (globalMaxCombo st) as [g|].
    - destruct (comboLength g <? n)%nat eqn:L.
      + apply Nat.ltb_lt in L. eexists. split; [reflexivity|]. cbn [comboLength].
        split; [lia|]. split.
        * intros g' [= <-]. lia.
        * left. split; [reflexivity|]. intros g' [= <-]. exact L.
      + apply Nat.ltb_ge in L. exists g.
        split; [reflexivity|]. split; [exact L|]. split.
        * intros g' [= <-]. lia.
        * right. split; [reflexivity | exact L].
    - eexists. split; [reflexivity|]. cbn [comboLength].
      split; [lia|]. split.
      + intros g [=].
      + left. split; [reflexivity|]. intros g [=]. }
  destruct Hbest as (b & Eb & Lb & Gb & Cb). fold best. rewrite Eb.
  set (new := mkStats (S (totalStreaks old)) (Nat.max (maxCombo old) n) _ _ _).
  assert (Ho : (maxCombo old <= comboLength b)%nat).
  { destruct (globalMaxCombo st) as [g|] eqn:Eg.
    - specialize (Omax g eq_refl). specialize (Gb g eq_refl). lia.
    - rewrite (Ozero eq_refl). lia. }
  assert (Hnew : totalStreaks new = (lowStreak new + midStreak new + highStreak new)%nat
                 /\ (1 <= totalStreaks new)%nat /\ (3 <= maxCombo new)%nat
                 /\ (maxCombo new <= comboLength b)%nat).
  { unfold new. cbn [totalStreaks maxCombo lowStreak midStreak highStreak].
    destruct (10 <=? n)%nat; [|destruct (5 <=? n)%nat];
      (split; [lia|]); (split; [lia|]); split; lia. }
  destruct Hnew as (A1 & A2 & A3 & A4).
  split; [now apply (map_set_keys_NoDup Z.eqb Z_eqb_spec)|]. split; [|split].
  - intros k s G. rewrite (map_get_set Z.eqb Z_eqb_spec) in G.
    destruct (k =? k0) eqn:Ek.
    + inversion G; subst s.
      split; [exact A1|]. split; [exact A2|]. split; [exact A3|].
      exists b. split; [reflexivity | exact A4].
    + destruct (Hs _ _ G) as (B1 & B2 & B3 & g & Eg & Lg).
      split; [exact B1|]. split; [exact B2|]. split; [exact B3|].
      exists b. split; [reflexivity|].
      specialize (Gb g Eg). lia.
  - intros g [= <-]. rewrite (map_get_set Z.eqb Z_eqb_spec).
    destruct Cb as [[-> Cb]|[Cb Cn]].
    + cbn [comboMember comboLength]. rewrite Z.eqb_refl. exists new.
      split; [reflexivity|]. unfold new. cbn [maxCombo].
      destruct (globalMaxCombo st) as [g|] eqn:Eg.
      * specialize (Omax g eq_refl). specialize (Cb g eq_refl). lia.
      * rewrite (Ozero eq_refl). lia.
    + destruct (Hg _ Cb) as (s & G & Ms).
      destruct (comboMember b =? k0) eqn:Ek.
      * exists new. split; [reflexivity|].
        apply Z.eqb_eq in Ek. unfold new. cbn [maxCombo].
        rewrite Ek in G. rewrite (Osame s G). lia.
      * exists s. split; assumption.
  - discriminate.
Qed.

Lemma monoStep_invariant st r :
  monoInvariant st -> monoInvariant (monoStep st r).
Proof.
  intros Inv. unfold monoStep. cbn zeta.
  destruct ((monoSender r =? _) && (_ <=? MAX_INTERVAL)).
  - exact Inv.
  - match goal with
    | |- context [finishStreak ?s] =>
        assert (F : monoInvariant (finishStreak s)) by (apply finishStreak_invariant; exact Inv)
    end.
    exact F.
Qed.

Lemma scanMonologues_invariant rows : monoInvariant (scanMonologues rows).
Proof.
  unfold scanMonologues.
  apply (fold_left_invariant (fun st => monoInvariant st)).
  - intros st r _. apply monoStep_invariant.
  - cbn. repeat split; try constructor; try discriminate; intros; discriminate.
Qed.

End ScanFacts.

Module ScanSpec.
Import Analysis MapFacts GroupFacts SortFacts ScanFacts.

(** X23. The repeat analysis adds up, whatever [String.prototype.trim]
    removes: the counts of the originator ranking sum to the number of
    repeat chains, and so do the counts of the initiator ranking and of
    the chain-length distribution; the breaker counts sum to at most that
    number (the chain that ends the input has no breaker); every counted
    chain length is at least 3; and a member appears at most once in each
    ranking. *)
Theorem repeat_counts_add_up :
  forall (trim : string -> string) (rows : list RepeatRow),
    let res := getRepeatAnalysis trim (Some rows) in
    list_sum (List.map rankCount (originators res)) = resultTotalRepeatChains res
    /\ list_sum (List.map rankCount (initiators res)) = resultTotalRepeatChains res
    /\ list_sum (List.map snd (chainLengthDistribution res))
       = resultTotalRepeatChains res
    /\ (list_sum (List.map rankCount (breakers res)) <= resultTotalRepeatChains res)%nat
    /\ (forall d, In d (chainLengthDistribution res) -> (3 <= fst d)%nat)
    /\ NoDup (List.map rankMember (originators res))
    /\ NoDup (List.map rankMember (initiators res))
    /\ NoDup (List.map rankMember (breakers res)).
Proof.
  intros trim rows res. unfold res, getRepeatAnalysis.
  set (st := scanRepeats trim rows).
  pose proof (scanRepeats_invariant trim rows) as I. fold st in I.
  assert (Hb : forall b, @None Z = Some b -> In b (map_keys (memberInfo st)))
    by discriminate.
  pose proof (processRepeatChain_invariant (repeatChain st) None st
                (proj1 (proj2 (proj2 (proj2 I)))) Hb I) as Inv.
  clear I Hb.
  set (fin := processRepeatChain (repeatChain st) None st) in *.
  destruct Inv as (I1 & I2 & I3 & I4 & S1 & S2 & S3 & S4 & L3 & N1 & N2 & N3 & N4 & P1).
  unfold finishRepeats.
  cbn [originators initiators breakers chainLengthDistribution resultTotalRepeatChains].
  destruct (buildRankList_entries (memberInfo fin) (originatorCount fin) I1) as [O1 O2].
  destruct (buildRankList_entries (memberInfo fin) (initiatorCount fin) I2) as [J1 J2].
  destruct (buildRankList_entries (memberInfo fin) (breakerCount fin) I3) as [B1 B2].
  repeat match goal with |- _ /\ _ => split end.
  - now rewrite (list_sum_perm _ _ O1).
  - now rewrite (list_sum_perm _ _ J1).
  - rewrite <- S3. apply list_sum_perm.
    apply Permutation_sym, Permutation_map, sortAsc_perm.
  - now rewrite (list_sum_perm _ _ B1).
  - intros d Hd.
    apply (Permutation_in _ (Permutation_sym (sortAsc_perm fst _))) in Hd.
    apply L3. unfold map_keys. now apply in_map.
  - eapply Permutation_NoDup; [apply Permutation_sym, O2 | exact N1].
  - eapply Permutation_NoDup; [apply Permutation_sym, J2 | exact N2].
  - eapply Permutation_NoDup; [apply Permutation_sym, B2 | exact N3].
Qed.

(** X24. The lists of the repeat analysis are ordered, whatever
    [String.prototype.trim] removes: the three rankings by count, largest
    first; the chain-length distribution by length, smallest first; the
    hot contents by their longest chain, longest first, and there are at
    most ten of them. *)
Theorem repeat_lists_ordered :
  forall (trim : string -> string) (rows : list RepeatRow),
    let res := getRepeatAnalysis trim (Some rows) in
    Sorted ge (List.map rankCount (originators res))
    /\ Sorted ge (List.map rankCount (initiators res))
    /\ Sorted ge (List.map rankCount (breakers res))
    /\ Sorted le (List.map fst (chainLengthDistribution res))
    /\ Sorted ge (List.map hotMaxChainLength (hotContents res))
    /\ (List.length (hotContents res) <= 10)%nat.
Proof.
  intros trim rows res. unfold res, getRepeatAnalysis, finishRepeats.
  cbn [originators initiators breakers chainLengthDistribution hotContents].
  repeat match goal with |- _ /\ _ => split end.
  - apply sortDesc_sorted.
  - apply sortDesc_sorted.
  - apply sortDesc_sorted.
  - apply sortAsc_sorted.
  - rewrite <- firstn_map. apply Sorted_firstn, sortDesc_sorted.
  - rewrite List.length_firstn. lia.
Qed.

(** X25. The monologue analysis is consistent: a member appears at
    most once in the ranking, the ranking is sorted by the number of
    streaks, largest first; for every entry the number of streaks is the
    sum of the three tiers and at least 1, and the longest streak is at
    least 3; the record is the longest streak of all entries and belongs
    to an entry that has it, and there is no record exactly when the
    ranking is empty. *)
Theorem monologue_ranking_consistent :
  forall rows : list MonoRow,
    let res := getMonologueAnalysis (Some rows) in
    NoDup (List.map monoMember (rank res))
    /\ Sorted ge (List.map (fun e => totalStreaks (monoStats e)) (rank res))
    /\ (forall e, In e (rank res) ->
          totalStreaks (monoStats e)
          = (lowStreak (monoStats e) + midStreak (monoStats e)
             + highStreak (monoStats e))%nat
          /\ (1 <= totalStreaks (monoStats e))%nat
          /\ (3 <= maxCombo (monoStats e))%nat)
    /\ match maxComboRecord res with
       | Some record =>
           (forall e, In e (rank res) ->
                      (maxCombo (monoStats e) <= recordLength record)%nat)
           /\ exists e, In e (rank res)
                        /\ monoMember e = recordMember record
                        /\ maxCombo (monoStats e) = recordLength record
       | None => rank res = []
       end.
Proof.
  intros rows res.
  destruct rows as [|r0 rows0].
  { cbn. split; [constructor|]. split; [constructor|].
    split; [intros e []|reflexivity]. }
  set (rows := r0 :: rows0) in *.
  assert (Hres : res
                 = let st := finishStreak (scanMonologues rows) in
                   {| rank :=
                        sortDesc (fun e => totalStreaks (monoStats e))
                          (List.map
                             (fun kv =>
                                mkMonoRank (fst kv) (fst (infoOf (monoInfo st) (fst kv)))
                                  (snd (infoOf (monoInfo st) (fst kv))) (snd kv))
                             (memberStats st));
                      maxComboRecord :=
                        option_map
                          (fun g =>
                             mkMonoRecord (comboMember g)
                               (fst (infoOf (monoInfo st) (comboMember g)))
                               (snd (infoOf (monoInfo st) (comboMember g)))
                               (comboLength g) (comboStartTs g))
                          (globalMaxCombo st) |}) by reflexivity.
  rewrite Hres. clear Hres res. cbn zeta.
  set (st := finishStreak (scanMonologues rows)).
  pose proof (finishStreak_invariant _ (scanMonologues_invariant rows)) as Inv.
  fold st in Inv.
  destruct Inv as (N & Hs & Hg & Hn).
  cbn [rank maxComboRecord].
  set (mk := fun kv : Z * MemberStats =>
               mkMonoRank (fst kv) (fst (infoOf (monoInfo st) (fst kv)))
                 (snd (infoOf (monoInfo st) (fst kv))) (snd kv)).
  assert (Hin : forall e,
             In e (sortDesc (fun e => totalStreaks (monoStats e))
                     (List.map mk (memberStats st)))
             <-> exists k s, map_get Z.eqb k (memberStats st) = Some s /\ e = mk (k, s)).
  { intros e. rewrite sortDesc_In, in_map_iff. split.
    - intros ([k s] & <- & H). exists k, s. split; [|reflexivity].
      now apply (map_get_of_In Z.eqb Z_eqb_spec).
    - intros (k & s & G & ->). exists (k, s). split; [reflexivity|].
      now apply (In_of_map_get Z.eqb Z_eqb_spec). }
  split; [|split; [|split]].
  - apply sortDesc_NoDup. rewrite List.map_map. exact N.
  - apply sortDesc_sorted.
  - intros e He. apply Hin in He as (k & s & G & ->). cbn [mk monoStats snd].
    destruct (Hs _ _ G) as (A & B & C & _). auto.
  - destruct (globalMaxCombo st) as [g|] eqn:Eg; cbn [option_map].
    + cbn [recordLength recordMember]. split.
      * intros e He. apply Hin in He as (k & s & G & ->). cbn [mk monoStats snd].
        destruct (Hs _ _ G) as (_ & _ & _ & g' & Eg' & L). congruence.
      * destruct (Hg g eq_refl) as (s & G & M).
        exists (mk (comboMember g, s)). split; [|split; [reflexivity | exact M]].
        apply Hin. now exists (comboMember g), s.
    + rewrite (Hn eq_refl). reflexivity.
Qed.

End ScanSpec.


(* ===================================================================== *)
(** * The file preview and the conflict check *)
(* ===================================================================== *)

Module PreviewSpec.
Import Merger Preview StringFacts MapFacts MergerFacts TraceFacts GroupFacts MergerSpec.
Import ConflictFacts Samples.

(** X26. A file that can be previewed can be checked on its own: when
    [parseFileInfo] returns for a path, it has sniffed and then parsed the
    file, its counts are those of the parse result, and [checkConflicts]
    on that single path returns as well, with no conflict and a total that
    is at most the message count of the preview (messages with equal
    fingerprints count once). *)
Theorem previewed_file_checks_clean :
  forall env filePath info t,
    parseFileInfo env filePath [] = (Normal info, t) ->
    t = [CallDetect filePath; CallParse filePath]
    /\ (exists f r,
          detectFormat env filePath = Normal (Some f)
          /\ parseFileSync env filePath = Normal r
          /\ infoFormat info = featureName f
          /\ infoName info = metaName (meta r)
          /\ infoPlatform info = metaPlatform (meta r)
          /\ infoMessageCount info = List.length (messages r)
          /\ infoMemberCount info = List.length (members r))
    /\ exists result,
         fst (checkConflicts env [filePath] []) = Normal result
         /\ conflicts result = []
         /\ (totalMessages result <= infoMessageCount info)%nat.
Proof.
  intros env filePath info t H.
  unfold parseFileInfo in H.
  unfold bind at 1, emit in H. cbn [List.app] in H.
  unfold bind at 1, lift in H.
  destruct (detectFormat env filePath) as [[f|]|e] eqn:D;
    [|unfold throw in H; discriminate|discriminate].
  unfold bind at 1, emit in H. cbn [List.app] in H.
  unfold bind at 1, lift in H.
  destruct (parseFileSync env filePath) as [r|e] eqn:P; [|discriminate].
  unfold ret in H. inversion H; subst info t. clear H.
  cbn [infoFormat infoName infoPlatform infoMessageCount infoMemberCount].
  split; [reflexivity|]. split.
  - exists f, r. repeat split; assumption || reflexivity.
  - assert (Fd : Forall2 (fun p f => detectFormat env p = Normal (Some f))
                   [filePath] [f]) by (constructor; [assumption | constructor]).
    assert (Fp : Forall2 (fun p r => parseFileSync env p = Normal r)
                   [filePath] [r]) by (constructor; [assumption | constructor]).
    assert (L : (List.length (set_of_list String.eqb (List.map featureName [f]))
                   <= 1)%nat) by (cbn; lia).
    pose proof (checkConflicts_ok env [filePath] [f] [r] [] Fd L Fp) as C.
    cbn zeta in C. rewrite C. cbn [fst].
    eexists. split; [reflexivity|]. cbn [conflicts totalMessages]. split.
    + apply detectConflicts_one_source. intros x y Hx Hy.
      destruct (items_of_files env [filePath] [r] Fp x Hx)
        as (p & _ & [<-|[]] & _ & _ & ->).
      destruct (items_of_files env [filePath] [r] Fp y Hy)
        as (q & _ & [<-|[]] & _ & _ & ->).
      reflexivity.
    + unfold uniqueKeys. rewrite <- (List.map_map msg getMessageKey).
      rewrite (items_messages env [filePath] [r] Fp).
      cbn [List.map List.concat]. rewrite List.app_nil_r.
      rewrite <- (List.length_map getMessageKey (messages r)).
      apply (set_of_list_length String.eqb string_eqb_spec).
Qed.

(** The export a.json of the sample machine: three messages, two of
    them with one fingerprint. *)
Lemma previewed_file_checks_clean_witness :
  parseFileInfo sampleEnv "a.json" []
  = (Normal (mkFileParseInfo "group" "Alpha" "qq" 3 2),
     [CallDetect "a.json"; CallParse "a.json"])
  /\ [CallDetect "a.json"; CallParse "a.json"]
     = [CallDetect "a.json"; CallParse "a.json"]
  /\ (exists f r,
        detectFormat sampleEnv "a.json" = Normal (Some f)
        /\ parseFileSync sampleEnv "a.json" = Normal r
        /\ infoFormat (mkFileParseInfo "group" "Alpha" "qq" 3 2) = featureName f
        /\ infoName (mkFileParseInfo "group" "Alpha" "qq" 3 2) = metaName (meta r)
        /\ infoPlatform (mkFileParseInfo "group" "Alpha" "qq" 3 2)
           = metaPlatform (meta r)
        /\ infoMessageCount (mkFileParseInfo "group" "Alpha" "qq" 3 2)
           = List.length (messages r)
        /\ infoMemberCount (mkFileParseInfo "group" "Alpha" "qq" 3 2)
           = List.length (members r))
  /\ exists result,
       fst (checkConflicts sampleEnv ["a.json"] []) = Normal result
       /\ conflicts result = []
       /\ (totalMessages result
             <= infoMessageCount (mkFileParseInfo "group" "Alpha" "qq" 3 2))%nat.
Proof.
  assert (H : parseFileInfo sampleEnv "a.json" []
              = (Normal (mkFileParseInfo "group" "Alpha" "qq" 3 2),
                 [CallDetect "a.json"; CallParse "a.json"]))
    by (vm_compute; reflexivity).
  split; [exact H|].
  exact (previewed_file_checks_clean sampleEnv "a.json" _ _ H).
Defined.

End PreviewSpec.
